(** * Frame scheduler, pointer follower and particle field of the portfolio
      script (main.js)

    The script is embedded shallowly.  JavaScript numbers are modelled as real
    numbers extended with the not-a-number element: arithmetic is exact (no
    rounding, no overflow), and an operation without a finite result yields
    [NaN], which then propagates as it does in the language.  Objects become
    records, the browser's animation-frame queue an explicit list, and
    [Math.random] an oracle that is read sequentially. *)

From Stdlib Require Import Reals Lra Lia List ZArith Bool PeanoNat.
Import ListNotations.

Open Scope R_scope.

(** ** Numbers *)

Inductive num : Type :=
| Num (r : R)
| NaN.

Coercion Num : R >-> num.

Declare Scope js_scope.
Delimit Scope js_scope with js.
Bind Scope js_scope with num.

Module JsNum.

Definition lift2 (f : R -> R -> R) (a b : num) : num :=
  match a, b with
  | Num u, Num v => Num (f u v)
  | _, _ => NaN
  end.

Definition add : num -> num -> num := lift2 Rplus.
Definition sub : num -> num -> num := lift2 Rminus.
Definition mul : num -> num -> num := lift2 Rmult.

(** [a / b]: the quotient when the divisor is not zero.  [0 / 0] is [NaN];
    a non-zero numerator over zero has no finite value either and is mapped
    to the same element. *)
Definition div (a b : num) : num :=
  match a, b with
  | Num u, Num v => if Req_dec_T v 0 then NaN else Num (u / v)
  | _, _ => NaN
  end.

(** [Math.sqrt] *)
Definition sqrt (a : num) : num :=
  match a with
  | Num u => if Rlt_dec u 0 then NaN else Num (R_sqrt.sqrt u)
  | NaN => NaN
  end.

(** [a < b] and [a > b]: false as soon as one side is [NaN]. *)
Definition lt (a b : num) : bool :=
  match a, b with
  | Num u, Num v => if Rlt_dec u v then true else false
  | _, _ => false
  end.

Definition gt (a b : num) : bool := lt b a.

Definition finite (a : num) : Prop :=
  match a with Num _ => True | NaN => False end.

End JsNum.

Notation "a + b" := (JsNum.add a b) : js_scope.
Notation "a - b" := (JsNum.sub a b) : js_scope.
Notation "a * b" := (JsNum.mul a b) : js_scope.
Notation "a / b" := (JsNum.div a b) : js_scope.
Notation "a <? b" := (JsNum.lt a b) (at level 70) : js_scope.
Notation "a >? b" := (JsNum.gt a b) (at level 70) : js_scope.

(** ** Utilities *)

Definition lerp (a b t : num) : num := (a + (b - a) * t)%js.

(** ** Data *)

Module Point.
Record t : Type := mk { x : num; y : num }.
End Point.

Module Particle.
Record t : Type := mk
  { x : num; y : num; vx : num; vy : num; radius : num; alpha : num }.

Definition set_x (p : t) (v : num) : t := mk v (y p) (vx p) (vy p) (radius p) (alpha p).
Definition set_y (p : t) (v : num) : t := mk (x p) v (vx p) (vy p) (radius p) (alpha p).
Definition set_vx (p : t) (v : num) : t := mk (x p) (y p) v (vy p) (radius p) (alpha p).
Definition set_vy (p : t) (v : num) : t := mk (x p) (y p) (vx p) v (radius p) (alpha p).
End Particle.

(** ** One particle, one frame: the body of the per-particle loop

    [touch] is the value of [isTouchDevice()], [mouse] the field's pointer
    position, [width] and [height] the canvas size read at the top of [loop],
    [r1] and [r2] the two [Math.random()] results of the drift. *)

Module Step.

Import Particle.

(** Mouse repulsion (only on desktop). *)
Definition repel (touch : bool) (mouse : Point.t) (p : t) : t :=
  if negb touch then
    let dx := (x p - Point.x mouse)%js in
    let dy := (y p - Point.y mouse)%js in
    let distSq := (dx * dx + dy * dy)%js in
    if (distSq <? 14400)%js then
      let dist := JsNum.sqrt distSq in
      let force := ((120 - dist) / 120)%js in
      let p1 := set_vx p (vx p + (dx / dist) * force * 0.12)%js in
      set_vy p1 (vy p1 + (dy / dist) * force * 0.12)%js
    else p
  else p.

Definition damp (p : t) : t :=
  let p1 := set_vx p (vx p * 0.985)%js in
  set_vy p1 (vy p1 * 0.985)%js.

Definition drift (r1 r2 : num) (p : t) : t :=
  let p1 := set_vx p (vx p + (r1 - 0.5) * 0.008)%js in
  set_vy p1 (vy p1 + (r2 - 0.5) * 0.008)%js.

Definition integrate (p : t) : t :=
  let p1 := set_x p (x p + vx p)%js in
  set_y p1 (y p1 + vy p1)%js.

(** The two successive tests on one coordinate. *)
Definition wrap1 (v dim : num) : num :=
  let v1 := if (v <? 0)%js then dim else v in
  if (v1 >? dim)%js then Num 0 else v1.

Definition wrap (width height : num) (p : t) : t :=
  let p1 := set_x p (wrap1 (x p) width) in
  set_y p1 (wrap1 (y p1) height).

Definition step (touch : bool) (mouse : Point.t) (width height : num)
    (r1 r2 : num) (p : t) : t :=
  wrap width height (integrate (drift r1 r2 (damp (repel touch mouse p)))).

End Step.

(** ** The host: what the browser provides *)

Module Host.

(** The functions the script hands to [requestAnimationFrame]: the shared
    loop's [tick], the particle field's [() => this.loop()], and the frames
    requested by the effects outside the core (parallax, counters, page
    reveal), which touch none of the state modelled here. *)
Inductive Callback : Type := SharedTick | ParticlesLoop | Foreign.

Definition Callback_eqb (a b : Callback) : bool :=
  match a, b with
  | SharedTick, SharedTick | ParticlesLoop, ParticlesLoop | Foreign, Foreign => true
  | _, _ => false
  end.

(** The canvas element: its two size attributes. *)
Record Canvas : Type := mkCanvas { width : Z; height : Z }.

(** What the 2D context was asked to paint. *)
Inductive DrawCmd : Type :=
| ClearRect (w h : Z)
| Arc (cx cy r a : num)
| Line (x1 y1 x2 y2 a : num).

(** The part of the page that never changes after load. *)
Record Env : Type := mkEnv
  { touch : bool;                 (* isTouchDevice() *)
    reducedMotion : bool;         (* prefersReducedMotion() *)
    cursorEl : bool;              (* querySelector('.cursor') finds an element *)
    glowEl : bool;                (* querySelector('.cursor-glow') finds an element *)
    canvasEl : option Canvas;     (* getElementById('particles') *)
    context2d : bool;             (* getContext('2d') is not null *)
    random : nat -> R }.          (* the successive results of Math.random() *)

Record t : Type := mk
  { env : Env;
    innerWidth : Z;
    innerHeight : Z;
    rafQueue : list (nat * Callback);   (* pending animation-frame callbacks *)
    rafNext : nat;                      (* the next handle to hand out *)
    randomPos : nat;                    (* how many random numbers were drawn *)
    drawn : list DrawCmd }.             (* everything painted so far *)

Definition set_window (wd ht : Z) (h : t) : t :=
  mk (env h) wd ht (rafQueue h) (rafNext h) (randomPos h) (drawn h).
Definition set_rafQueue (q : list (nat * Callback)) (h : t) : t :=
  mk (env h) (innerWidth h) (innerHeight h) q (rafNext h) (randomPos h) (drawn h).
Definition set_randomPos (k : nat) (h : t) : t :=
  mk (env h) (innerWidth h) (innerHeight h) (rafQueue h) (rafNext h) k (drawn h).
Definition paint (cmds : list DrawCmd) (h : t) : t :=
  mk (env h) (innerWidth h) (innerHeight h) (rafQueue h) (rafNext h) (randomPos h)
     (drawn h ++ cmds).

Definition isTouchDevice (h : t) : bool := touch (env h).
Definition prefersReducedMotion (h : t) : bool := reducedMotion (env h).

(** [requestAnimationFrame(cb)]: queue the callback, return its handle. *)
Definition requestAnimationFrame (cb : Callback) (h : t) : nat * t :=
  (rafNext h,
   mk (env h) (innerWidth h) (innerHeight h) (rafQueue h ++ [(rafNext h, cb)])
      (S (rafNext h)) (randomPos h) (drawn h)).

(** [cancelAnimationFrame(id)]: drop the callback with that handle, if any. *)
Definition cancelAnimationFrame (id : nat) (h : t) : t :=
  set_rafQueue (filter (fun e => negb (Nat.eqb (fst e) id)) (rafQueue h)) h.

Fixpoint lookup (id : nat) (q : list (nat * Callback)) : option Callback :=
  match q with
  | [] => None
  | (i, cb) :: tl => if Nat.eqb i id then Some cb else lookup id tl
  end.

(** How many pending callbacks are [cb]. *)
Definition pending (cb : Callback) (h : t) : nat :=
  length (filter (fun e => Callback_eqb (snd e) cb) (rafQueue h)).

Definition initial (e : Env) (wd ht : Z) : t := mk e wd ht [] 1 0 [].

End Host.

(** ** Results of a method call: normal completion or an uncaught exception;
       either way the state reached is kept. *)

Inductive Res (S A : Type) : Type :=
| Ok (a : A) (s : S)
| Throw (s : S).
Arguments Ok {S A} a s.
Arguments Throw {S A} s.

Definition M (S A : Type) : Type := S -> Res S A.

Definition bind {S A B} (m : M S A) (k : A -> M S B) : M S B :=
  fun s => match m s with Ok a s1 => k a s1 | Throw s1 => Throw s1 end.
Definition state_of {S A} (r : Res S A) : S :=
  match r with Ok _ s => s | Throw s => s end.
Definition throws {S A} (r : Res S A) : bool :=
  match r with Ok _ _ => false | Throw _ => true end.

Notation "m ;; k" := (bind m (fun _ => k)) (at level 61, right associativity).

(** ** 1. Custom cursor system *)

Module Cursor.

Record t : Type := mk
  { el : bool;                          (* the '.cursor' element was found *)
    glow : bool;                        (* the '.cursor-glow' element was found *)
    mouse : Point.t;
    pos : Point.t;
    glowPos : Point.t;
    hovering : bool;
    hasMoved : bool;
    scrolling : bool;
    scrollTimer : bool;                 (* a quiet-period timeout is pending *)
    elTransform : option (num * num);   (* translate3d written to the dot *)
    glowTransform : option (num * num); (* translate3d written to the glow *)
    listeners : nat }.                  (* how often [init] registered its handlers *)

Definition initial : t :=
  mk false false (Point.mk (-100) (-100)) (Point.mk (-100) (-100))
     (Point.mk (-100) (-100)) false false false false None None 0.

Definition init (e : Host.Env) (c : t) : t :=
  if Host.touch e then c
  else
    let c1 := mk (Host.cursorEl e) (Host.glowEl e) (mouse c) (pos c) (glowPos c)
                 (hovering c) (hasMoved c) (scrolling c) (scrollTimer c)
                 (elTransform c) (glowTransform c) (listeners c) in
    if negb (el c1) then c1
    else mk (el c1) (glow c1) (mouse c1) (pos c1) (glowPos c1) (hovering c1)
            (hasMoved c1) (scrolling c1) (scrollTimer c1) (elTransform c1)
            (glowTransform c1) (S (listeners c1)).

(** The [mousemove] handler. *)
Definition on_mousemove (clientX clientY : num) (c : t) : t :=
  let m := Point.mk clientX clientY in
  if negb (hasMoved c) then
    (* On first mouse move, snap to position (no lerp lag) *)
    mk (el c) (glow c) m (Point.mk clientX clientY) (Point.mk clientX clientY)
       (hovering c) true (scrolling c) (scrollTimer c) (elTransform c)
       (glowTransform c) (listeners c)
  else
    mk (el c) (glow c) m (pos c) (glowPos c) (hovering c) (hasMoved c)
       (scrolling c) (scrollTimer c) (elTransform c) (glowTransform c) (listeners c).

Definition set_hover (b scr tm : bool) (c : t) : t :=
  mk (el c) (glow c) (mouse c) (pos c) (glowPos c) b (hasMoved c) scr tm
     (elTransform c) (glowTransform c) (listeners c).

(** The [scroll] handler, and the timeout it arms; [hit] tells whether the
    element under the pointer is interactive when the timeout fires. *)
Definition on_scroll (c : t) : t := set_hover (hovering c) true true c.
Definition on_scroll_quiet (hit : bool) (c : t) : t :=
  if scrollTimer c then set_hover hit false false c else c.

(** The [mouseover] and [mouseout] handlers; [interactive] tells whether the
    event's target lies in an interactive element. *)
Definition on_mouseover (interactive : bool) (c : t) : t :=
  if scrolling c then c
  else if interactive then set_hover true (scrolling c) (scrollTimer c) c else c.
Definition on_mouseout (interactive : bool) (c : t) : t :=
  if scrolling c then c
  else if interactive then set_hover false (scrolling c) (scrollTimer c) c else c.

Definition update (c : t) : t :=
  if negb (el c) || negb (hasMoved c) then c
  else
    let px := lerp (Point.x (pos c)) (Point.x (mouse c)) 0.18 in
    let py := lerp (Point.y (pos c)) (Point.y (mouse c)) 0.18 in
    (* Offset for dot center (hovering = 24px center, normal = 4px center) *)
    let offset : num := if hovering c then Num (-24) else Num (-4) in
    let tr := Some ((px + offset)%js, (py + offset)%js) in
    if glow c then
      let gx := lerp (Point.x (glowPos c)) (Point.x (mouse c)) 0.08 in
      let gy := lerp (Point.y (glowPos c)) (Point.y (mouse c)) 0.08 in
      mk (el c) (glow c) (mouse c) (Point.mk px py) (Point.mk gx gy) (hovering c)
         (hasMoved c) (scrolling c) (scrollTimer c) tr
         (Some ((gx - 250)%js, (gy - 250)%js)) (listeners c)
    else
      mk (el c) (glow c) (mouse c) (Point.mk px py) (glowPos c) (hovering c)
         (hasMoved c) (scrolling c) (scrollTimer c) tr (glowTransform c)
         (listeners c).

End Cursor.

(** ** 12. Particle background *)

Module Particles.

Record t : Type := mk
  { canvas : option Host.Canvas;
    ctx : bool;                         (* the 2D context was obtained *)
    particles : list Particle.t;
    mouse : Point.t;
    raf : option nat;                   (* null, or the last handle stored *)
    running : bool;
    connectionDistance : num;
    resizeListeners : nat;              (* handlers registered by [init] *)
    mouseListeners : nat;
    visibilityListeners : nat }.

Definition initial : t :=
  mk None false [] (Point.mk (-9999) (-9999)) None false 100 0 0 0.

Definition set_canvas (c : option Host.Canvas) (s : t) : t :=
  mk c (ctx s) (particles s) (mouse s) (raf s) (running s) (connectionDistance s)
     (resizeListeners s) (mouseListeners s) (visibilityListeners s).
Definition set_ctx (b : bool) (s : t) : t :=
  mk (canvas s) b (particles s) (mouse s) (raf s) (running s) (connectionDistance s)
     (resizeListeners s) (mouseListeners s) (visibilityListeners s).
Definition set_particles (ps : list Particle.t) (s : t) : t :=
  mk (canvas s) (ctx s) ps (mouse s) (raf s) (running s) (connectionDistance s)
     (resizeListeners s) (mouseListeners s) (visibilityListeners s).
Definition set_mouse (m : Point.t) (s : t) : t :=
  mk (canvas s) (ctx s) (particles s) m (raf s) (running s) (connectionDistance s)
     (resizeListeners s) (mouseListeners s) (visibilityListeners s).
Definition set_raf (r : option nat) (s : t) : t :=
  mk (canvas s) (ctx s) (particles s) (mouse s) r (running s) (connectionDistance s)
     (resizeListeners s) (mouseListeners s) (visibilityListeners s).
Definition set_running (b : bool) (s : t) : t :=
  mk (canvas s) (ctx s) (particles s) (mouse s) (raf s) b (connectionDistance s)
     (resizeListeners s) (mouseListeners s) (visibilityListeners s).
Definition add_listeners (touch : bool) (s : t) : t :=
  mk (canvas s) (ctx s) (particles s) (mouse s) (raf s) (running s)
     (connectionDistance s) (S (resizeListeners s))
     (if touch then mouseListeners s else S (mouseListeners s))
     (S (visibilityListeners s)).

(** The state the methods work on: the host and the object itself. *)
Definition St : Type := (Host.t * t)%type.

Definition resize : M St unit := fun '(h, s) =>
  match canvas s with
  | None => Ok tt (h, s)
  | Some _ =>
      Ok tt (h, set_canvas (Some (Host.mkCanvas (Host.innerWidth h) (Host.innerHeight h))) s)
  end.

(** The object literal pushed by [spawn]; its six random numbers are the
    results number [k], [k+1], ... of [Math.random]. *)
Definition fresh (c : Host.Canvas) (r : nat -> R) (k : nat) : Particle.t :=
  Particle.mk
    (Num (r k) * Num (IZR (Host.width c)))%js
    (Num (r (k + 1)%nat) * Num (IZR (Host.height c)))%js
    ((Num (r (k + 2)%nat) - 0.5) * 0.25)%js
    ((Num (r (k + 3)%nat) - 0.5) * 0.25)%js
    (Num (r (k + 4)%nat) * 1.8 + 0.4)%js
    (Num (r (k + 5)%nat) * 0.35 + 0.08)%js.

Fixpoint spawn_loop (c : Host.Canvas) (r : nat -> R) (k n : nat) : list Particle.t :=
  match n with
  | O => []
  | S n' => fresh c r k :: spawn_loop c r (k + 6) n'
  end.

Definition spawn (count : Z) : M St unit := fun '(h, s) =>
  let s0 := set_particles [] s in
  match Z.to_nat count with
  | O => Ok tt (h, s0)
  | S _ as n =>
      match canvas s with
      | None => Throw (h, s0)        (* this.canvas.width on null *)
      | Some c =>
          Ok tt (Host.set_randomPos (Host.randomPos h + 6 * n) h,
                 set_particles
                   (spawn_loop c (Host.random (Host.env h)) (Host.randomPos h) n) s0)
      end
  end.

(** The first [for] loop of [loop]: every particle is moved; particle
    number [i] uses the random numbers [k + 2i] and [k + 2i + 1]. *)
Fixpoint step_all (touch : bool) (m : Point.t) (wd ht : num) (r : nat -> R)
    (k : nat) (ps : list Particle.t) : list Particle.t :=
  match ps with
  | [] => []
  | p :: tl =>
      Step.step touch m wd ht (Num (r k)) (Num (r (S k))) p
        :: step_all touch m wd ht r (S (S k)) tl
  end.

Definition arc (p : Particle.t) : Host.DrawCmd :=
  Host.Arc (Particle.x p) (Particle.y p) (Particle.radius p) (Particle.alpha p).

(** The index pairs visited by the two nested loops, in order. *)
Definition pair_indices (len : nat) : list (nat * nat) :=
  flat_map (fun i => map (fun j => (i, j)) (seq (S i) (len - S i))) (seq 0 len).

(** The body of the inner loop. *)
Definition connect (cd : num) (a b : Particle.t) : list Host.DrawCmd :=
  let cdSq := (cd * cd)%js in
  let dx := (Particle.x a - Particle.x b)%js in
  let dy := (Particle.y a - Particle.y b)%js in
  let distSq := (dx * dx + dy * dy)%js in
  if (distSq <? cdSq)%js then
    let dist := JsNum.sqrt distSq in
    let alpha := ((1 - dist / cd) * 0.1)%js in
    [Host.Line (Particle.x a) (Particle.y a) (Particle.x b) (Particle.y b) alpha]
  else [].

Definition nowhere : Particle.t := Particle.mk NaN NaN NaN NaN NaN NaN.

(** Draw connections (skip on touch devices for performance). *)
Definition connections (touch : bool) (cd : num) (ps : list Particle.t)
    : list Host.DrawCmd :=
  if negb touch && (length ps <? 80)%nat then
    flat_map (fun ij => connect cd (nth (fst ij) ps nowhere) (nth (snd ij) ps nowhere))
             (pair_indices (length ps))
  else [].

Definition loop : M St unit := fun '(h, s) =>
  if negb (running s) || negb (ctx s) then Ok tt (h, s)
  else
    match canvas s with
    | None => Throw (h, s)            (* destructuring null *)
    | Some c =>
        let wd := Host.width c in
        let ht := Host.height c in
        let touch := Host.isTouchDevice h in
        let ps := step_all touch (mouse s) (Num (IZR wd)) (Num (IZR ht))
                    (Host.random (Host.env h)) (Host.randomPos h) (particles s) in
        let h1 := Host.set_randomPos (Host.randomPos h + 2 * length (particles s)) h in
        let h2 := Host.paint
                    (Host.ClearRect wd ht :: map arc ps
                       ++ connections touch (connectionDistance s) ps) h1 in
        let (id, h3) := Host.requestAnimationFrame Host.ParticlesLoop h2 in
        Ok tt (h3, set_raf (Some id) (set_particles ps s))
    end.

Definition start : M St unit := fun '(h, s) =>
  if running s then Ok tt (h, s)
  else loop (h, set_running true s).

Definition stop : M St unit := fun '(h, s) =>
  let s1 := set_running false s in
  match raf s with
  | Some id => if Nat.eqb id 0 then Ok tt (h, s1)
               else Ok tt (Host.cancelAnimationFrame id h, s1)
  | None => Ok tt (h, s1)
  end.

(** Adaptive particle count based on screen size. *)
Definition adaptive_count (touch : bool) (area : Z) : Z :=
  if touch then Z.min 30 (area / 30000) else Z.min 70 (area / 15000).

Definition init : M St unit := fun '(h, s) =>
  let s1 := set_canvas (Host.canvasEl (Host.env h)) s in
  match canvas s1 with
  | None => Ok tt (h, s1)
  | Some _ =>
      if Host.prefersReducedMotion h then Ok tt (h, s1)
      else
        let s2 := set_ctx (Host.context2d (Host.env h)) s1 in
        (resize ;;
         (fun '(h3, s3) =>
            let area := (Host.innerWidth h3 * Host.innerHeight h3)%Z in
            let count := adaptive_count (Host.isTouchDevice h3) area in
            (spawn count ;; start)
              (h3, add_listeners (Host.isTouchDevice h3) s3))) (h, s2)
  end.

(** The handlers registered by [init]. *)
Definition on_mousemove (clientX clientY : num) : M St unit := fun '(h, s) =>
  Ok tt (h, set_mouse (Point.mk clientX clientY) s).

Definition on_visibilitychange (hidden : bool) : M St unit :=
  if hidden then stop else start.

Definition destroy : M St unit := stop.

End Particles.

(** ** The page: shared loop, initialisation, and the events it reacts to *)

Record Page : Type := mkPage
  { host : Host.t;
    cursor : Cursor.t;
    field : Particles.t;
    rafRunning : bool;
    cursorUpdates : nat }.      (* how many times [tick] called [Cursor.update] *)

Definition with_cursor (f : Cursor.t -> Cursor.t) (pg : Page) : Page :=
  mkPage (host pg) (f (cursor pg)) (field pg) (rafRunning pg) (cursorUpdates pg).

Definition with_host (f : Host.t -> Host.t) (pg : Page) : Page :=
  mkPage (f (host pg)) (cursor pg) (field pg) (rafRunning pg) (cursorUpdates pg).

(** A method of the particle field called from the page: an exception it
    raises is reported by the browser and the page carries on. *)
Definition call (m : M Particles.St unit) (pg : Page) : Page :=
  let st := state_of (m (host pg, field pg)) in
  mkPage (fst st) (cursor pg) (snd st) (rafRunning pg) (cursorUpdates pg).

(** The body of [tick]. *)
Definition tick (pg : Page) : Page :=
  let c := Cursor.update (cursor pg) in
  let (_, h) := Host.requestAnimationFrame Host.SharedTick (host pg) in
  mkPage h c (field pg) (rafRunning pg) (S (cursorUpdates pg)).

Definition startSharedLoop (pg : Page) : Page :=
  if rafRunning pg then pg
  else
    let (_, h) := Host.requestAnimationFrame Host.SharedTick (host pg) in
    mkPage h (cursor pg) (field pg) true (cursorUpdates pg).

(** The [DOMContentLoaded] handler, restricted to the components modelled. *)
Definition onDOMContentLoaded (pg : Page) : Page :=
  if Host.isTouchDevice (host pg) then pg
  else
    let pg1 := with_cursor (Cursor.init (Host.env (host pg))) pg in
    let pg2 := startSharedLoop pg1 in
    call Particles.init pg2.

Definition initialPage (e : Host.Env) (wd ht : Z) : Page :=
  mkPage (Host.initial e wd ht) Cursor.initial Particles.initial false 0.

(** Running one queued animation-frame callback. *)
Definition invoke (cb : Host.Callback) (pg : Page) : Page :=
  match cb with
  | Host.SharedTick => tick pg
  | Host.ParticlesLoop => call Particles.loop pg
  | Host.Foreign => pg
  end.

(** One display frame: the callbacks pending when the frame begins are run in
    order, each unless it was cancelled in the meantime; callbacks requested
    during the frame wait for the next one. *)
Fixpoint run_callbacks (ids : list nat) (pg : Page) : Page :=
  match ids with
  | [] => pg
  | id :: tl =>
      match Host.lookup id (Host.rafQueue (host pg)) with
      | None => run_callbacks tl pg
      | Some cb => run_callbacks tl (invoke cb (with_host (Host.cancelAnimationFrame id) pg))
      end
  end.

Definition frame (pg : Page) : Page :=
  run_callbacks (map fst (Host.rafQueue (host pg))) pg.

Inductive Event : Type :=
| DOMContentLoaded
| Frame
| Resize (wd ht : Z)
| MouseMove (clientX clientY : R)
| MouseOver (interactive : bool)
| MouseOut (interactive : bool)
| Scroll
| ScrollQuiet (hit : bool)
| VisibilityChange (hidden : bool)
| ForeignRequest                     (* another effect requests a frame *)
| CallStartSharedLoop                (* direct calls, as a test would make them *)
| CallStart
| CallStop.

Definition dispatch (ev : Event) (pg : Page) : Page :=
  match ev with
  | DOMContentLoaded => onDOMContentLoaded pg
  | Frame => frame pg
  | Resize wd ht =>
      Nat.iter (Particles.resizeListeners (field pg)) (call Particles.resize)
        (with_host (Host.set_window wd ht) pg)
  | MouseMove cx cy =>
      Nat.iter (Particles.mouseListeners (field pg))
        (call (Particles.on_mousemove (Num cx) (Num cy)))
        (Nat.iter (Cursor.listeners (cursor pg))
           (with_cursor (Cursor.on_mousemove (Num cx) (Num cy))) pg)
  | MouseOver b =>
      Nat.iter (Cursor.listeners (cursor pg)) (with_cursor (Cursor.on_mouseover b)) pg
  | MouseOut b =>
      Nat.iter (Cursor.listeners (cursor pg)) (with_cursor (Cursor.on_mouseout b)) pg
  | Scroll =>
      Nat.iter (Cursor.listeners (cursor pg)) (with_cursor Cursor.on_scroll) pg
  | ScrollQuiet hit => with_cursor (Cursor.on_scroll_quiet hit) pg
  | VisibilityChange hidden =>
      Nat.iter (Particles.visibilityListeners (field pg))
        (call (Particles.on_visibilitychange hidden)) pg
  | ForeignRequest =>
      with_host (fun h => snd (Host.requestAnimationFrame Host.Foreign h)) pg
  | CallStartSharedLoop => startSharedLoop pg
  | CallStart => call Particles.start pg
  | CallStop => call Particles.stop pg
  end.

Definition run (evs : list Event) (pg : Page) : Page :=
  fold_left (fun p ev => dispatch ev p) evs pg.

(** ** The earlier variant of the particle step (src/main.js)

    It repels on every device, compares the distance itself with the radius,
    and uses other tuning constants; the wrap is the same. *)

Module Legacy.

Import Particle.

Definition repel (mouse : Point.t) (p : t) : t :=
  let dx := (x p - Point.x mouse)%js in
  let dy := (y p - Point.y mouse)%js in
  let dist := JsNum.sqrt (dx * dx + dy * dy)%js in
  if (dist <? 120)%js then
    let force := ((120 - dist) / 120)%js in
    let p1 := set_vx p (vx p + (dx / dist) * force * 0.15)%js in
    set_vy p1 (vy p1 + (dy / dist) * force * 0.15)%js
  else p.

Definition damp (p : t) : t :=
  let p1 := set_vx p (vx p * 0.98)%js in
  set_vy p1 (vy p1 * 0.98)%js.

Definition drift (r1 r2 : num) (p : t) : t :=
  let p1 := set_vx p (vx p + (r1 - 0.5) * 0.01)%js in
  set_vy p1 (vy p1 + (r2 - 0.5) * 0.01)%js.

Definition step (mouse : Point.t) (width height : num) (r1 r2 : num) (p : t) : t :=
  Step.wrap width height (Step.integrate (drift r1 r2 (damp (repel mouse p)))).

End Legacy.

(** ** The remaining utility *)

(** [Math.max] and [Math.min] of two numbers: [NaN] as soon as one is. *)
Definition js_max (a b : num) : num :=
  match a, b with
  | Num u, Num v => Num (Rmax u v)
  | _, _ => NaN
  end.

Definition js_min (a b : num) : num :=
  match a, b with
  | Num u, Num v => Num (Rmin u v)
  | _, _ => NaN
  end.

Definition clamp (val min max : num) : num := js_min (js_max val min) max.

(** ** Predicates used in the statements *)

Definition finite_particle (p : Particle.t) : Prop :=
  JsNum.finite (Particle.x p) /\ JsNum.finite (Particle.y p) /\
  JsNum.finite (Particle.vx p) /\ JsNum.finite (Particle.vy p).

(** The particle is not exactly at the pointer. *)
Definition clear_of (m : Point.t) (p : Particle.t) : Prop :=
  ~ (Particle.x p = Point.x m /\ Particle.y p = Point.y m).

(** The position is a pair of finite numbers in the closed rectangle. *)
Definition inside_closed (wd ht : R) (p : Particle.t) : Prop :=
  exists a b, Particle.x p = Num a /\ Particle.y p = Num b /\
              0 <= a <= wd /\ 0 <= b <= ht.


Ltac destruct_finite p :=
  let a := fresh "px" in let b := fresh "py" in
  let c := fresh "pvx" in let d := fresh "pvy" in
  let r := fresh "prad" in let al := fresh "palpha" in
  destruct p as [a b c d r al];
  unfold finite_particle in *; cbn [Particle.x Particle.y Particle.vx Particle.vy] in *;
  destruct a, b, c, d; cbn [JsNum.finite] in *; try tauto.

(** The real number a finite [num] stands for. *)
Definition val (a : num) : R :=
  match a with Num r => r | NaN => 0 end.

Definition norm2 (u v : R) : R := sqrt (u * u + v * v).


(** Velocity magnitude of a particle. *)
Definition speed (p : Particle.t) : R :=
  norm2 (val (Particle.vx p)) (val (Particle.vy p)).

Definition is_mousemove (ev : Event) : bool :=
  match ev with MouseMove _ _ => true | _ => false end.

(** How many entries of a queue carry the callback [cb]. *)
Definition count (cb : Host.Callback) (q : list (nat * Host.Callback)) : nat :=
  length (filter (fun e => Host.Callback_eqb (snd e) cb) q).

(** The queue without the entry of handle [id]. *)
Definition remove (id : nat) (q : list (nat * Host.Callback)) : list (nat * Host.Callback) :=
  filter (fun e => negb (Nat.eqb (fst e) id)) q.

(** Handles are distinct, start at 1 and lie below the next one. *)
Definition handles_ok (h : Host.t) : Prop :=
  NoDup (map fst (Host.rafQueue h)) /\
  (1 <= Host.rafNext h)%nat /\
  Forall (fun e => (1 <= fst e < Host.rafNext h)%nat) (Host.rafQueue h).

(** The shared loop has one pending [tick] when it runs and none before. *)
Definition shared_ok (pg : Page) : Prop :=
  Host.pending Host.SharedTick (host pg) = if rafRunning pg then 1%nat else 0%nat.

(** A pending loop callback of the field is the one whose handle [raf]
    holds, and the field is then running; the handle in [raf] never names
    somebody else's callback; a context implies a canvas element. *)
Definition field_ok (pg : Page) : Prop :=
  (forall id, In (id, Host.ParticlesLoop) (Host.rafQueue (host pg)) ->
     Particles.running (field pg) = true /\ Particles.raf (field pg) = Some id) /\
  (forall id, Particles.raf (field pg) = Some id ->
     (id < Host.rafNext (host pg))%nat /\
     forall cb, In (id, cb) (Host.rafQueue (host pg)) -> cb = Host.ParticlesLoop) /\
  (Particles.ctx (field pg) = true ->
     Particles.canvas (field pg) <> None /\
     Host.canvasEl (Host.env (host pg)) <> None).

Definition wf (pg : Page) : Prop :=
  handles_ok (host pg) /\ shared_ok pg /\ field_ok pg.

(** Among the handles [ids], how many name a pending [tick] in [q]. *)
Definition hits (ids : list nat) (q : list (nat * Host.Callback)) : nat :=
  length (filter (fun id => match Host.lookup id q with
                            | Some Host.SharedTick => true
                            | _ => false
                            end) ids).

Definition is_load (ev : Event) : bool :=
  match ev with DOMContentLoaded => true | _ => false end.

(** The follower listens and has not received a sample yet. *)
Definition awaiting_sample (c : Cursor.t) : Prop :=
  Cursor.hasMoved c = false /\ (1 <= Cursor.listeners c)%nat.

(** One particle over the frames: its state after [n] runs of the loop body,
    [r1 k] and [r2 k] being its two drift draws in frame [k]. *)
Fixpoint after (touch : bool) (m : Point.t) (wd ht : num) (r1 r2 : nat -> R)
    (n : nat) (p : Particle.t) : Particle.t :=
  match n with
  | O => p
  | S k => Step.step touch m wd ht (Num (r1 k)) (Num (r2 k)) (after touch m wd ht r1 r2 k p)
  end.

(** The pointer does not repel the particle: the device is a touch device,
    or the particle is at distance 120 or more. *)
Definition unrepelled (touch : bool) (mx my : R) (p : Particle.t) : Prop :=
  touch = true \/
  14400 <= (val (Particle.x p) - mx) * (val (Particle.x p) - mx)
           + (val (Particle.y p) - my) * (val (Particle.y p) - my).

(** The state of a page whose rendering surface is missing: no context was
    obtained, nothing was painted, no loop callback is pending and no handle
    is stored; without a canvas element the object is as it was created. *)
Definition inert (pg : Page) : Prop :=
  (Host.canvasEl (Host.env (host pg)) = None \/
   Host.context2d (Host.env (host pg)) = false) /\
  Particles.ctx (field pg) = false /\
  Particles.raf (field pg) = None /\
  Host.drawn (host pg) = [] /\
  count Host.ParticlesLoop (Host.rafQueue (host pg)) = 0%nat /\
  (Host.canvasEl (Host.env (host pg)) = None ->
   Particles.canvas (field pg) = None /\ Particles.particles (field pg) = [] /\
   Particles.resizeListeners (field pg) = 0%nat /\
   Particles.mouseListeners (field pg) = 0%nat /\
   Particles.visibilityListeners (field pg) = 0%nat).

(** The bounds of a freshly spawned particle on canvas [c]. *)
Definition fresh_in_bounds (c : Host.Canvas) (p : Particle.t) : Prop :=
  exists a b u v r al : R,
    p = Particle.mk (Num a) (Num b) (Num u) (Num v) (Num r) (Num al) /\
    0 <= a < IZR (Host.width c) /\ 0 <= b < IZR (Host.height c) /\
    -0.125 <= u < 0.125 /\ -0.125 <= v < 0.125 /\
    0.4 <= r < 2.2 /\ 0.08 <= al < 0.43.

(** ** Sample pages and objects *)

(** A desktop page whose window gives room for exactly one particle. *)
Definition small_window_env : Host.Env :=
  Host.mkEnv false false true true (Some (Host.mkCanvas 300 150)) true (fun _ => 0.9).

Definition loaded_page : Page := run [DOMContentLoaded] (initialPage small_window_env 150 100).


Definition moving_particle : Particle.t := Particle.mk 10 10 1 (-2) 1 0.2.


(** A desktop page with a canvas whose 2D context cannot be obtained, and one
    without the canvas element. *)
Definition env_no_context : Host.Env :=
  Host.mkEnv false false true true (Some (Host.mkCanvas 300 150)) false (fun _ => 0.9).

Definition env_no_canvas : Host.Env :=
  Host.mkEnv false false true true None false (fun _ => 0.9).

Definition sized_field : Particles.t :=
  Particles.set_canvas (Some (Host.mkCanvas 150 100)) Particles.initial.

(** A desktop page with everything in place, and a live field with one
    particle about to leave through the left edge. *)
Definition desktop_env : Host.Env :=
  Host.mkEnv false false true true (Some (Host.mkCanvas 800 600)) true (fun _ => 0.5).

Definition live_field : Particles.t :=
  Particles.mk (Some (Host.mkCanvas 800 600)) true [Particle.mk 0 50 (-1) 0 1 0.2]
    (Point.mk (-9999) (-9999)) None true 100 1 1 1.

(** Both velocity components are finite and at most [B] in magnitude. *)
Definition slow (B : R) (p : Particle.t) : Prop :=
  exists u v, Particle.vx p = Num u /\ Particle.vy p = Num v /\
              - B <= u <= B /\ - B <= v <= B.

(** Events that (re)start the particle loop. *)
Definition is_waking (ev : Event) : bool :=
  match ev with
  | DOMContentLoaded | VisibilityChange false | CallStart => true
  | _ => false
  end.

(** The field is stopped with nothing queued, and holds the particles [ps]
    under the painting [d]. *)
Definition paused (ps : list Particle.t) (d : list Host.DrawCmd) (pg : Page) : Prop :=
  Particles.running (field pg) = false /\
  count Host.ParticlesLoop (Host.rafQueue (host pg)) = 0%nat /\
  Particles.particles (field pg) = ps /\
  Host.drawn (host pg) = d.

Definition is_scroll_quiet (ev : Event) : bool :=
  match ev with ScrollQuiet _ => true | _ => false end.

(** A scroll is in progress: the flag is up, the timeout is armed, and the
    hover state is [hv]. *)
Definition mid_scroll (hv : bool) (c : Cursor.t) : Prop :=
  Cursor.scrolling c = true /\ Cursor.scrollTimer c = true /\ Cursor.hovering c = hv.

Definition is_direct_call (ev : Event) : bool :=
  match ev with CallStartSharedLoop | CallStart | CallStop => true | _ => false end.

(** Nothing of the heavy effects has started. *)
Definition untouched (pg : Page) : Prop :=
  cursor pg = Cursor.initial /\ field pg = Particles.initial /\
  rafRunning pg = false /\ cursorUpdates pg = 0%nat /\
  Host.drawn (host pg) = [] /\
  count Host.SharedTick (Host.rafQueue (host pg)) = 0%nat /\
  count Host.ParticlesLoop (Host.rafQueue (host pg)) = 0%nat /\
  Host.isTouchDevice (host pg) = true.

Definition touch_env : Host.Env :=
  Host.mkEnv true false true true (Some (Host.mkCanvas 300 150)) true (fun _ => 0.5).

(** ** Further number operations *)

(** [Math.abs] *)
Definition js_abs (a : num) : num :=
  match a with Num u => Num (Rabs u) | NaN => NaN end.

(** [Math.pow(2, a)] *)
Definition js_pow2 (a : num) : num :=
  match a with Num u => Num (Rpower 2 u) | NaN => NaN end.

(** [a === b] on numbers: false as soon as one side is [NaN]. *)
Definition js_eq (a b : num) : bool :=
  match a, b with
  | Num u, Num v => if Req_dec_T u v then true else false
  | _, _ => false
  end.

(** [Math.round]: the nearest integer, halves upwards. *)
Definition js_round (a : num) : num :=
  match a with Num u => Num (IZR (Zfloor (u + / 2))) | NaN => NaN end.

(** [a || d] on numbers: [d] when [a] is falsy, that is [0] or [NaN]. *)
Definition js_or (a d : num) : num :=
  match a with
  | Num u => if Req_dec_T u 0 then d else a
  | NaN => d
  end.

(** What [getBoundingClientRect] returns, as far as it is read. *)
Module Rect.
Record t : Type := mk { left : num; top : num; width : num; height : num }.
End Rect.

(** ** Header behaviour *)

Module Header.

(** The two classes the script puts on the header element. *)
Record El : Type := mkEl { scrolled : bool; headerHidden : bool }.

Record t : Type := mk
  { el : option El;
    lastScroll : num;
    listeners : nat }.           (* [scroll] listeners registered by [init] *)

Definition initial : t := mk None 0 0.

Definition scrollThreshold : num := 80.
Definition delta : num := 5.

(** [onScroll], with [scrollY] the value of [window.scrollY]. *)
Definition onScroll (scrollY : num) : M t unit := fun s =>
  match el s with
  | None => Throw s                       (* [classList] of null *)
  | Some e =>
      (* Shrink state *)
      let e1 := mkEl (scrollY >? scrollThreshold)%js (headerHidden e) in
      (* Show / hide based on direction *)
      if (js_abs (scrollY - lastScroll s) <? delta)%js
      then Ok tt (mk (Some e1) (lastScroll s) (listeners s))
      else
        let e2 := mkEl (scrolled e1)
                       ((scrollY >? lastScroll s)%js && (scrollY >? scrollThreshold)%js) in
        Ok tt (mk (Some e2) scrollY (listeners s))
  end.

(** [init], with [found] the result of [querySelector('.header')]. *)
Definition init (found : option El) (scrollY : num) : M t unit := fun s =>
  match found with
  | None => Ok tt (mk None (lastScroll s) (listeners s))
  | Some _ => onScroll scrollY (mk found (lastScroll s) (S (listeners s)))
  end.

(** A [scroll] event at position [scrollY]. *)
Definition scroll (s : t) (scrollY : R) : t :=
  Nat.iter (listeners s) (fun s' => state_of (onScroll (Num scrollY) s')) s.

(** The page is loaded at position [y0] and then scrolled through [ys]. *)
Definition run (found : option El) (y0 : R) (ys : list R) : t :=
  fold_left scroll ys (state_of (init found (Num y0) initial)).

End Header.

(** ** Counter animation *)

Module Counters.

Definition duration : num := 2000.

Definition easeOutExpo (t : num) : num :=
  if js_eq t 1 then Num 1 else (1 - js_pow2 (Num (-10) * t))%js.

(** What is written to the element, before the suffix: a number printed with
    [toFixed(decimals)], or one printed with [toLocaleString()]. *)
Inductive Text : Type :=
| Fixed (v : num) (decimals : Z)
| Locale (v : num).

(** The body of [tick]: the text written and whether another frame is
    requested.  [start] is the time read when [animate] was called, [now] the
    timestamp passed to the callback. *)
Definition tick (start target : num) (decimals : Z) (now : num) : Text * bool :=
  let elapsed := (now - start)%js in
  let progress := js_min (elapsed / duration)%js 1 in
  let eased := easeOutExpo progress in
  let current := (eased * target)%js in
  (if (0 <? decimals)%Z then Fixed current decimals else Locale (js_round current),
   (progress <? 1)%js).




End Counters.

(** ** Magnetic hover *)

Module Magnetic.

Definition radius : num := 150.

(** [onMove]: the translation written to the element, if one is written. *)
Definition onMove (clientX clientY : num) (rect : Rect.t) : option (num * num) :=
  let cx := (Rect.left rect + Rect.width rect / 2)%js in
  let cy := (Rect.top rect + Rect.height rect / 2)%js in
  let dx := (clientX - cx)%js in
  let dy := (clientY - cy)%js in
  let dist := JsNum.sqrt (dx * dx + dy * dy)%js in
  if (dist <? radius)%js then
    let pull := (1 - dist / radius)%js in
    let moveX := (dx * pull * 0.35)%js in
    let moveY := (dy * pull * 0.35)%js in
    Some (moveX, moveY)
  else None.

(** [onLeave] *)
Definition onLeave : num * num := (Num 0, Num 0).

(** The element's translation after a pointer event: [Some (x, y)] for a
    move at that position, [None] for leaving the element. *)
Definition handle (tr : num * num) (rect : Rect.t) (ev : option (R * R)) : num * num :=
  match ev with
  | Some (x, y) =>
      match onMove (Num x) (Num y) rect with
      | Some m => m
      | None => tr
      end
  | None => onLeave
  end.

End Magnetic.

(** ** Tilt cards *)

Module TiltCards.

Definition maxRotation : num := 8.

Record Tilt : Type := mkTilt
  { rotateX : num; rotateY : num;       (* degrees *)
    shineX : num; shineY : num }.       (* per cent *)

Definition onMove (clientX clientY : num) (rect : Rect.t) : Tilt :=
  let x := ((clientX - Rect.left rect) / Rect.width rect)%js in
  let y := ((clientY - Rect.top rect) / Rect.height rect)%js in
  let rotateY := ((x - 0.5) * maxRotation * 2)%js in
  let rotateX := ((0.5 - y) * maxRotation * 2)%js in
  mkTilt rotateX rotateY (x * 100)%js (y * 100)%js.

End TiltCards.

(** ** Parallax *)

Module Parallax.

(** The offset [update] gives one element: [parsed] is the result of
    [parseFloat(el.dataset.parallax)], [rect] its bounding rectangle. *)
Definition offset (parsed : num) (rect : Rect.t) (innerHeight : num) : num :=
  let rate := js_or parsed 0.1 in
  let center := (Rect.top rect + Rect.height rect / 2)%js in
  let viewCenter := (innerHeight / 2)%js in
  ((center - viewCenter) * rate)%js.

Record t : Type := mk
  { elements : nat;              (* how many elements carry [data-parallax] *)
    ticking : bool;
    queued : nat;                (* update callbacks waiting for the next frame *)
    updates : nat;               (* how many times [update] has run *)
    listeners : nat }.

Definition initial : t := mk 0 false 0 0 0.

Definition update (s : t) : t :=
  mk (elements s) false (queued s) (S (updates s)) (listeners s).

(** The [scroll] listener. *)
Definition on_scroll (s : t) : t :=
  if negb (ticking s) then mk (elements s) true (S (queued s)) (updates s) (listeners s)
  else s.

Definition init (found : nat) (reduced : bool) (s : t) : t :=
  let s1 := mk found (ticking s) (queued s) (updates s) (listeners s) in
  if (found =? 0)%nat || reduced then s1
  else update (mk (elements s1) (ticking s1) (queued s1) (updates s1) (S (listeners s1))).

Inductive Event : Type := Scroll | Frame.

(** A display frame runs the callbacks that were queued before it. *)
Definition dispatch (s : t) (ev : Event) : t :=
  match ev with
  | Scroll => Nat.iter (listeners s) on_scroll s
  | Frame =>
      Nat.iter (queued s) update
        (mk (elements s) (ticking s) 0 (updates s) (listeners s))
  end.

Definition run (evs : list Event) (s : t) : t := fold_left dispatch evs s.

Definition is_frame (ev : Event) : bool :=
  match ev with Frame => true | Scroll => false end.

End Parallax.

(** ** Text split *)

Module SplitText.

(** Text is a list of code points, as [[...text]] iterates it. *)
Definition space : N := 32%N.
Definition nbsp : N := 160%N.          (* U+00A0 *)

Record Span : Type := mkSpan { transitionDelay : num; textContent : N }.

Record El : Type := mkEl
  { ariaLabel : option (list N);
    children : list Span }.

Fixpoint spans_from (i : nat) (text : list N) : list Span :=
  match text with
  | [] => []
  | char :: tl =>
      mkSpan (Num (INR i) * 0.03)%js (if N.eqb char space then nbsp else char)
        :: spans_from (S i) tl
  end.

(** What [init] does to one target whose [textContent] is [text]. *)
Definition split (text : list N) : El := mkEl (Some text) (spans_from 0 text).

(** The [textContent] of the element: that of its children, in order. *)
Definition content (e : El) : list N := map textContent (children e).

End SplitText.

(** The header tracks position [y]: its shrink class says whether [y] is past
    the threshold, the remembered position is within [delta] of [y], and the
    header is hidden only if the remembered position is past the threshold. *)
Definition header_tracks (y : R) (s : Header.t) : Prop :=
  exists (e : Header.El) (l : R),
    Header.el s = Some e /\ Header.lastScroll s = Num l /\ Header.listeners s = 1%nat
    /\ (Header.scrolled e = true <-> 80 < y)
    /\ Rabs (y - l) < 5
    /\ (Header.headerHidden e = true -> 80 < l).

Definition plain_header : Header.El := Header.mkEl false false.

(** The number [easeOutExpo] yields on a finite argument. *)
Definition eased (p : R) : R :=
  if Req_dec_T p 1 then 1 else 1 - Rpower 2 (-10 * p).


(** A translation of finite components whose length is at most [B]. *)
Definition within (B : R) (tr : num * num) : Prop :=
  exists a b : R, tr = (Num a, Num b) /\ a * a + b * b <= B * B.

(** The translation of a magnetic element after a series of pointer events,
    each with the bounding rectangle read at that time; the element starts
    untranslated. *)
Definition magnetic_run (evs : list (Rect.t * option (R * R))) : num * num :=
  fold_left (fun tr ev => Magnetic.handle tr (fst ev) (snd ev)) evs (Num 0, Num 0).

(** The parallax throttle is consistent: one listener, at most one update
    queued, and the flag is up exactly when one is. *)
Definition throttled (s : Parallax.t) : Prop :=
  Parallax.listeners s = 1%nat /\ (Parallax.queued s <= 1)%nat /\
  (Parallax.ticking s = true <-> Parallax.queued s = 1%nat).

(** Reading a split text back: no-break spaces become spaces. *)
Definition restore (c : N) : N :=
  if N.eqb c SplitText.nbsp then SplitText.space else c.

Definition finite_rect (l t w h : R) : Rect.t := Rect.mk (Num l) (Num t) (Num w) (Num h).

(** * Properties *)

(** ** Numbers *)

Lemma lt_Num (u v : R) : JsNum.lt (Num u) (Num v) = true <-> u < v.
Proof.
  unfold JsNum.lt. destruct (Rlt_dec u v); split; intros; try easy; contradiction.
Qed.

Lemma lt_Num_false (u v : R) : JsNum.lt (Num u) (Num v) = false <-> v <= u.
Proof.
  unfold JsNum.lt. destruct (Rlt_dec u v); split; intros; try easy; lra.
Qed.

Lemma sqrt_Num (u : R) : 0 <= u -> JsNum.sqrt (Num u) = Num (sqrt u).
Proof.
  intros H. unfold JsNum.sqrt. destruct (Rlt_dec u 0); [lra | reflexivity].
Qed.

Lemma div_Num (u v : R) : v <> 0 -> JsNum.div (Num u) (Num v) = Num (u / v).
Proof.
  intros H. unfold JsNum.div. destruct (Req_dec_T v 0); [contradiction | reflexivity].
Qed.

Lemma div_zero (u : R) : JsNum.div (Num u) (Num 0) = NaN.
Proof.
  unfold JsNum.div. destruct (Req_dec_T 0 0); [reflexivity | contradiction].
Qed.

Lemma sum_sq_zero (a b : R) : a * a + b * b = 0 -> a = 0 /\ b = 0.
Proof. intros H. split; nra. Qed.

(** Once a number is [NaN], adding to it or scaling it never repairs it. *)
Lemma NaN_add (b : num) : (NaN + b)%js = NaN.
Proof. reflexivity. Qed.

Lemma add_NaN (a : num) : (a + NaN)%js = NaN.
Proof. destruct a; reflexivity. Qed.

Lemma NaN_mul (b : num) : (NaN * b)%js = NaN.
Proof. reflexivity. Qed.

(** ** The particle step *)

Lemma wrap1_Num (v d : R) :
  Step.wrap1 (Num v) (Num d) =
  Num (if Rlt_dec v 0 then d else if Rlt_dec d v then 0 else v).
Proof.
  unfold Step.wrap1, JsNum.gt, JsNum.lt.
  destruct (Rlt_dec v 0).
  - destruct (Rlt_dec d d); [lra | reflexivity].
  - destruct (Rlt_dec d v); reflexivity.
Qed.

Lemma wrap1_closed (v d : R) :
  0 <= d -> exists r, Step.wrap1 (Num v) (Num d) = Num r /\ 0 <= r <= d.
Proof.
  intros Hd. rewrite wrap1_Num. eexists; split; [reflexivity|].
  destruct (Rlt_dec v 0); [lra|]. destruct (Rlt_dec d v); lra.
Qed.

Lemma wrap1_NaN (d : num) : Step.wrap1 NaN d = NaN.
Proof. unfold Step.wrap1, JsNum.gt. cbn. destruct d; reflexivity. Qed.

Lemma repel_touch (m : Point.t) (p : Particle.t) : Step.repel true m p = p.
Proof. reflexivity. Qed.

(** Outside the radius the repulsion leaves the particle alone. *)
Lemma repel_far (touch : bool) (mx my a b : R) (c d r al : num) :
  14400 <= (a - mx) * (a - mx) + (b - my) * (b - my) ->
  Step.repel touch (Point.mk mx my) (Particle.mk a b c d r al) = Particle.mk a b c d r al.
Proof.
  intros H. unfold Step.repel. destruct touch; [reflexivity|].
  cbn [negb Particle.x Particle.y Point.x Point.y JsNum.sub JsNum.mul JsNum.add JsNum.lift2].
  apply lt_Num_false in H. rewrite H. reflexivity.
Qed.

(** Within the radius and off the pointer, the force is the finite one of
    the formula. *)
Lemma repel_near (mx my a b c d : R) (r al : num) :
  let dx := a - mx in let dy := b - my in
  let dist := sqrt (dx * dx + dy * dy) in
  dx * dx + dy * dy < 14400 ->
  ~ (a = mx /\ b = my) ->
  Step.repel false (Point.mk mx my) (Particle.mk a b c d r al) =
  Particle.mk a b (Num (c + dx / dist * ((120 - dist) / 120) * 0.12))
                  (Num (d + dy / dist * ((120 - dist) / 120) * 0.12)) r al.
Proof.
  intros dx dy dist Hlt Hne. unfold Step.repel.
  cbn [negb Particle.x Particle.y Point.x Point.y JsNum.sub JsNum.mul JsNum.add JsNum.lift2].
  fold dx dy. apply lt_Num in Hlt. rewrite Hlt.
  assert (Hsq : 0 <= dx * dx + dy * dy) by nra.
  rewrite (sqrt_Num _ Hsq). fold dist.
  assert (Hd : dist <> 0).
  { intros H0. unfold dist in H0. apply sqrt_eq_0 in H0; [|exact Hsq].
    apply sum_sq_zero in H0. apply Hne. unfold dx, dy in H0. split; lra. }
  cbn [Particle.set_vx Particle.set_vy Particle.vx Particle.vy Particle.x Particle.y
       Particle.radius Particle.alpha JsNum.sub JsNum.lift2].
  rewrite !(div_Num _ dist Hd).
  assert (H120 : (120 : R) <> 0) by lra.
  rewrite (div_Num _ 120 H120). reflexivity.
Qed.

(** Off the pointer, the repulsion keeps the position and yields finite
    velocities. *)
Lemma repel_finite (touch : bool) (m : Point.t) (a b c d : R) (r al : num) :
  touch = true \/ clear_of m (Particle.mk a b c d r al) ->
  exists c' d',
    Step.repel touch m (Particle.mk a b c d r al) = Particle.mk a b (Num c') (Num d') r al.
Proof.
  intros H. destruct touch.
  - exists c, d. reflexivity.
  - destruct H as [H | H]; [discriminate|].
    destruct m as [[mx|] [my|]].
    + destruct (Rlt_dec ((a - mx) * (a - mx) + (b - my) * (b - my)) 14400) as [Hlt | Hge].
      * eexists; eexists. apply repel_near; [exact Hlt|].
        intros [-> ->]. apply H. split; reflexivity.
      * exists c, d. apply repel_far. lra.
    + exists c, d. reflexivity.
    + exists c, d. reflexivity.
    + exists c, d. reflexivity.
Qed.

Lemma tail_Num (wd ht r1 r2 a b c d : R) (r al : num) :
  Step.wrap wd ht (Step.integrate (Step.drift r1 r2 (Step.damp (Particle.mk a b c d r al)))) =
  Particle.mk (Step.wrap1 (Num (a + (c * 0.985 + (r1 - 0.5) * 0.008))) wd)
              (Step.wrap1 (Num (b + (d * 0.985 + (r2 - 0.5) * 0.008))) ht)
              (Num (c * 0.985 + (r1 - 0.5) * 0.008))
              (Num (d * 0.985 + (r2 - 0.5) * 0.008)) r al.
Proof. reflexivity. Qed.


(** The closed rectangle is what one step establishes. *)
Lemma step_closed (touch : bool) (m : Point.t) (wd ht r1 r2 : R) (p : Particle.t) :
  0 <= wd -> 0 <= ht -> finite_particle p ->
  touch = true \/ clear_of m p ->
  inside_closed wd ht (Step.step touch m wd ht r1 r2 p) /\
  finite_particle (Step.step touch m wd ht r1 r2 p).
Proof.
  intros Hw Hh Hf Hc. destruct_finite p.
  destruct (repel_finite touch m _ _ _ _ prad palpha Hc) as (c' & d' & E).
  unfold Step.step. rewrite E, tail_Num.
  destruct (wrap1_closed (r + (c' * 0.985 + (r1 - 0.5) * 0.008)) wd Hw) as (u & Eu & Hu).
  destruct (wrap1_closed (r0 + (d' * 0.985 + (r2 - 0.5) * 0.008)) ht Hh) as (v & Ev & Hv).
  rewrite Eu, Ev. split.
  - exists u, v. cbn. tauto.
  - unfold finite_particle. cbn. tauto.
Qed.



Lemma step_all_length (touch : bool) (m : Point.t) (wd ht : num) (r : nat -> R)
    (k : nat) (ps : list Particle.t) :
  length (Particles.step_all touch m wd ht r k ps) = length ps.
Proof.
  revert k. induction ps as [|p tl IH]; intros k; cbn; [reflexivity|].
  now rewrite IH.
Qed.


(** What one run of [loop] does to the collection when the field is live. *)
Lemma loop_particles (h : Host.t) (s : Particles.t) (c : Host.Canvas) :
  Particles.running s = true -> Particles.ctx s = true ->
  Particles.canvas s = Some c ->
  Particles.particles (snd (state_of (Particles.loop (h, s)))) =
  Particles.step_all (Host.isTouchDevice h) (Particles.mouse s)
    (Num (IZR (Host.width c))) (Num (IZR (Host.height c)))
    (Host.random (Host.env h)) (Host.randomPos h) (Particles.particles s).
Proof.
  intros Hr Hx Hc. unfold Particles.loop. rewrite Hr, Hx, Hc. reflexivity.
Qed.

(** ** Wraparound *)




(** ** The zero-distance case of the repulsion *)

Lemma repel_at_pointer (a b c d : R) (r al : num) :
  Step.repel false (Point.mk a b) (Particle.mk a b c d r al) =
  Particle.mk a b NaN NaN r al.
Proof.
  unfold Step.repel.
  cbn [negb Particle.x Particle.y Point.x Point.y JsNum.sub JsNum.mul JsNum.add JsNum.lift2].
  replace ((a - a) * (a - a) + (b - b) * (b - b)) with 0 by ring.
  assert (H : JsNum.lt (Num 0) (Num 14400) = true) by (apply lt_Num; lra).
  rewrite H. rewrite (sqrt_Num 0) by lra. rewrite sqrt_0, !div_zero.
  reflexivity.
Qed.

Lemma legacy_repel_at_pointer (a b c d : R) (r al : num) :
  Legacy.repel (Point.mk a b) (Particle.mk a b c d r al) =
  Particle.mk a b NaN NaN r al.
Proof.
  unfold Legacy.repel.
  cbn [negb Particle.x Particle.y Point.x Point.y JsNum.sub JsNum.mul JsNum.add JsNum.lift2].
  replace ((a - a) * (a - a) + (b - b) * (b - b)) with 0 by ring.
  rewrite (sqrt_Num 0) by lra. rewrite sqrt_0.
  assert (H : JsNum.lt (Num 0) (Num 120) = true) by (apply lt_Num; lra).
  rewrite H, !div_zero. reflexivity.
Qed.

Lemma tail_NaN (wd ht r1 r2 x0 y0 r al : num) :
  Step.wrap wd ht
    (Step.integrate (Step.drift r1 r2 (Step.damp (Particle.mk x0 y0 NaN NaN r al)))) =
  Particle.mk NaN NaN NaN NaN r al.
Proof.
  unfold Step.wrap, Step.integrate, Step.drift, Step.damp.
  cbn [Particle.x Particle.y Particle.vx Particle.vy Particle.radius Particle.alpha
       Particle.set_x Particle.set_y Particle.set_vx Particle.set_vy].
  rewrite !NaN_mul, !NaN_add, !add_NaN, !wrap1_NaN. reflexivity.
Qed.

Lemma repel_lost (touch : bool) (m : Point.t) (r al : num) :
  Step.repel touch m (Particle.mk NaN NaN NaN NaN r al) = Particle.mk NaN NaN NaN NaN r al.
Proof. destruct touch; reflexivity. Qed.

(** C2: the code has no guard.  A particle exactly at the pointer (any finite
    position, any finite velocity, any canvas, any drift) divides [0] by [0]:
    after the step its velocity and position are [NaN], in the current step
    and in the earlier variant alike, and no later step brings it back. *)
Theorem repulsion_at_pointer_yields_NaN :
  forall (a b c d wd ht r1 r2 : R) (r al : num),
    Step.step false (Point.mk a b) wd ht r1 r2 (Particle.mk a b c d r al)
      = Particle.mk NaN NaN NaN NaN r al
    /\ Legacy.step (Point.mk a b) wd ht r1 r2 (Particle.mk a b c d r al)
      = Particle.mk NaN NaN NaN NaN r al
    /\ (forall (touch : bool) (m : Point.t) (wd' ht' r1' r2' : num),
          Step.step touch m wd' ht' r1' r2' (Particle.mk NaN NaN NaN NaN r al)
          = Particle.mk NaN NaN NaN NaN r al).
Proof.
  intros. split; [|split].
  - unfold Step.step. rewrite repel_at_pointer. apply tail_NaN.
  - unfold Legacy.step. rewrite legacy_repel_at_pointer.
    unfold Step.wrap, Step.integrate, Legacy.drift, Legacy.damp.
    cbn [Particle.x Particle.y Particle.vx Particle.vy Particle.radius Particle.alpha
         Particle.set_x Particle.set_y Particle.set_vx Particle.set_vy].
    rewrite !NaN_mul, !NaN_add, !add_NaN, !wrap1_NaN. reflexivity.
  - intros. unfold Step.step. rewrite repel_lost. apply tail_NaN.
Qed.

(** The failing input of C2: a particle wrapped into the corner [(0, 0)] while
    the pointer is at client position [(0, 0)]. *)
Example repulsion_in_the_corner :
  Step.step false (Point.mk 0 0) 800 600 0.5 0.5 (Particle.mk 0 0 0 0 1 0.2)
  = Particle.mk NaN NaN NaN NaN 1 0.2.
Proof. unfold Step.step. rewrite repel_at_pointer. apply tail_NaN. Qed.

(** ** Norms and geometric sequences *)

Lemma norm2_scale (k u v : R) : 0 <= k -> norm2 (k * u) (k * v) = k * norm2 u v.
Proof.
  intros Hk. unfold norm2.
  replace (k * u * (k * u) + k * v * (k * v)) with (k * k * (u * u + v * v)) by ring.
  rewrite sqrt_mult; [| nra | nra].
  rewrite sqrt_square by exact Hk. reflexivity.
Qed.

Lemma norm2_nonneg (u v : R) : 0 <= norm2 u v.
Proof. unfold norm2. apply sqrt_pos. Qed.

Lemma geometric_small (q d eps : R) :
  0 <= q < 1 -> 0 <= d -> 0 < eps ->
  exists N : nat, forall n : nat, (N <= n)%nat -> q ^ n * d < eps.
Proof.
  intros Hq Hd He.
  assert (Hy : 0 < eps / (d + 1)) by (apply Rdiv_lt_0_compat; lra).
  destruct (pow_lt_1_zero q) with (y := eps / (d + 1)) as [N HN].
  - rewrite Rabs_right; lra.
  - exact Hy.
  - exists N. intros n Hn. specialize (HN n Hn).
    rewrite Rabs_right in HN by (apply Rle_ge, pow_le; lra).
    assert (Hp : 0 <= q ^ n) by (apply pow_le; lra).
    assert (H1 : q ^ n * (d + 1) < eps).
    { apply Rmult_lt_compat_r with (r := d + 1) in HN; [|lra].
      unfold Rdiv in HN. rewrite Rmult_assoc, Rinv_l in HN by lra. lra. }
    nra.
Qed.

Lemma geometric_decreasing (q d : R) (n : nat) :
  0 <= q <= 1 -> 0 <= d -> q ^ S n * d <= q ^ n * d.
Proof.
  intros Hq Hd. cbn [pow].
  assert (Hp : 0 <= q ^ n * d) by (apply Rmult_le_pos; [apply pow_le; lra | exact Hd]).
  rewrite Rmult_assoc. set (e := q ^ n * d) in *. nra.
Qed.

(** ** Pointer follower *)

Lemma on_mousemove_first (cx cy : num) (c : Cursor.t) :
  Cursor.hasMoved c = false ->
  Cursor.pos (Cursor.on_mousemove cx cy c) = Point.mk cx cy /\
  Cursor.glowPos (Cursor.on_mousemove cx cy c) = Point.mk cx cy /\
  Cursor.mouse (Cursor.on_mousemove cx cy c) = Point.mk cx cy /\
  Cursor.hasMoved (Cursor.on_mousemove cx cy c) = true.
Proof.
  intros H. unfold Cursor.on_mousemove. rewrite H. cbn. repeat split.
Qed.

Lemma on_mousemove_again (cx cy : num) (c : Cursor.t) :
  Cursor.pos c = Point.mk cx cy -> Cursor.glowPos c = Point.mk cx cy ->
  Cursor.pos (Cursor.on_mousemove cx cy c) = Point.mk cx cy /\
  Cursor.glowPos (Cursor.on_mousemove cx cy c) = Point.mk cx cy.
Proof.
  intros H1 H2. unfold Cursor.on_mousemove.
  destruct (Cursor.hasMoved c); cbn; auto.
Qed.

Lemma update_idle (c : Cursor.t) :
  Cursor.hasMoved c = false -> Cursor.update c = c.
Proof.
  intros H. unfold Cursor.update. rewrite H.
  destruct (Cursor.el c); reflexivity.
Qed.


Lemma lerp_Num (a b t : R) : lerp (Num a) (Num b) (Num t) = Num (a + (b - a) * t).
Proof. reflexivity. Qed.



(** ** The animation-frame queue *)

Lemma Callback_eqb_eq (a b : Host.Callback) : Host.Callback_eqb a b = true <-> a = b.
Proof. destruct a, b; cbn; split; intros; congruence. Qed.

Lemma Callback_eqb_refl (a : Host.Callback) : Host.Callback_eqb a a = true.
Proof. destruct a; reflexivity. Qed.

Lemma pending_count (cb : Host.Callback) (h : Host.t) :
  Host.pending cb h = count cb (Host.rafQueue h).
Proof. reflexivity. Qed.

Lemma cancel_remove (id : nat) (h : Host.t) :
  Host.rafQueue (Host.cancelAnimationFrame id h) = remove id (Host.rafQueue h).
Proof. reflexivity. Qed.

Lemma count_app (cb : Host.Callback) (q1 q2 : list (nat * Host.Callback)) :
  count cb (q1 ++ q2) = (count cb q1 + count cb q2)%nat.
Proof. unfold count. now rewrite filter_app, length_app. Qed.

Lemma count_one (cb cb' : Host.Callback) (id : nat) :
  count cb [(id, cb')] = if Host.Callback_eqb cb' cb then 1%nat else 0%nat.
Proof. unfold count. cbn. destruct (Host.Callback_eqb cb' cb); reflexivity. Qed.

Lemma In_remove (id : nat) (e : nat * Host.Callback) (q : list (nat * Host.Callback)) :
  In e (remove id q) <-> In e q /\ fst e <> id.
Proof.
  unfold remove. rewrite filter_In. split; intros [H1 H2]; split; try assumption.
  - intros E. rewrite <- Nat.eqb_eq in E. now rewrite E in H2.
  - apply Bool.negb_true_iff, Nat.eqb_neq. exact H2.
Qed.

Lemma remove_absent (id : nat) (q : list (nat * Host.Callback)) :
  ~ In id (map fst q) -> remove id q = q.
Proof.
  induction q as [|[i cb] tl IH]; intros H; cbn; [reflexivity|].
  cbn in H. destruct (Nat.eqb_spec i id) as [E | E]; cbn.
  - exfalso. apply H. now left.
  - f_equal. apply IH. intros Hin. apply H. now right.
Qed.

(** Removing the entry of a handle takes away exactly that entry. *)
Lemma count_remove (cb cb' : Host.Callback) (id : nat) (q : list (nat * Host.Callback)) :
  NoDup (map fst q) -> In (id, cb') q ->
  (count cb (remove id q) + (if Host.Callback_eqb cb' cb then 1 else 0) = count cb q)%nat.
Proof.
  induction q as [|[i c] tl IH]; intros Hnd Hin; [contradiction|].
  cbn in Hnd. inversion Hnd as [|? ? Hni Hnd']; subst.
  destruct Hin as [E | Hin].
  - injection E as -> ->. unfold remove. cbn [filter fst]. rewrite Nat.eqb_refl. cbn [negb].
    fold (remove id tl). rewrite (remove_absent id tl Hni).
    unfold count. cbn [filter snd].
    destruct (Host.Callback_eqb cb' cb); cbn; lia.
  - assert (Hne : i <> id).
    { intros ->. apply Hni. apply (in_map fst) in Hin. exact Hin. }
    unfold remove. cbn [filter fst]. apply Nat.eqb_neq in Hne. rewrite Hne. cbn [negb].
    fold (remove id tl). specialize (IH Hnd' Hin).
    unfold count in *. cbn [filter snd].
    destruct (Host.Callback_eqb c cb); cbn [length]; lia.
Qed.

Lemma count_zero (cb : Host.Callback) (q : list (nat * Host.Callback)) :
  count cb q = 0%nat <-> forall id, ~ In (id, cb) q.
Proof.
  unfold count. induction q as [|[i c] tl IH]; cbn.
  - split; auto.
  - destruct (Host.Callback_eqb c cb) eqn:E; cbn.
    + apply Callback_eqb_eq in E. subst c. split; [discriminate|].
      intros H. exfalso. apply (H i). now left.
    + rewrite IH. split; intros H id.
      * intros [Hin | Hin]; [|now apply (H id)].
        injection Hin as -> ->. now rewrite Callback_eqb_refl in E.
      * intros Hin. apply (H id). now right.
Qed.

(** Entries of one callback that all carry one handle: at most one. *)
Lemma count_le_one (cb : Host.Callback) (q : list (nat * Host.Callback)) (id0 : nat) :
  NoDup (map fst q) ->
  (forall id, In (id, cb) q -> id = id0) ->
  (count cb q <= 1)%nat.
Proof.
  induction q as [|[i c] tl IH]; intros Hnd Hall; [cbn; lia|].
  cbn in Hnd. inversion Hnd as [|? ? Hni Hnd']; subst.
  unfold count. cbn [filter snd]. fold (count cb tl).
  destruct (Host.Callback_eqb c cb) eqn:E.
  - apply Callback_eqb_eq in E. subst c.
    assert (Hi : i = id0) by (apply Hall; now left). subst i.
    assert (Hz : count cb tl = 0%nat).
    { apply count_zero. intros id Hin.
      assert (id = id0) by (apply Hall; now right). subst id.
      apply Hni. apply (in_map fst) in Hin. exact Hin. }
    cbn [length]. fold (count cb tl). lia.
  - apply IH; [exact Hnd'|]. intros id Hin. apply Hall. now right.
Qed.

Lemma lookup_In (id : nat) (cb : Host.Callback) (q : list (nat * Host.Callback)) :
  Host.lookup id q = Some cb -> In (id, cb) q.
Proof.
  induction q as [|[i c] tl IH]; cbn; [discriminate|].
  destruct (Nat.eqb_spec i id) as [-> | Hne]; intros H.
  - injection H as ->. now left.
  - right. now apply IH.
Qed.

Lemma In_lookup (id : nat) (cb : Host.Callback) (q : list (nat * Host.Callback)) :
  NoDup (map fst q) -> In (id, cb) q -> Host.lookup id q = Some cb.
Proof.
  induction q as [|[i c] tl IH]; intros Hnd Hin; [contradiction|].
  cbn in Hnd. inversion Hnd as [|? ? Hni Hnd']; subst. cbn.
  destruct Hin as [E | Hin].
  - injection E as -> ->. now rewrite Nat.eqb_refl.
  - destruct (Nat.eqb_spec i id) as [-> | Hne].
    + exfalso. apply Hni. apply (in_map fst) in Hin. exact Hin.
    + now apply IH.
Qed.

Lemma lookup_None (id : nat) (q : list (nat * Host.Callback)) :
  Host.lookup id q = None -> ~ In id (map fst q).
Proof.
  induction q as [|[i c] tl IH]; cbn; [tauto|].
  destruct (Nat.eqb_spec i id) as [-> | Hne]; [discriminate|].
  intros H [E | Hin]; [contradiction | now apply IH].
Qed.

(** ** Well-formedness is kept by every operation *)

Arguments count : simpl never.
Arguments remove : simpl never.

Lemma handles_ok_append (cb : Host.Callback) (h : Host.t) :
  handles_ok h -> handles_ok (snd (Host.requestAnimationFrame cb h)).
Proof.
  intros (Hnd & H1 & Hall). unfold handles_ok. cbn. repeat split.
  - rewrite map_app. cbn. apply NoDup_app; [exact Hnd | repeat constructor; cbn; tauto |].
    intros a Ha [E | []]. subst a.
    apply in_map_iff in Ha. destruct Ha as (e & Ee & He).
    rewrite Forall_forall in Hall. specialize (Hall e He). lia.
  - lia.
  - apply Forall_app. split.
    + eapply Forall_impl; [|exact Hall]. cbn. intros e He. lia.
    + repeat constructor; cbn; lia.
Qed.

Lemma handles_ok_cancel (id : nat) (h : Host.t) :
  handles_ok h -> handles_ok (Host.cancelAnimationFrame id h).
Proof.
  intros (Hnd & H1 & Hall). unfold handles_ok. cbn. repeat split.
  - clear Hall. induction (Host.rafQueue h) as [|e tl IH]; cbn; [constructor|].
    cbn in Hnd. inversion Hnd as [|? ? Hni Hnd']; subst.
    destruct (negb (fst e =? id)%nat); cbn; [|now apply IH].
    constructor; [|now apply IH].
    intros Hin. apply Hni. apply in_map_iff in Hin. destruct Hin as (e' & Ee & He).
    apply filter_In in He. apply in_map_iff. exists e'. tauto.
  - exact H1.
  - rewrite Forall_forall in *. intros e He. apply filter_In in He. now apply Hall.
Qed.

Lemma call_unchanged (m : M Particles.St unit) (pg : Page) :
  state_of (m (host pg, field pg)) = (host pg, field pg) -> call m pg = pg.
Proof. intros H. unfold call. rewrite H. destruct pg; reflexivity. Qed.

(** [start]: nothing when the field runs; otherwise the flag is set and the
    loop body runs. *)
Lemma call_start (pg : Page) :
  call Particles.start pg =
  if Particles.running (field pg) then pg
  else call Particles.loop
         (mkPage (host pg) (cursor pg) (Particles.set_running true (field pg))
                 (rafRunning pg) (cursorUpdates pg)).
Proof.
  unfold call at 1. unfold Particles.start.
  destruct (Particles.running (field pg)); [now destruct pg | reflexivity].
Qed.

(** What [loop] does: nothing, or one pass over the particles followed by one
    request for the next frame. *)
Lemma loop_spec (h : Host.t) (s : Particles.t) :
  state_of (Particles.loop (h, s)) = (h, s) \/
  exists (c : Host.Canvas) (cmds : list Host.DrawCmd),
    Particles.running s = true /\ Particles.ctx s = true /\ Particles.canvas s = Some c /\
    state_of (Particles.loop (h, s)) =
      (Host.mk (Host.env h) (Host.innerWidth h) (Host.innerHeight h)
         (Host.rafQueue h ++ [(Host.rafNext h, Host.ParticlesLoop)])
         (S (Host.rafNext h)) (Host.randomPos h + 2 * length (Particles.particles s))
         (Host.drawn h ++ cmds),
       Particles.set_raf (Some (Host.rafNext h))
         (Particles.set_particles
            (Particles.step_all (Host.isTouchDevice h) (Particles.mouse s)
               (Num (IZR (Host.width c))) (Num (IZR (Host.height c)))
               (Host.random (Host.env h)) (Host.randomPos h) (Particles.particles s)) s)).
Proof.
  unfold Particles.loop.
  destruct (Particles.running s) eqn:Hr; [|left; reflexivity].
  destruct (Particles.ctx s) eqn:Hc; [|left; reflexivity].
  destruct (Particles.canvas s) as [c|] eqn:Hcv; [|left; reflexivity].
  right. exists c. eexists. repeat split.
Qed.

Lemma wf_loop (pg : Page) :
  wf pg -> count Host.ParticlesLoop (Host.rafQueue (host pg)) = 0%nat ->
  wf (call Particles.loop pg).
Proof.
  intros Hwf Hz.
  destruct (loop_spec (host pg) (field pg)) as [E | (c & cmds & Hr & Hc & Hcv & E)].
  - now rewrite call_unchanged.
  - destruct Hwf as (Hh & Hs & (F1 & F2 & F3)).
    pose proof (handles_ok_append Host.ParticlesLoop _ Hh) as Hh'.
    destruct Hh as (Hnd & H1 & Hall).
    unfold call. rewrite E. cbn [fst snd].
    unfold wf, shared_ok, field_ok, Host.pending.
    cbn [host field rafRunning Host.rafQueue Host.rafNext Host.env
         Particles.set_raf Particles.set_particles Particles.running Particles.raf
         Particles.ctx Particles.canvas].
    split; [exact Hh'|]. split; [|split; [|split]].
    + fold (count Host.SharedTick (Host.rafQueue (host pg) ++ [(Host.rafNext (host pg), Host.ParticlesLoop)])).
      rewrite count_app, count_one. cbn. rewrite Nat.add_0_r. exact Hs.
    + intros id Hin. apply in_app_or in Hin. destruct Hin as [Hin | [Hin | []]].
      * exfalso. rewrite count_zero in Hz. exact (Hz id Hin).
      * injection Hin as <-. split; [exact Hr | reflexivity].
    + intros id Hid. injection Hid as <-. split; [lia|].
      intros cb Hin. apply in_app_or in Hin. destruct Hin as [Hin | [Hin | []]].
      * rewrite Forall_forall in Hall. specialize (Hall _ Hin). cbn in Hall. lia.
      * now injection Hin as <-.
    + exact F3.
Qed.

(** Well-formedness only looks at the queue, the handle counter, the
    environment, the shared flag, and four fields of the particle object. *)
Lemma wf_same (pg pg' : Page) :
  Host.rafQueue (host pg') = Host.rafQueue (host pg) ->
  Host.rafNext (host pg') = Host.rafNext (host pg) ->
  Host.env (host pg') = Host.env (host pg) ->
  rafRunning pg' = rafRunning pg ->
  Particles.raf (field pg') = Particles.raf (field pg) ->
  (Particles.running (field pg) = true -> Particles.running (field pg') = true) ->
  (Particles.ctx (field pg') = true ->
     (Particles.ctx (field pg) = true /\
      (Particles.canvas (field pg) <> None -> Particles.canvas (field pg') <> None))
     \/ (Particles.canvas (field pg') <> None /\
         Host.canvasEl (Host.env (host pg)) <> None)) ->
  wf pg -> wf pg'.
Proof.
  intros Eq En Ee Er Eraf Hrun Hctx ((Hnd & H1 & Hall) & Hs & (F1 & F2 & F3)).
  unfold wf, handles_ok, shared_ok, field_ok, Host.pending.
  rewrite Eq, En, Ee, Er, Eraf. repeat split; try assumption.
  - apply Hrun. now apply (F1 id).
  - now apply (F1 id).
  - now apply (F2 id).
  - now apply (F2 id).
  - destruct (Hctx H) as [[Hc Hcv] | [Hc _]]; [apply Hcv; now apply F3 | exact Hc].
  - destruct (Hctx H) as [[Hc Hcv] | [_ Hc]]; [now apply F3 | exact Hc].
Qed.

Lemma wf_with_cursor (f : Cursor.t -> Cursor.t) (pg : Page) :
  wf pg -> wf (with_cursor f pg).
Proof. intros H. apply (wf_same pg); auto. Qed.

Lemma wf_start (pg : Page) : wf pg -> wf (call Particles.start pg).
Proof.
  intros Hwf. rewrite call_start.
  destruct (Particles.running (field pg)) eqn:Hr; [exact Hwf|].
  apply wf_loop.
  - apply (wf_same pg); cbn; auto.
  - cbn. apply count_zero. intros id Hin.
    destruct Hwf as (_ & _ & (F1 & _)). destruct (F1 id Hin) as [Hrun _]. congruence.
Qed.

Lemma wf_stop (pg : Page) : wf pg -> wf (call Particles.stop pg).
Proof.
  intros ((Hnd & H1 & Hall) & Hs & (F1 & F2 & F3)).
  assert (Hnone : forall id, Particles.raf (field pg) = None \/ Particles.raf (field pg) = Some 0%nat ->
                    ~ In (id, Host.ParticlesLoop) (Host.rafQueue (host pg))).
  { intros id Hraf Hin. destruct (F1 id Hin) as [_ E].
    destruct Hraf as [Hraf | Hraf]; rewrite Hraf in E; [discriminate|].
    injection E as <-. rewrite Forall_forall in Hall. specialize (Hall _ Hin). cbn in Hall. lia. }
  unfold call, Particles.stop.
  destruct (Particles.raf (field pg)) as [rid|] eqn:Eraf.
  - destruct (Nat.eqb_spec rid 0) as [-> | Hne].
    + cbn [state_of fst snd].
      unfold wf, handles_ok, shared_ok, field_ok, Host.pending. cbn.
      repeat split; try assumption.
      * exfalso. exact (Hnone id (or_intror eq_refl) H).
      * exfalso. exact (Hnone id (or_intror eq_refl) H).
      * rewrite Eraf in H. injection H as <-. now apply (F2 0%nat).
      * rewrite Eraf in H. injection H as <-. now apply (F2 0%nat).
      * now apply F3.
      * now apply F3.
    + cbn [state_of fst snd].
      unfold wf, shared_ok, field_ok, Host.pending.
      cbn [host field rafRunning Particles.set_running Particles.running Particles.raf
           Particles.ctx Particles.canvas].
      rewrite cancel_remove.
      change (Host.rafNext (Host.cancelAnimationFrame rid (host pg)))
        with (Host.rafNext (host pg)).
      change (Host.env (Host.cancelAnimationFrame rid (host pg)))
        with (Host.env (host pg)).
      split; [apply handles_ok_cancel; repeat split; assumption|].
      split; [|split; [|split]].
      * fold (count Host.SharedTick (remove rid (Host.rafQueue (host pg)))).
        destruct (in_dec Nat.eq_dec rid (map fst (Host.rafQueue (host pg)))) as [Hin | Hni].
        -- apply in_map_iff in Hin. destruct Hin as ([i cb] & Ei & Hin). cbn in Ei. subst i.
           assert (cb = Host.ParticlesLoop) by (apply (F2 rid); auto). subst cb.
           pose proof (count_remove Host.SharedTick _ _ _ Hnd Hin) as Hc. cbn in Hc.
           rewrite Nat.add_0_r in Hc. rewrite Hc. exact Hs.
        -- rewrite remove_absent by exact Hni. exact Hs.
      * intros id Hin. apply In_remove in Hin. destruct Hin as [Hin Hne'].
        destruct (F1 id Hin) as [_ E]. injection E as <-.
        cbn in Hne'. contradiction.
      * intros id Hid. rewrite Eraf in Hid. injection Hid as <-.
        split; [now apply (F2 rid)|].
        intros cb Hin. apply In_remove in Hin. cbn in Hin. tauto.
      * exact F3.
  - cbn [state_of fst snd].
    unfold wf, handles_ok, shared_ok, field_ok, Host.pending. cbn.
    repeat split; try assumption.
    + exfalso. exact (Hnone id (or_introl eq_refl) H).
    + exfalso. exact (Hnone id (or_introl eq_refl) H).
    + rewrite Eraf in H. discriminate.
    + rewrite Eraf in H. discriminate.
    + now apply F3.
    + now apply F3.
Qed.

Lemma wf_resize (pg : Page) : wf pg -> wf (call Particles.resize pg).
Proof.
  intros Hwf. unfold call, Particles.resize.
  destruct (Particles.canvas (field pg)) eqn:Ec.
  - apply (wf_same pg); cbn; auto. intros Hc. left. split; [exact Hc | discriminate].
  - cbn. destruct pg; exact Hwf.
Qed.

Lemma wf_spawn (count : Z) (pg : Page) : wf pg -> wf (call (Particles.spawn count) pg).
Proof.
  intros Hwf. unfold call, Particles.spawn.
  destruct (Z.to_nat count); [apply (wf_same pg); cbn; auto|].
  destruct (Particles.canvas (field pg)) eqn:Ec; apply (wf_same pg); cbn; auto.
Qed.

Lemma wf_on_mousemove (cx cy : num) (pg : Page) :
  wf pg -> wf (call (Particles.on_mousemove cx cy) pg).
Proof. intros Hwf. apply (wf_same pg); cbn; auto. Qed.

Lemma wf_on_visibilitychange (hidden : bool) (pg : Page) :
  wf pg -> wf (call (Particles.on_visibilitychange hidden) pg).
Proof. destruct hidden; [apply wf_stop | apply wf_start]. Qed.

(** Sequencing two methods when the first one completes normally. *)
Lemma call_bind (m k : M Particles.St unit) (pg : Page) :
  throws (m (host pg, field pg)) = false ->
  call (m ;; k) pg = call k (call m pg).
Proof.
  intros H. unfold call, bind. destruct (m (host pg, field pg)) as [[] [h s]|]; [|discriminate].
  reflexivity.
Qed.

Lemma resize_ok (st : Particles.St) : throws (Particles.resize st) = false.
Proof. destruct st as [h s]. unfold Particles.resize. destruct (Particles.canvas s); reflexivity. Qed.

Lemma spawn_ok (count : Z) (h : Host.t) (s : Particles.t) :
  Particles.canvas s <> None -> throws (Particles.spawn count (h, s)) = false.
Proof.
  intros H. unfold Particles.spawn. destruct (Z.to_nat count); [reflexivity|].
  destruct (Particles.canvas s); [reflexivity | contradiction].
Qed.

(** [init], written as the sequence of its steps. *)
Lemma init_live (pg : Page) (c : Host.Canvas) :
  Host.canvasEl (Host.env (host pg)) = Some c ->
  Host.prefersReducedMotion (host pg) = false ->
  call Particles.init pg =
  let pg1 := mkPage (host pg) (cursor pg)
               (Particles.set_ctx (Host.context2d (Host.env (host pg)))
                  (Particles.set_canvas (Some c) (field pg)))
               (rafRunning pg) (cursorUpdates pg) in
  let pg2 := call Particles.resize pg1 in
  let pg3 := mkPage (host pg2) (cursor pg2)
               (Particles.add_listeners (Host.isTouchDevice (host pg2)) (field pg2))
               (rafRunning pg2) (cursorUpdates pg2) in
  let count := Particles.adaptive_count (Host.isTouchDevice (host pg2))
                 (Host.innerWidth (host pg2) * Host.innerHeight (host pg2)) in
  call Particles.start (call (Particles.spawn count) pg3).
Proof.
  intros Hc Hm. unfold call at 1. unfold Particles.init.
  rewrite Hc. cbn [Particles.canvas Particles.set_canvas]. rewrite Hm.
  unfold bind at 1. unfold Particles.resize at 1.
  cbn [Particles.canvas Particles.set_ctx Particles.set_canvas].
  cbv zeta. unfold call at 3. unfold Particles.resize.
  cbn [host field Particles.canvas Particles.set_ctx Particles.set_canvas state_of fst snd
       cursor rafRunning cursorUpdates].
  unfold bind. unfold call.
  cbn [host field Particles.canvas Particles.set_ctx Particles.set_canvas state_of fst snd
       cursor rafRunning cursorUpdates].
  unfold Particles.spawn.
  cbn [Particles.canvas Particles.add_listeners Particles.set_canvas].
  destruct (Z.to_nat _); reflexivity.
Qed.

Lemma init_dead (pg : Page) :
  Host.canvasEl (Host.env (host pg)) = None \/
  Host.prefersReducedMotion (host pg) = true ->
  call Particles.init pg =
  mkPage (host pg) (cursor pg)
    (Particles.set_canvas (Host.canvasEl (Host.env (host pg))) (field pg))
    (rafRunning pg) (cursorUpdates pg).
Proof.
  intros H. unfold call, Particles.init.
  destruct (Host.canvasEl (Host.env (host pg))) as [c|] eqn:Ec.
  - destruct H as [H | H]; [discriminate|].
    cbn [Particles.canvas Particles.set_canvas]. rewrite H. reflexivity.
  - reflexivity.
Qed.

Lemma wf_init (pg : Page) : wf pg -> wf (call Particles.init pg).
Proof.
  intros Hwf.
  destruct (Host.canvasEl (Host.env (host pg))) as [c|] eqn:Ec.
  - destruct (Host.prefersReducedMotion (host pg)) eqn:Hm.
    + rewrite init_dead by (now right). rewrite Ec.
      apply (wf_same pg); cbn; auto. intros Hc. left. split; [exact Hc | discriminate].
    + rewrite (init_live pg c Ec Hm). cbv zeta.
      apply wf_start, wf_spawn.
      match goal with |- wf (mkPage _ _ (Particles.add_listeners _ (field ?p)) _ _) =>
        assert (Hp : wf p) end.
      { apply wf_resize. apply (wf_same pg); cbn; auto.
        intros _. right. split; [discriminate | congruence]. }
      revert Hp. generalize (call Particles.resize
        (mkPage (host pg) (cursor pg)
           (Particles.set_ctx (Host.context2d (Host.env (host pg)))
              (Particles.set_canvas (Some c) (field pg))) (rafRunning pg) (cursorUpdates pg))).
      intros p Hp. apply (wf_same p); cbn; auto.
  - rewrite init_dead by (now left). rewrite Ec.
    apply (wf_same pg); cbn; auto. intros Hc. left. split; [exact Hc|].
    intros Hcv. destruct Hwf as (_ & _ & (_ & _ & F3)). destruct (F3 Hc) as [_ F]. congruence.
Qed.

Lemma wf_startSharedLoop (pg : Page) : wf pg -> wf (startSharedLoop pg).
Proof.
  intros Hwf. unfold startSharedLoop.
  destruct (rafRunning pg) eqn:Hr; [exact Hwf|].
  destruct Hwf as (Hh & Hs & (F1 & F2 & F3)).
  pose proof (handles_ok_append Host.SharedTick _ Hh) as Hh'.
  destruct Hh as (Hnd & H1 & Hall).
  unfold wf, shared_ok, field_ok, Host.pending. cbn.
  split; [exact Hh'|]. split; [|split; [|split]].
  - fold (count Host.SharedTick (Host.rafQueue (host pg) ++ [(Host.rafNext (host pg), Host.SharedTick)])).
    rewrite count_app, count_one. cbn.
    unfold shared_ok, Host.pending in Hs. rewrite Hr in Hs.
    fold (count Host.SharedTick (Host.rafQueue (host pg))) in Hs. lia.
  - intros id Hin. apply in_app_or in Hin. destruct Hin as [Hin | [Hin | []]].
    + now apply F1.
    + discriminate.
  - intros id Hid. destruct (F2 id Hid) as [Hlt Hcb]. split; [lia|].
    intros cb Hin. apply in_app_or in Hin. destruct Hin as [Hin | [Hin | []]].
    + now apply Hcb.
    + injection Hin as E _. lia.
  - exact F3.
Qed.

(** Appending a callback that is not the field's keeps the field's part. *)
Lemma field_ok_append (cb : Host.Callback) (pg : Page) (c : Cursor.t) (b : bool) (n : nat) :
  cb <> Host.ParticlesLoop -> field_ok pg ->
  field_ok (mkPage (snd (Host.requestAnimationFrame cb (host pg))) c (field pg) b n).
Proof.
  intros Hcb (F1 & F2 & F3). unfold field_ok. cbn. split; [|split].
  - intros id Hin. apply in_app_or in Hin. destruct Hin as [Hin | [Hin | []]].
    + now apply F1.
    + injection Hin as _ E. congruence.
  - intros id Hid. destruct (F2 id Hid) as [Hlt Hc]. split; [lia|].
    intros cb' Hin. apply in_app_or in Hin. destruct Hin as [Hin | [Hin | []]].
    + now apply Hc.
    + injection Hin as E _. lia.
  - exact F3.
Qed.

Lemma field_ok_cancel (id : nat) (pg : Page) :
  field_ok pg -> field_ok (with_host (Host.cancelAnimationFrame id) pg).
Proof.
  intros (F1 & F2 & F3). unfold field_ok. cbn. split; [|split].
  - intros i Hin. apply filter_In in Hin. now apply F1.
  - intros i Hi. destruct (F2 i Hi) as [Hlt Hc]. split; [exact Hlt|].
    intros cb Hin. apply filter_In in Hin. now apply Hc.
  - exact F3.
Qed.

(** One callback of a frame: taken out of the queue, then run. *)
Lemma wf_invoke (id : nat) (cb : Host.Callback) (pg : Page) :
  wf pg -> Host.lookup id (Host.rafQueue (host pg)) = Some cb ->
  wf (invoke cb (with_host (Host.cancelAnimationFrame id) pg)).
Proof.
  intros (Hh & Hs & Hf) Hl. apply lookup_In in Hl.
  pose proof (handles_ok_cancel id _ Hh) as Hh1.
  pose proof (field_ok_cancel id _ Hf) as Hf1.
  assert (Hnd : NoDup (map fst (Host.rafQueue (host pg)))) by apply Hh.
  assert (Hcount : forall c, (count c (remove id (Host.rafQueue (host pg)))
                    + (if Host.Callback_eqb cb c then 1 else 0)
                    = count c (Host.rafQueue (host pg)))%nat).
  { intros c. now apply count_remove. }
  unfold shared_ok in Hs. rewrite pending_count in Hs.
  destruct cb; cbn [invoke].
  - (* tick *)
    specialize (Hcount Host.SharedTick). cbn in Hcount.
    unfold tick.
    split; [apply (handles_ok_append Host.SharedTick _ Hh1)|]. split.
    + unfold shared_ok. rewrite pending_count. cbn.
      fold (remove id (Host.rafQueue (host pg))).
      rewrite count_app, count_one. cbn. destruct (rafRunning pg); lia.
    + apply (field_ok_append Host.SharedTick (with_host (Host.cancelAnimationFrame id) pg));
        [discriminate | exact Hf1].
  - (* the field's loop *)
    apply wf_loop.
    + split; [exact Hh1|]. split; [|exact Hf1].
      unfold shared_ok. rewrite pending_count. cbn.
      fold (remove id (Host.rafQueue (host pg))).
      specialize (Hcount Host.SharedTick). cbn in Hcount. lia.
    + cbn. fold (remove id (Host.rafQueue (host pg))).
      apply count_zero. intros i Hin. apply In_remove in Hin. destruct Hin as [Hin Hne].
      destruct Hf as (F1 & _). destruct (F1 i Hin) as [_ E1]. destruct (F1 id Hl) as [_ E2].
      rewrite E1 in E2. injection E2 as E2. cbn in Hne. contradiction.
  - (* a callback of another effect *)
    split; [exact Hh1|]. split; [|exact Hf1].
    unfold shared_ok. rewrite pending_count. cbn.
    fold (remove id (Host.rafQueue (host pg))).
    specialize (Hcount Host.SharedTick). cbn in Hcount. lia.
Qed.

Lemma run_callbacks_inv (I : Page -> Prop) :
  (forall id cb pg, I pg -> Host.lookup id (Host.rafQueue (host pg)) = Some cb ->
     I (invoke cb (with_host (Host.cancelAnimationFrame id) pg))) ->
  forall ids pg, I pg -> I (run_callbacks ids pg).
Proof.
  intros Hstep ids. induction ids as [|id tl IH]; intros pg Hpg; cbn; [exact Hpg|].
  destruct (Host.lookup id (Host.rafQueue (host pg))) as [cb|] eqn:El.
  - apply IH. now apply Hstep.
  - now apply IH.
Qed.

Lemma iter_inv (I : Page -> Prop) (f : Page -> Page) (n : nat) (pg : Page) :
  (forall p, I p -> I (f p)) -> I pg -> I (Nat.iter n f pg).
Proof. intros Hf Hpg. induction n as [|n IH]; cbn; auto. Qed.

Lemma wf_dispatch (ev : Event) (pg : Page) : wf pg -> wf (dispatch ev pg).
Proof.
  intros Hwf. destruct ev; cbn [dispatch].
  - unfold onDOMContentLoaded. destruct (Host.isTouchDevice (host pg)); [exact Hwf|].
    apply wf_init, wf_startSharedLoop, wf_with_cursor, Hwf.
  - unfold frame. apply run_callbacks_inv; [|exact Hwf].
    intros id cb p Hp Hl. now apply wf_invoke.
  - match goal with |- wf (Nat.iter ?n _ ?p) => assert (Hn : wf p) end.
    { apply (wf_same pg); cbn; auto. }
    revert Hn. generalize (with_host (Host.set_window wd ht) pg). intros p Hp.
    apply iter_inv; [apply wf_resize|exact Hp].
  - apply iter_inv; [intros p; apply wf_on_mousemove|].
    apply iter_inv; [intros p; apply wf_with_cursor | exact Hwf].
  - apply iter_inv; [intros p; apply wf_with_cursor | exact Hwf].
  - apply iter_inv; [intros p; apply wf_with_cursor | exact Hwf].
  - apply iter_inv; [intros p; apply wf_with_cursor | exact Hwf].
  - now apply wf_with_cursor.
  - apply iter_inv; [intros p; apply wf_on_visibilitychange | exact Hwf].
  - destruct Hwf as (Hh & Hs & Hf).
    split; [apply (handles_ok_append Host.Foreign _ Hh)|]. split.
    + unfold shared_ok in *. rewrite pending_count in *. cbn.
      rewrite count_app, count_one. cbn. lia.
    + apply (field_ok_append Host.Foreign pg); [discriminate | exact Hf].
  - now apply wf_startSharedLoop.
  - now apply wf_start.
  - now apply wf_stop.
Qed.

Lemma wf_initial (e : Host.Env) (wd ht : Z) : wf (initialPage e wd ht).
Proof.
  unfold wf, handles_ok, shared_ok, field_ok. cbn.
  repeat split; try (constructor; fail); try lia; try contradiction; try discriminate.
Qed.

Lemma wf_run (evs : list Event) (pg : Page) : wf pg -> wf (run evs pg).
Proof.
  revert pg. induction evs as [|ev tl IH]; intros pg H; cbn; [exact H|].
  apply IH. now apply wf_dispatch.
Qed.

(** ** What one frame runs *)

Lemma lookup_app (id : nat) (q1 q2 : list (nat * Host.Callback)) :
  Host.lookup id (q1 ++ q2) =
  match Host.lookup id q1 with Some cb => Some cb | None => Host.lookup id q2 end.
Proof.
  induction q1 as [|[i c] tl IH]; cbn; [reflexivity|].
  destruct (i =? id)%nat; [reflexivity | exact IH].
Qed.

Lemma lookup_remove_other (id id' : nat) (q : list (nat * Host.Callback)) :
  id' <> id -> Host.lookup id' (remove id q) = Host.lookup id' q.
Proof.
  intros Hne. unfold remove. induction q as [|[i c] tl IH]; cbn; [reflexivity|].
  destruct (Nat.eqb_spec i id) as [-> | Hi]; cbn.
  - apply Nat.eqb_neq in Hne. rewrite Nat.eqb_sym in Hne. now rewrite Hne.
  - destruct (i =? id')%nat; [reflexivity | exact IH].
Qed.

Lemma lookup_beyond (id n : nat) (q : list (nat * Host.Callback)) :
  Forall (fun e => (n <= fst e)%nat) q -> (id < n)%nat -> Host.lookup id q = None.
Proof.
  intros Hall Hlt. induction Hall as [|[i c] tl Hi Htl IH]; cbn; [reflexivity|].
  cbn in Hi. destruct (Nat.eqb_spec i id); [lia | exact IH].
Qed.

(** A callback only appends to the queue, with handles not used before, and
    only [tick] calls [Cursor.update]. *)
Lemma invoke_footprint (cb : Host.Callback) (pg : Page) :
  exists added,
    Host.rafQueue (host (invoke cb pg)) = Host.rafQueue (host pg) ++ added /\
    Forall (fun e => (Host.rafNext (host pg) <= fst e)%nat) added /\
    (Host.rafNext (host pg) <= Host.rafNext (host (invoke cb pg)))%nat /\
    cursorUpdates (invoke cb pg) =
      (cursorUpdates pg + if Host.Callback_eqb cb Host.SharedTick then 1 else 0)%nat.
Proof.
  destruct cb; cbn [invoke Host.Callback_eqb].
  - exists [(Host.rafNext (host pg), Host.SharedTick)]. cbn.
    repeat split; [repeat constructor; cbn; lia | lia | lia].
  - destruct (loop_spec (host pg) (field pg)) as [E | (c & cmds & _ & _ & _ & E)].
    + rewrite call_unchanged by exact E. exists []. rewrite app_nil_r.
      repeat split; [constructor | lia | lia].
    + unfold call. rewrite E. cbn.
      exists [(Host.rafNext (host pg), Host.ParticlesLoop)].
      repeat split; [repeat constructor; cbn; lia | lia | lia].
  - exists []. rewrite app_nil_r. repeat split; [constructor | lia | lia].
Qed.

Lemma run_callbacks_updates (ids : list nat) (pg : Page) :
  NoDup ids -> Forall (fun id => (id < Host.rafNext (host pg))%nat) ids ->
  cursorUpdates (run_callbacks ids pg) =
  (cursorUpdates pg + hits ids (Host.rafQueue (host pg)))%nat.
Proof.
  revert pg. induction ids as [|id tl IH]; intros pg Hnd Hlt; cbn [run_callbacks].
  - unfold hits. cbn. lia.
  - inversion Hnd as [|? ? Hni Hnd']; subst. inversion Hlt as [|? ? Hid Hlt']; subst.
    unfold hits. cbn [filter]. fold (hits tl (Host.rafQueue (host pg))).
    destruct (Host.lookup id (Host.rafQueue (host pg))) as [cb|] eqn:El.
    + set (pg1 := with_host (Host.cancelAnimationFrame id) pg).
      destruct (invoke_footprint cb pg1) as (added & Eq & Hadd & Hn & Hu).
      rewrite IH; [|exact Hnd'|].
      * rewrite Hu. cbn [cursorUpdates pg1 with_host].
        assert (Eh : hits tl (Host.rafQueue (host (invoke cb pg1)))
                     = hits tl (Host.rafQueue (host pg))).
        { unfold hits. f_equal. apply filter_ext_in. intros i Hi.
          rewrite Eq. subst pg1. cbn [host with_host]. rewrite cancel_remove.
          rewrite lookup_app. rewrite lookup_remove_other.
          - rewrite Forall_forall in Hlt'. specialize (Hlt' i Hi).
            rewrite (lookup_beyond i _ added Hadd) by exact Hlt'.
            destruct (Host.lookup i (Host.rafQueue (host pg))); reflexivity.
          - intros ->. contradiction. }
        rewrite Eh. unfold hits. destruct cb; cbn [Host.Callback_eqb length]; lia.
      * eapply Forall_impl; [|exact Hlt']. cbn. intros i Hi.
        subst pg1. cbn [host with_host] in Hn. cbn in Hn. lia.
    + now apply IH.
Qed.

Lemma hits_snapshot (q q' : list (nat * Host.Callback)) :
  NoDup (map fst q) -> incl q' q -> hits (map fst q') q = count Host.SharedTick q'.
Proof.
  intros Hnd. induction q' as [|[i c] tl IH]; intros Hincl; [reflexivity|].
  unfold hits, count. cbn [map filter fst snd].
  fold (hits (map fst tl) q). fold (count Host.SharedTick tl).
  assert (Hl : Host.lookup i q = Some c).
  { apply In_lookup; [exact Hnd|]. apply Hincl. now left. }
  rewrite Hl. assert (IH' : hits (map fst tl) q = count Host.SharedTick tl).
  { apply IH. intros e He. apply Hincl. now right. }
  unfold hits, count in *. destruct c; cbn [Host.Callback_eqb length]; now rewrite IH'.
Qed.

(** In a well-formed page a frame calls [Cursor.update] once if the shared
    loop was started and not at all otherwise. *)
Lemma frame_updates (pg : Page) :
  wf pg ->
  cursorUpdates (frame pg) =
  (cursorUpdates pg + if rafRunning pg then 1 else 0)%nat.
Proof.
  intros ((Hnd & H1 & Hall) & Hs & _). unfold frame.
  rewrite run_callbacks_updates.
  - rewrite hits_snapshot; [|exact Hnd|apply incl_refl].
    unfold shared_ok in Hs. rewrite pending_count in Hs. now rewrite Hs.
  - exact Hnd.
  - rewrite Forall_forall in *. intros id Hin. apply in_map_iff in Hin.
    destruct Hin as (e & <- & He). specialize (Hall e He). lia.
Qed.

(** C3: whatever the page has been through (any interleaving of events, of
    frames, and of calls to [startSharedLoop], [start] and [stop]), there is
    one pending [tick] if the shared loop was started and none otherwise, so
    never two chains; starting again is a no-op; and every frame calls
    [Cursor.update] exactly once when the loop runs. *)
Theorem shared_loop_single_chain :
  forall (e : Host.Env) (wd ht : Z) (evs : list Event),
    let pg := run evs (initialPage e wd ht) in
    Host.pending Host.SharedTick (host pg) = (if rafRunning pg then 1 else 0)%nat
    /\ (Host.pending Host.SharedTick (host pg) <= 1)%nat
    /\ rafRunning (startSharedLoop pg) = true
    /\ startSharedLoop (startSharedLoop pg) = startSharedLoop pg
    /\ Host.pending Host.SharedTick (host (startSharedLoop pg)) = 1%nat
    /\ cursorUpdates (frame pg)
       = (cursorUpdates pg + if rafRunning pg then 1 else 0)%nat
    /\ cursorUpdates (frame (startSharedLoop pg)) = S (cursorUpdates pg).
Proof.
  intros e wd ht evs pg.
  assert (Hwf : wf pg) by (apply wf_run, wf_initial).
  assert (Hs : Host.pending Host.SharedTick (host pg) = (if rafRunning pg then 1 else 0)%nat)
    by apply Hwf.
  assert (Hr : rafRunning (startSharedLoop pg) = true).
  { unfold startSharedLoop. destruct (rafRunning pg) eqn:E; [exact E | reflexivity]. }
  assert (Hwf' : wf (startSharedLoop pg)) by now apply wf_startSharedLoop.
  split; [exact Hs|]. split; [rewrite Hs; destruct (rafRunning pg); lia|].
  split; [exact Hr|]. split; [|split; [|split]].
  - unfold startSharedLoop at 1. now rewrite Hr.
  - destruct Hwf' as (_ & Hs' & _). unfold shared_ok in Hs'. now rewrite Hr in Hs'.
  - now apply frame_updates.
  - rewrite frame_updates by exact Hwf'. rewrite Hr.
    unfold startSharedLoop. destruct (rafRunning pg); cbn; lia.
Qed.

Example double_start_two_frames :
  cursorUpdates
    (run [CallStartSharedLoop; CallStartSharedLoop; Frame; CallStartSharedLoop; Frame]
         (initialPage desktop_env 800 600)) = 2%nat.
Proof. reflexivity. Qed.

(** ** Starting and stopping the field *)

Lemma pending_loop_le_one (pg : Page) :
  wf pg -> (Host.pending Host.ParticlesLoop (host pg) <= 1)%nat.
Proof.
  intros ((Hnd & _) & _ & (F1 & _)). rewrite pending_count.
  destruct (Particles.raf (field pg)) as [rid|] eqn:E.
  - apply (count_le_one _ _ rid Hnd). intros id Hin.
    destruct (F1 id Hin) as [_ E']. congruence.
  - apply (count_le_one _ _ 0%nat Hnd). intros id Hin.
    destruct (F1 id Hin) as [_ E']. congruence.
Qed.

Lemma start_running (pg : Page) :
  Particles.running (field (call Particles.start pg)) = true.
Proof.
  unfold call, Particles.start.
  destruct (Particles.running (field pg)) eqn:Hr; [exact Hr|].
  destruct (loop_spec (host pg) (Particles.set_running true (field pg)))
    as [E | (c & cmds & _ & _ & _ & E)]; rewrite E; reflexivity.
Qed.

Lemma start_twice (pg : Page) :
  call Particles.start (call Particles.start pg) = call Particles.start pg.
Proof.
  apply call_unchanged. unfold Particles.start at 1.
  rewrite start_running. reflexivity.
Qed.

Lemma remove_twice (id : nat) (q : list (nat * Host.Callback)) :
  remove id (remove id q) = remove id q.
Proof.
  unfold remove. induction q as [|e tl IH]; [reflexivity|]. cbn.
  destruct (negb (fst e =? id)%nat) eqn:E; cbn; [rewrite E; f_equal|]; exact IH.
Qed.

Lemma stop_twice (pg : Page) :
  call Particles.stop (call Particles.stop pg) = call Particles.stop pg.
Proof.
  unfold call, Particles.stop.
  destruct (Particles.raf (field pg)) as [rid|] eqn:E.
  - destruct (Nat.eqb_spec rid 0) as [-> | Hne]; cbn; rewrite E.
    + reflexivity.
    + apply Nat.eqb_neq in Hne. rewrite Hne. cbn.
      unfold Host.cancelAnimationFrame, Host.set_rafQueue. cbn.
      fold (remove rid (Host.rafQueue (host pg))).
      fold (remove rid (remove rid (Host.rafQueue (host pg)))).
      now rewrite remove_twice.
  - cbn. rewrite E. reflexivity.
Qed.

Lemma stop_particles (pg : Page) :
  Particles.particles (field (call Particles.stop pg)) = Particles.particles (field pg)
  /\ Particles.running (field (call Particles.stop pg)) = false
  /\ Particles.ctx (field (call Particles.stop pg)) = Particles.ctx (field pg)
  /\ Particles.canvas (field (call Particles.stop pg)) = Particles.canvas (field pg)
  /\ Particles.mouse (field (call Particles.stop pg)) = Particles.mouse (field pg)
  /\ Host.env (host (call Particles.stop pg)) = Host.env (host pg)
  /\ Host.randomPos (host (call Particles.stop pg)) = Host.randomPos (host pg).
Proof.
  unfold call, Particles.stop.
  destruct (Particles.raf (field pg)) as [rid|]; [destruct (rid =? 0)%nat|]; cbn; tauto.
Qed.

(** Starting a stopped field with a context: one pass over the particles
    right away, and one request for the next frame. *)
Lemma start_stopped (pg : Page) (c : Host.Canvas) :
  Particles.running (field pg) = false -> Particles.ctx (field pg) = true ->
  Particles.canvas (field pg) = Some c ->
  Particles.particles (field (call Particles.start pg)) =
    Particles.step_all (Host.isTouchDevice (host pg)) (Particles.mouse (field pg))
      (Num (IZR (Host.width c))) (Num (IZR (Host.height c)))
      (Host.random (Host.env (host pg))) (Host.randomPos (host pg))
      (Particles.particles (field pg))
  /\ Host.rafQueue (host (call Particles.start pg)) =
       Host.rafQueue (host pg) ++ [(Host.rafNext (host pg), Host.ParticlesLoop)].
Proof.
  intros Hr Hx Hc. unfold call, Particles.start. rewrite Hr.
  unfold Particles.loop.
  cbn [Particles.running Particles.ctx Particles.canvas Particles.set_running].
  rewrite Hx, Hc. cbn. split; reflexivity.
Qed.

Lemma loop_length (pg : Page) :
  length (Particles.particles (field (call Particles.loop pg)))
  = length (Particles.particles (field pg)).
Proof.
  destruct (loop_spec (host pg) (field pg)) as [E | (c & cmds & _ & _ & _ & E)].
  - now rewrite call_unchanged.
  - unfold call. rewrite E. cbn. apply step_all_length.
Qed.

Lemma start_length (pg : Page) :
  length (Particles.particles (field (call Particles.start pg)))
  = length (Particles.particles (field pg)).
Proof.
  rewrite call_start. destruct (Particles.running (field pg)); [reflexivity|].
  now rewrite loop_length.
Qed.

(** Only the page-load handler replaces the collection: every other event,
    frames included, keeps the number of particles. *)
Lemma dispatch_length (ev : Event) (pg : Page) :
  is_load ev = false ->
  length (Particles.particles (field (dispatch ev pg)))
  = length (Particles.particles (field pg)).
Proof.
  intros Hev.
  set (I := fun p : Page => length (Particles.particles (field p))
                            = length (Particles.particles (field pg))).
  change (I (dispatch ev pg)).
  assert (H0 : I pg) by reflexivity.
  assert (Hcur : forall f p, I p -> I (with_cursor f p)) by (intros f p H; exact H).
  assert (Hstop : forall p, I p -> I (call Particles.stop p)).
  { intros p H. unfold I. destruct (stop_particles p) as [E _]. rewrite E. exact H. }
  assert (Hstart : forall p, I p -> I (call Particles.start p)).
  { intros p H. unfold I. rewrite start_length. exact H. }
  destruct ev; try discriminate; cbn [dispatch].
  - unfold frame. apply run_callbacks_inv; [|exact H0].
    intros id cb p Hp _. destruct cb; cbn [invoke].
    + exact Hp.
    + unfold I. rewrite loop_length. exact Hp.
    + exact Hp.
  - apply iter_inv; [|exact H0].
    intros p Hp. unfold I, call, Particles.resize.
    destruct (Particles.canvas (field p)); exact Hp.
  - apply iter_inv; [intros p Hp; exact Hp|].
    apply iter_inv; [intros p; apply Hcur | exact H0].
  - apply iter_inv; [intros p; apply Hcur | exact H0].
  - apply iter_inv; [intros p; apply Hcur | exact H0].
  - apply iter_inv; [intros p; apply Hcur | exact H0].
  - exact H0.
  - apply iter_inv; [|exact H0]. intros p Hp. destruct hidden; auto.
  - exact H0.
  - unfold startSharedLoop. destruct (rafRunning pg); exact H0.
  - now apply Hstart.
  - now apply Hstop.
Qed.

Lemma run_length (evs : list Event) (pg : Page) :
  forallb (fun ev => negb (is_load ev)) evs = true ->
  length (Particles.particles (field (run evs pg)))
  = length (Particles.particles (field pg)).
Proof.
  revert pg. induction evs as [|ev tl IH]; intros pg H; cbn; [reflexivity|].
  cbn in H. apply andb_true_iff in H. destruct H as [H1 H2].
  rewrite IH by exact H2. apply dispatch_length.
  now apply negb_true_iff in H1.
Qed.

Lemma stop_then_start (pg : Page) (c : Host.Canvas) :
  wf pg -> Particles.ctx (field pg) = true -> Particles.canvas (field pg) = Some c ->
  let pg' := call Particles.start (call Particles.stop pg) in
  Particles.running (field pg') = true /\
  Host.pending Host.ParticlesLoop (host pg') = 1%nat /\
  Particles.particles (field pg') =
    Particles.step_all (Host.isTouchDevice (host pg)) (Particles.mouse (field pg))
      (Num (IZR (Host.width c))) (Num (IZR (Host.height c)))
      (Host.random (Host.env (host pg))) (Host.randomPos (host pg))
      (Particles.particles (field pg)).
Proof.
  intros Hwf Hx Hc pg'.
  destruct (stop_particles pg) as (Ep & Er & Ex & Ecv & Em & Ee & Ek).
  pose proof (wf_stop pg Hwf) as Hwf1.
  assert (Hx1 : Particles.ctx (field (call Particles.stop pg)) = true) by congruence.
  assert (Hc1 : Particles.canvas (field (call Particles.stop pg)) = Some c) by congruence.
  destruct (start_stopped _ c Er Hx1 Hc1) as [Eps Eq].
  split; [apply start_running|]. split.
  - assert (Hz : count Host.ParticlesLoop (Host.rafQueue (host (call Particles.stop pg))) = 0%nat).
    { apply count_zero. intros id Hin. destruct Hwf1 as (_ & _ & (F1 & _)).
      destruct (F1 id Hin) as [Hrun _]. congruence. }
    subst pg'. rewrite pending_count, Eq, count_app, count_one, Hz. reflexivity.
  - subst pg'. rewrite Eps. unfold Host.isTouchDevice. rewrite Ep, Em, Ee, Ek. reflexivity.
Qed.

(** ** Stepping away from the pointer and away from the edges *)

Lemma wrap1_inside (v d : R) : 0 <= v <= d -> Step.wrap1 (Num v) (Num d) = Num v.
Proof.
  intros H. rewrite wrap1_Num.
  destruct (Rlt_dec v 0); [lra|]. destruct (Rlt_dec d v); [lra | reflexivity].
Qed.

Lemma step_inside (touch : bool) (mx my wd ht r1 r2 a b c d : R) (r al : num) :
  touch = true \/ 14400 <= (a - mx) * (a - mx) + (b - my) * (b - my) ->
  0 <= a + (c * 0.985 + (r1 - 0.5) * 0.008) <= wd ->
  0 <= b + (d * 0.985 + (r2 - 0.5) * 0.008) <= ht ->
  Step.step touch (Point.mk mx my) wd ht r1 r2 (Particle.mk a b c d r al) =
  Particle.mk (Num (a + (c * 0.985 + (r1 - 0.5) * 0.008)))
              (Num (b + (d * 0.985 + (r2 - 0.5) * 0.008)))
              (Num (c * 0.985 + (r1 - 0.5) * 0.008))
              (Num (d * 0.985 + (r2 - 0.5) * 0.008)) r al.
Proof.
  intros Hfar Hx Hy. unfold Step.step.
  assert (E : Step.repel touch (Point.mk mx my) (Particle.mk a b c d r al)
              = Particle.mk a b c d r al).
  { destruct Hfar as [-> | Hfar]; [reflexivity | now apply repel_far]. }
  rewrite E, tail_Num, !wrap1_inside by assumption. reflexivity.
Qed.

(** The two scenarios of rest: no pointer influence, no drift, no velocity. *)
Example rest_left (wd ht : R) :
  1 <= wd -> 50 <= ht ->
  Step.step false (Point.mk (-9999) (-9999)) wd ht 0.5 0.5 (Particle.mk 0 50 0 0 1 0.2)
  = Particle.mk (0 + (0 * 0.985 + (0.5 - 0.5) * 0.008))%R
                (50 + (0 * 0.985 + (0.5 - 0.5) * 0.008))%R
                (0 * 0.985 + (0.5 - 0.5) * 0.008)%R
                (0 * 0.985 + (0.5 - 0.5) * 0.008)%R 1 0.2.
Proof. intros Hw Hh. apply step_inside; [right|..]; lra. Qed.

(** The scenario of a push: pointer at (100, 100), particle at (110, 100)
    and at rest; the velocity along x becomes positive. *)
Example pushed_away :
  exists vx1 : R,
    Particle.vx (Step.step false (Point.mk 100 100) 800 600 0.5 0.5
                   (Particle.mk 110 100 0 0 1 0.2)) = Num vx1 /\ 0 < vx1.
Proof.
  unfold Step.step. rewrite repel_near.
  - cbv zeta. rewrite tail_Num. cbn [Particle.vx]. eexists. split; [reflexivity|].
    replace ((110 - 100) * (110 - 100) + (100 - 100) * (100 - 100)) with (10 * 10) by lra.
    rewrite sqrt_square by lra. lra.
  - lra.
  - lra.
Qed.

Lemma loaded_page_field :
  Particles.ctx (field loaded_page) = true /\
  Particles.running (field loaded_page) = true /\
  Particles.canvas (field loaded_page) = Some (Host.mkCanvas 150 100) /\
  Particles.mouse (field loaded_page) = Point.mk (-9999) (-9999) /\
  Host.isTouchDevice (host loaded_page) = false /\
  Particles.particles (field loaded_page) =
    [Step.step false (Point.mk (-9999) (-9999)) 150 100 0.9 0.9
       (Particles.fresh (Host.mkCanvas 150 100) (fun _ => 0.9) 0)].
Proof. repeat split. Qed.

Lemma loaded_particle :
  Step.step false (Point.mk (-9999) (-9999)) 150 100 0.9 0.9
    (Particles.fresh (Host.mkCanvas 150 100) (fun _ => 0.9) 0)
  = Particle.mk 135.1017 90.1017 0.1017 0.1017 (0.9 * 1.8 + 0.4)%R (0.9 * 0.35 + 0.08)%R.
Proof.
  unfold Particles.fresh.
  cbn [Host.width Host.height JsNum.add JsNum.sub JsNum.mul JsNum.lift2].
  rewrite step_inside; [|right; lra|lra|lra].
  f_equal; f_equal; lra.
Qed.

(** C4, as stated, fails: [start] runs the loop body at once, so a [stop]
    followed by a [start] moves the particles by one step.  On a desktop page
    with one particle (window 150 x 100, every random number 0.9), the particle
    is at [x = 135.1017] after the page has loaded and elsewhere after
    [stop(); start()]. *)
Lemma stop_start_moves_particles :
  Particles.particles (field loaded_page)
    = [Particle.mk 135.1017 90.1017 0.1017 0.1017 (0.9 * 1.8 + 0.4)%R (0.9 * 0.35 + 0.08)%R]
  /\ Particles.particles (field (call Particles.start (call Particles.stop loaded_page)))
     <> Particles.particles (field loaded_page).
Proof.
  destruct loaded_page_field as (Hx & Hr & Hc & Hm & Ht & Hp).
  rewrite loaded_particle in Hp. split; [exact Hp|].
  assert (Hwf : wf loaded_page) by (apply wf_run, wf_initial).
  destruct (stop_then_start loaded_page _ Hwf Hx Hc) as (_ & _ & E).
  rewrite E, Hp, Ht, Hm. cbn [Particles.step_all].
  change (Host.random (Host.env (host loaded_page))) with (fun _ : nat => 0.9).
  cbn [Host.width Host.height]. cbv beta.
  rewrite step_inside; [|right; lra|lra|lra].
  intros Heq. injection Heq as Heq _. lra.
Qed.

(** C4, amended: [start] and [stop] are idempotent and can be called in any
    order, interleaved with frames and every other event: at most one loop
    callback is ever pending and the number of particles never changes
    (only the page-load handler spawns).  [stop] leaves the particles as they
    are and leaves no callback behind.  [start] after [stop] resumes with the
    field running and exactly one callback pending; it does not keep the
    particles as they were but runs the loop body at once, so the collection
    is the old one advanced by one ordinary step. *)
Theorem start_stop_lifecycle :
  forall (e : Host.Env) (wd ht : Z) (evs evs' : list Event),
    forallb (fun ev => negb (is_load ev)) evs' = true ->
    Particles.ctx (field (run evs (initialPage e wd ht))) = true ->
    (Host.pending Host.ParticlesLoop
       (host (run evs' (run evs (initialPage e wd ht)))) <= 1)%nat
    /\ length (Particles.particles (field (run evs' (run evs (initialPage e wd ht)))))
       = length (Particles.particles (field (run evs (initialPage e wd ht))))
    /\ call Particles.start (call Particles.start (run evs (initialPage e wd ht)))
       = call Particles.start (run evs (initialPage e wd ht))
    /\ call Particles.stop (call Particles.stop (run evs (initialPage e wd ht)))
       = call Particles.stop (run evs (initialPage e wd ht))
    /\ Particles.particles (field (call Particles.stop (run evs (initialPage e wd ht))))
       = Particles.particles (field (run evs (initialPage e wd ht)))
    /\ Host.pending Host.ParticlesLoop
         (host (call Particles.stop (run evs (initialPage e wd ht)))) = 0%nat
    /\ exists c : Host.Canvas,
         Particles.canvas (field (run evs (initialPage e wd ht))) = Some c
         /\ Particles.running
              (field (call Particles.start
                        (call Particles.stop (run evs (initialPage e wd ht))))) = true
         /\ Host.pending Host.ParticlesLoop
              (host (call Particles.start
                       (call Particles.stop (run evs (initialPage e wd ht))))) = 1%nat
         /\ Particles.particles
              (field (call Particles.start
                        (call Particles.stop (run evs (initialPage e wd ht)))))
            = Particles.step_all
                (Host.isTouchDevice (host (run evs (initialPage e wd ht))))
                (Particles.mouse (field (run evs (initialPage e wd ht))))
                (Num (IZR (Host.width c))) (Num (IZR (Host.height c)))
                (Host.random (Host.env (host (run evs (initialPage e wd ht)))))
                (Host.randomPos (host (run evs (initialPage e wd ht))))
                (Particles.particles (field (run evs (initialPage e wd ht)))).
Proof.
  intros e wd ht evs evs' Hev Hx.
  set (pg := run evs (initialPage e wd ht)) in *.
  assert (Hwf : wf pg) by (apply wf_run, wf_initial).
  split; [apply pending_loop_le_one, wf_run, Hwf|].
  split; [now apply run_length|].
  split; [apply start_twice|].
  split; [apply stop_twice|].
  split; [apply stop_particles|].
  split.
  - rewrite pending_count. apply count_zero. intros id Hin.
    destruct (wf_stop pg Hwf) as (_ & _ & (F1 & _)).
    destruct (F1 id Hin) as [Hrun _].
    destruct (stop_particles pg) as (_ & Er & _). congruence.
  - destruct (Particles.canvas (field pg)) as [c|] eqn:Hc.
    + exists c. split; [reflexivity|]. now apply stop_then_start.
    + exfalso. destruct Hwf as (_ & _ & (_ & _ & F3)). destruct (F3 Hx) as [F _].
      now apply F.
Qed.

Lemma start_stop_lifecycle_witness :
  (Host.pending Host.ParticlesLoop
     (host (run [CallStop; CallStop; CallStart; CallStart; Frame;
                 VisibilityChange true; Frame; VisibilityChange false]
              (run [DOMContentLoaded] (initialPage small_window_env 150 100)))) <= 1)%nat.
Proof.
  apply (start_stop_lifecycle small_window_env 150 100 [DOMContentLoaded]
           [CallStop; CallStop; CallStart; CallStart; Frame;
            VisibilityChange true; Frame; VisibilityChange false]).
  - reflexivity.
  - reflexivity.
Defined.

(** ** The first pointer sample *)

Lemma cursor_iter_call (n : nat) (m : M Particles.St unit) (pg : Page) :
  cursor (Nat.iter n (call m) pg) = cursor pg.
Proof. induction n as [|n IH]; [reflexivity | exact IH]. Qed.

Lemma cursor_iter_with (n : nat) (f : Cursor.t -> Cursor.t) (pg : Page) :
  cursor (Nat.iter n (with_cursor f) pg) = Nat.iter n f (cursor pg).
Proof.
  induction n as [|n IH]; [reflexivity|].
  change (f (cursor (Nat.iter n (with_cursor f) pg)) = f (Nat.iter n f (cursor pg))).
  now rewrite IH.
Qed.

Lemma awaiting_iter (n : nat) (f : Cursor.t -> Cursor.t) (c : Cursor.t) :
  (forall c', awaiting_sample c' -> awaiting_sample (f c')) ->
  awaiting_sample c -> awaiting_sample (Nat.iter n f c).
Proof. intros Hf Hc. induction n as [|n IH]; cbn; auto. Qed.

Lemma awaiting_dispatch (ev : Event) (pg : Page) :
  is_mousemove ev = false ->
  awaiting_sample (cursor pg) -> awaiting_sample (cursor (dispatch ev pg)).
Proof.
  intros Hev Hc. destruct ev; try discriminate; cbn [dispatch].
  - unfold onDOMContentLoaded. destruct (Host.isTouchDevice (host pg)); [exact Hc|].
    change (awaiting_sample
              (cursor (startSharedLoop (with_cursor (Cursor.init (Host.env (host pg))) pg)))).
    assert (E : forall p, cursor (startSharedLoop p) = cursor p).
    { intros p. unfold startSharedLoop. destruct (rafRunning p); reflexivity. }
    rewrite E. cbn. destruct Hc as [Hm Hl]. unfold Cursor.init.
    destruct (Host.touch _); [split; assumption|].
    cbn. destruct (Host.cursorEl _); split; cbn; try assumption. lia.
  - unfold frame.
    apply (run_callbacks_inv (fun p => awaiting_sample (cursor p))); [|exact Hc].
    intros id cb p Hp _. destruct cb; cbn [invoke]; try exact Hp.
    unfold tick. cbn. destruct Hp as [Hm Hl]. rewrite update_idle by exact Hm.
    split; assumption.
  - rewrite cursor_iter_call. exact Hc.
  - rewrite cursor_iter_with. apply awaiting_iter; [|exact Hc].
    intros c [Hm Hl]. unfold Cursor.on_mouseover.
    destruct (Cursor.scrolling c), interactive; split; assumption.
  - rewrite cursor_iter_with. apply awaiting_iter; [|exact Hc].
    intros c [Hm Hl]. unfold Cursor.on_mouseout.
    destruct (Cursor.scrolling c), interactive; split; assumption.
  - rewrite cursor_iter_with. apply awaiting_iter; [|exact Hc].
    intros c [Hm Hl]. split; assumption.
  - cbn. destruct Hc as [Hm Hl]. unfold Cursor.on_scroll_quiet.
    destruct (Cursor.scrollTimer (cursor pg)); split; assumption.
  - rewrite cursor_iter_call. exact Hc.
  - exact Hc.
  - unfold startSharedLoop. destruct (rafRunning pg); exact Hc.
  - exact Hc.
  - exact Hc.
Qed.

Lemma awaiting_run (evs : list Event) (pg : Page) :
  forallb (fun ev => negb (is_mousemove ev)) evs = true ->
  awaiting_sample (cursor pg) -> awaiting_sample (cursor (run evs pg)).
Proof.
  revert pg. induction evs as [|ev tl IH]; intros pg H Hc; cbn; [exact Hc|].
  cbn in H. apply andb_true_iff in H. destruct H as [H1 H2].
  apply IH; [exact H2|]. apply awaiting_dispatch; [|exact Hc].
  now apply negb_true_iff in H1.
Qed.

Lemma mousemove_iter (n : nat) (cx cy : num) (c : Cursor.t) :
  Cursor.hasMoved c = false ->
  Cursor.pos (Nat.iter (S n) (Cursor.on_mousemove cx cy) c) = Point.mk cx cy /\
  Cursor.glowPos (Nat.iter (S n) (Cursor.on_mousemove cx cy) c) = Point.mk cx cy.
Proof.
  intros Hm. induction n as [|n IH].
  - cbn. destruct (on_mousemove_first cx cy c Hm) as (H1 & H2 & _). now split.
  - change (Nat.iter (S (S n)) (Cursor.on_mousemove cx cy) c)
      with (Cursor.on_mousemove cx cy (Nat.iter (S n) (Cursor.on_mousemove cx cy) c)).
    destruct IH as [H1 H2]. now apply on_mousemove_again.
Qed.

Lemma load_awaiting (e : Host.Env) (wd ht : Z) :
  Host.touch e = false -> Host.cursorEl e = true ->
  awaiting_sample (cursor (dispatch DOMContentLoaded (initialPage e wd ht))).
Proof.
  intros Ht Hel. unfold awaiting_sample, dispatch, onDOMContentLoaded, Host.isTouchDevice.
  cbn [initialPage host Host.initial Host.env]. rewrite Ht.
  unfold call. cbn [cursor]. unfold startSharedLoop, with_cursor.
  cbn [rafRunning cursor]. unfold Cursor.init. rewrite Ht.
  cbn. rewrite Hel. cbn. split; [reflexivity | lia].
Qed.

(** C5: on a desktop page with a cursor element, whatever happens between
    page load and the first pointer sample (frames, scrolling, hovering,
    resizing, ...), that first sample puts both lagged positions exactly on
    the sample. *)
Theorem first_sample_snap :
  forall (e : Host.Env) (wd ht : Z) (evs : list Event) (clientX clientY : R),
    Host.touch e = false -> Host.cursorEl e = true ->
    forallb (fun ev => negb (is_mousemove ev)) evs = true ->
    Cursor.pos (cursor (dispatch (MouseMove clientX clientY)
                          (run evs (dispatch DOMContentLoaded (initialPage e wd ht)))))
      = Point.mk clientX clientY
    /\ Cursor.glowPos (cursor (dispatch (MouseMove clientX clientY)
                                 (run evs (dispatch DOMContentLoaded (initialPage e wd ht)))))
      = Point.mk clientX clientY.
Proof.
  intros e wd ht evs cx cy Ht Hel Hev.
  pose proof (load_awaiting e wd ht Ht Hel) as H0.
  pose proof (awaiting_run evs _ Hev H0) as [Hm Hl].
  set (pg := run evs (dispatch DOMContentLoaded (initialPage e wd ht))) in *.
  cbn [dispatch]. rewrite cursor_iter_call, cursor_iter_with.
  destruct (Cursor.listeners (cursor pg)) as [|n]; [lia|].
  now apply mousemove_iter.
Qed.

Lemma first_sample_snap_witness :
  Cursor.pos (cursor (dispatch (MouseMove 321 123)
                        (run [Frame; Scroll; Frame; MouseOver true; ScrollQuiet true; Frame]
                           (dispatch DOMContentLoaded (initialPage desktop_env 800 600)))))
  = Point.mk 321 123.
Proof.
  apply (first_sample_snap desktop_env 800 600
           [Frame; Scroll; Frame; MouseOver true; ScrollQuiet true; Frame] 321 123);
    reflexivity.
Defined.

(** ** Exponential smoothing *)



(** ** Damping *)

Lemma step_all_nth (touch : bool) (m : Point.t) (wd ht : num) (r : nat -> R)
    (k i : nat) (ps : list Particle.t) (d : Particle.t) :
  (i < length ps)%nat ->
  nth i (Particles.step_all touch m wd ht r k ps) d =
  Step.step touch m wd ht (Num (r (k + 2 * i)%nat)) (Num (r (S (k + 2 * i)))) (nth i ps d).
Proof.
  revert k i. induction ps as [|p tl IH]; intros k i Hi; cbn in Hi; [lia|].
  destruct i as [|i]; cbn [Particles.step_all nth].
  - now rewrite Nat.add_0_r.
  - rewrite IH by lia.
    replace (k + 2 * S i)%nat with (S (S k) + 2 * i)%nat by lia. reflexivity.
Qed.

(** Without repulsion and without drift one step scales the velocity. *)
Lemma step_damped (touch : bool) (mx my wd ht a b c d : R) (r al : num) :
  unrepelled touch mx my (Particle.mk a b c d r al) ->
  exists a' b',
    Step.step touch (Point.mk mx my) wd ht 0.5 0.5 (Particle.mk a b c d r al)
    = Particle.mk (Num a') (Num b') (Num (0.985 * c)) (Num (0.985 * d)) r al.
Proof.
  intros Hfar. unfold Step.step.
  assert (E : Step.repel touch (Point.mk mx my) (Particle.mk a b c d r al)
              = Particle.mk a b c d r al).
  { destruct Hfar as [-> | Hfar]; [reflexivity | now apply repel_far]. }
  rewrite E, tail_Num, !wrap1_Num. eexists; eexists.
  f_equal; try reflexivity; f_equal; lra.
Qed.

Lemma after_damped (touch : bool) (mx my wd ht : R) (r1 r2 : nat -> R)
    (a b c d : R) (r al : num) :
  (forall k, r1 k = 0.5 /\ r2 k = 0.5) ->
  (forall k, unrepelled touch mx my
               (after touch (Point.mk mx my) wd ht r1 r2 k (Particle.mk a b c d r al))) ->
  forall n, exists a' b',
    after touch (Point.mk mx my) wd ht r1 r2 n (Particle.mk a b c d r al)
    = Particle.mk (Num a') (Num b') (Num (0.985 ^ n * c)) (Num (0.985 ^ n * d)) r al.
Proof.
  intros Hdrift Hfar n. induction n as [|n IH].
  - exists a, b. cbn [after pow]. f_equal; f_equal; lra.
  - destruct IH as (a' & b' & E). specialize (Hfar n). rewrite E in Hfar.
    cbn [after]. rewrite E. destruct (Hdrift n) as [-> ->].
    destruct (step_damped touch mx my wd ht a' b' _ _ r al Hfar) as (a2 & b2 & E2).
    rewrite E2. exists a2, b2. cbn [pow]. f_equal; f_equal; ring.
Qed.

(** With the pointer where the script first puts it, a particle inside the
    canvas is never repelled. *)
Lemma after_inside (touch : bool) (m : Point.t) (wd ht : R) (r1 r2 : nat -> R)
    (p : Particle.t) :
  0 <= wd -> 0 <= ht -> finite_particle p -> inside_closed wd ht p ->
  (forall q, inside_closed wd ht q -> clear_of m q) ->
  forall k, inside_closed wd ht (after touch m wd ht r1 r2 k p)
            /\ finite_particle (after touch m wd ht r1 r2 k p).
Proof.
  intros Hw Hh Hf Hin Hclear k. induction k as [|k [IH1 IH2]]; cbn [after].
  - split; assumption.
  - apply step_closed; auto.
Qed.

Lemma inside_unrepelled (touch : bool) (wd ht : R) (q : Particle.t) :
  inside_closed wd ht q -> unrepelled touch (-9999) (-9999) q.
Proof.
  intros (a & b & Ea & Eb & Ha & Hb). right. rewrite Ea, Eb. cbn [val]. nra.
Qed.

Lemma inside_clear (wd ht : R) (q : Particle.t) :
  inside_closed wd ht q -> clear_of (Point.mk (-9999) (-9999)) q.
Proof.
  intros (a & b & Ea & Eb & Ha & Hb) [E _]. rewrite Ea in E. cbn in E.
  injection E as E. lra.
Qed.

(** C7: if in every frame the pointer does not repel the particle and both
    drift draws are 0.5 (zero drift), then after [n] frames each velocity
    component is [0.985 ^ n] times its initial value; the velocity magnitude
    is [0.985 ^ n] times the initial one, never increases from one frame to
    the next, and falls below every positive bound. *)
Theorem damping_decay :
  forall (touch : bool) (mx my wd ht : R) (r1 r2 : nat -> R) (p : Particle.t),
    finite_particle p ->
    (forall k, r1 k = 0.5 /\ r2 k = 0.5) ->
    (forall k, unrepelled touch mx my (after touch (Point.mk mx my) wd ht r1 r2 k p)) ->
    (forall n : nat,
       Particle.vx (after touch (Point.mk mx my) wd ht r1 r2 n p)
         = Num (0.985 ^ n * val (Particle.vx p))
       /\ Particle.vy (after touch (Point.mk mx my) wd ht r1 r2 n p)
         = Num (0.985 ^ n * val (Particle.vy p))
       /\ speed (after touch (Point.mk mx my) wd ht r1 r2 n p) = 0.985 ^ n * speed p
       /\ speed (after touch (Point.mk mx my) wd ht r1 r2 (S n) p)
          = 0.985 * speed (after touch (Point.mk mx my) wd ht r1 r2 n p)
       /\ speed (after touch (Point.mk mx my) wd ht r1 r2 (S n) p)
          <= speed (after touch (Point.mk mx my) wd ht r1 r2 n p))
    /\ (forall eps : R, 0 < eps ->
          exists N : nat, forall n : nat, (N <= n)%nat ->
            speed (after touch (Point.mk mx my) wd ht r1 r2 n p) < eps).
Proof.
  intros touch mx my wd ht r1 r2 p Hf Hdrift Hfar. destruct_finite p.
  rename r into a, r0 into b, r3 into c, r4 into d.
  assert (Hs : forall n, speed (after touch (Point.mk mx my) wd ht r1 r2 n
                                  (Particle.mk a b c d prad palpha))
                         = 0.985 ^ n * speed (Particle.mk a b c d prad palpha)).
  { intros n. destruct (after_damped touch mx my wd ht r1 r2 a b c d prad palpha Hdrift Hfar n)
      as (a' & b' & E).
    rewrite E. unfold speed. cbn [Particle.vx Particle.vy val].
    apply norm2_scale. apply pow_le. lra. }
  assert (H0 : 0 <= speed (Particle.mk a b c d prad palpha)) by apply norm2_nonneg.
  split.
  - intros n.
    destruct (after_damped touch mx my wd ht r1 r2 a b c d prad palpha Hdrift Hfar n)
      as (a' & b' & E).
    rewrite (Hs (S n)), (Hs n). rewrite E. cbn [Particle.vx Particle.vy val].
    split; [reflexivity|]. split; [reflexivity|]. split; [reflexivity|].
    split; [cbn [pow]; ring|].
    apply geometric_decreasing; lra.
  - intros eps Heps.
    destruct (geometric_small 0.985 _ eps ltac:(lra) H0 Heps) as [N HN].
    exists N. intros n Hn. rewrite Hs. now apply HN.
Qed.

Lemma damping_decay_witness :
  Particle.vx (after false (Point.mk (-9999) (-9999)) 800 600
                 (fun _ => 0.5) (fun _ => 0.5) 3 moving_particle)
    = Num (0.985 ^ 3 * 1)
  /\ speed (after false (Point.mk (-9999) (-9999)) 800 600
              (fun _ => 0.5) (fun _ => 0.5) 3 moving_particle)
     = 0.985 ^ 3 * speed moving_particle
  /\ speed (after false (Point.mk (-9999) (-9999)) 800 600
              (fun _ => 0.5) (fun _ => 0.5) 4 moving_particle)
     <= speed (after false (Point.mk (-9999) (-9999)) 800 600
                 (fun _ => 0.5) (fun _ => 0.5) 3 moving_particle).
Proof.
  assert (H : forall n : nat,
            Particle.vx (after false (Point.mk (-9999) (-9999)) 800 600
                           (fun _ => 0.5) (fun _ => 0.5) n moving_particle)
              = Num (0.985 ^ n * 1)
            /\ Particle.vy (after false (Point.mk (-9999) (-9999)) 800 600
                              (fun _ => 0.5) (fun _ => 0.5) n moving_particle)
              = Num (0.985 ^ n * -2)
            /\ speed (after false (Point.mk (-9999) (-9999)) 800 600
                        (fun _ => 0.5) (fun _ => 0.5) n moving_particle)
               = 0.985 ^ n * speed moving_particle
            /\ speed (after false (Point.mk (-9999) (-9999)) 800 600
                        (fun _ => 0.5) (fun _ => 0.5) (S n) moving_particle)
               = 0.985 * speed (after false (Point.mk (-9999) (-9999)) 800 600
                                  (fun _ => 0.5) (fun _ => 0.5) n moving_particle)
            /\ speed (after false (Point.mk (-9999) (-9999)) 800 600
                        (fun _ => 0.5) (fun _ => 0.5) (S n) moving_particle)
               <= speed (after false (Point.mk (-9999) (-9999)) 800 600
                           (fun _ => 0.5) (fun _ => 0.5) n moving_particle)).
  { apply (damping_decay false (-9999) (-9999) 800 600 (fun _ => 0.5) (fun _ => 0.5)
             moving_particle).
    - repeat split.
    - intros k. split; reflexivity.
    - intros k. apply (inside_unrepelled false 800 600).
      apply after_inside; try lra.
      + repeat split.
      + exists 10, 10. repeat split; lra.
      + apply inside_clear. }
  destruct (H 3%nat) as (H1 & _ & H3 & _ & H5). auto.
Defined.

(** ** The connection pass *)










Example eighty_is_skipped_too :
  Particles.connections false 100 (repeat (Particle.mk 5 5 0 0 1 0.2) 80) = [].
Proof. reflexivity. Qed.

(** ** Missing rendering surface *)

Lemma loop_without_context (h : Host.t) (s : Particles.t) :
  Particles.ctx s = false -> Particles.loop (h, s) = Ok tt (h, s).
Proof.
  intros H. unfold Particles.loop. rewrite H.
  destruct (Particles.running s); reflexivity.
Qed.

Lemma start_without_context (h : Host.t) (s : Particles.t) :
  Particles.ctx s = false ->
  state_of (Particles.start (h, s)) = (h, Particles.set_running true s)
  /\ throws (Particles.start (h, s)) = false.
Proof.
  intros H. unfold Particles.start. destruct (Particles.running s) eqn:Hr.
  - split; [|reflexivity]. cbn. destruct s; cbn in *. now subst.
  - rewrite loop_without_context by exact H. split; reflexivity.
Qed.

Lemma stop_without_handle (h : Host.t) (s : Particles.t) :
  Particles.raf s = None ->
  Particles.stop (h, s) = Ok tt (h, Particles.set_running false s).
Proof. intros H. unfold Particles.stop. now rewrite H. Qed.

Lemma start_ok (h : Host.t) (s : Particles.t) :
  Particles.canvas s <> None -> throws (Particles.start (h, s)) = false.
Proof.
  intros Hc. unfold Particles.start. destruct (Particles.running s); [reflexivity|].
  unfold Particles.loop.
  cbn [Particles.running Particles.ctx Particles.canvas Particles.set_running negb orb].
  destruct (Particles.ctx s); [|reflexivity]. cbn [negb].
  destruct (Particles.canvas s); [reflexivity | contradiction].
Qed.

Lemma init_never_throws (st : Particles.St) : throws (Particles.init st) = false.
Proof.
  destruct st as [h s]. unfold Particles.init.
  destruct (Host.canvasEl (Host.env h)) as [c|]; [|reflexivity].
  cbn [Particles.canvas Particles.set_canvas].
  destruct (Host.prefersReducedMotion h); [reflexivity|].
  unfold bind, Particles.resize.
  cbn [Particles.canvas Particles.set_canvas Particles.set_ctx].
  unfold Particles.spawn. cbn [Particles.canvas Particles.add_listeners Particles.set_canvas].
  destruct (Z.to_nat _); apply start_ok; discriminate.
Qed.

Lemma count_remove_zero (cb : Host.Callback) (id : nat) (q : list (nat * Host.Callback)) :
  count cb q = 0%nat -> count cb (remove id q) = 0%nat.
Proof.
  rewrite !count_zero. intros H i Hin. apply In_remove in Hin. now apply (H i).
Qed.

Lemma inert_same (pg pg' : Page) :
  Host.env (host pg') = Host.env (host pg) ->
  Host.drawn (host pg') = Host.drawn (host pg) ->
  count Host.ParticlesLoop (Host.rafQueue (host pg')) = 0%nat ->
  Particles.ctx (field pg') = Particles.ctx (field pg) ->
  Particles.raf (field pg') = Particles.raf (field pg) ->
  (Host.canvasEl (Host.env (host pg)) = None ->
   Particles.canvas (field pg') = Particles.canvas (field pg) /\
   Particles.particles (field pg') = Particles.particles (field pg) /\
   Particles.resizeListeners (field pg') = Particles.resizeListeners (field pg) /\
   Particles.mouseListeners (field pg') = Particles.mouseListeners (field pg) /\
   Particles.visibilityListeners (field pg') = Particles.visibilityListeners (field pg)) ->
  inert pg -> inert pg'.
Proof.
  intros Ee Ed Ec Ex Er Hf (H1 & H2 & H3 & H4 & H5 & H6).
  unfold inert. rewrite Ee, Ed, Ex, Er. repeat split; try assumption;
    destruct (Hf H) as (E1 & E2 & E3 & E4 & E5);
    destruct (H6 H) as (G1 & G2 & G3 & G4 & G5); congruence.
Qed.

Lemma inert_loop (pg : Page) : inert pg -> call Particles.loop pg = pg.
Proof.
  intros (_ & Hx & _). apply call_unchanged. now rewrite loop_without_context.
Qed.

Lemma inert_start (pg : Page) : inert pg -> inert (call Particles.start pg).
Proof.
  intros H. pose proof H as (_ & Hx & _ & _ & Hc & _).
  destruct (start_without_context (host pg) (field pg) Hx) as [E _].
  assert (E' : call Particles.start pg
               = mkPage (host pg) (cursor pg) (Particles.set_running true (field pg))
                   (rafRunning pg) (cursorUpdates pg)).
  { unfold call. now rewrite E. }
  rewrite E'. apply (inert_same pg); cbn; auto.
Qed.

Lemma inert_stop (pg : Page) : inert pg -> inert (call Particles.stop pg).
Proof.
  intros H. pose proof H as (_ & _ & Hr & _ & Hc & _).
  assert (E' : call Particles.stop pg
               = mkPage (host pg) (cursor pg) (Particles.set_running false (field pg))
                   (rafRunning pg) (cursorUpdates pg)).
  { unfold call. now rewrite (stop_without_handle _ _ Hr). }
  rewrite E'. apply (inert_same pg); cbn; auto.
Qed.

Lemma inert_resize (pg : Page) : inert pg -> inert (call Particles.resize pg).
Proof.
  intros H. pose proof H as (_ & _ & _ & _ & Hc & H6).
  unfold call, Particles.resize. destruct (Particles.canvas (field pg)) eqn:Ec.
  - apply (inert_same pg); cbn; auto.
    intros Hn. destruct (H6 Hn) as [E _]. congruence.
  - apply (inert_same pg); cbn; auto.
Qed.

Lemma inert_spawn (n : Z) (pg : Page) :
  Particles.canvas (field pg) <> None -> inert pg -> inert (call (Particles.spawn n) pg).
Proof.
  intros Hcv H. pose proof H as (_ & _ & _ & _ & Hc & H6).
  assert (Hel : Host.canvasEl (Host.env (host pg)) <> None).
  { intros Hn. destruct (H6 Hn) as [E _]. contradiction. }
  unfold call, Particles.spawn. destruct (Z.to_nat n).
  - apply (inert_same pg); cbn; auto. intros Hn. contradiction.
  - destruct (Particles.canvas (field pg)); [|contradiction].
    apply (inert_same pg); cbn; auto. intros Hn. contradiction.
Qed.

Lemma inert_init (pg : Page) : inert pg -> inert (call Particles.init pg).
Proof.
  intros H. pose proof H as (H1 & Hx & Hr & Hd & Hc & H6).
  destruct (Host.canvasEl (Host.env (host pg))) as [c|] eqn:Ec.
  - assert (H2d : Host.context2d (Host.env (host pg)) = false).
    { destruct H1 as [H1 | H1]; [discriminate | exact H1]. }
    destruct (Host.prefersReducedMotion (host pg)) eqn:Hm.
    + rewrite init_dead by (now right). rewrite Ec.
      apply (inert_same pg); cbn; auto. rewrite Ec. discriminate.
    + rewrite (init_live pg c Ec Hm). cbv zeta. rewrite H2d.
      apply inert_start.
      set (pg1 := mkPage (host pg) (cursor pg)
                    (Particles.set_ctx false (Particles.set_canvas (Some c) (field pg)))
                    (rafRunning pg) (cursorUpdates pg)).
      assert (I1 : inert pg1).
      { apply (inert_same pg); cbn; auto. rewrite Ec. discriminate. }
      assert (E2 : call Particles.resize pg1
                   = mkPage (host pg) (cursor pg)
                       (Particles.set_canvas
                          (Some (Host.mkCanvas (Host.innerWidth (host pg))
                                   (Host.innerHeight (host pg))))
                          (Particles.set_ctx false
                             (Particles.set_canvas (Some c) (field pg))))
                       (rafRunning pg) (cursorUpdates pg)) by reflexivity.
      pose proof (inert_resize pg1 I1) as I2. rewrite E2 in *.
      apply inert_spawn; [cbn; discriminate|].
      match type of I2 with inert ?q => apply (inert_same q); cbn; auto end.
      intros Hn. rewrite Ec in Hn. discriminate.
  - rewrite init_dead by (now left). rewrite Ec.
    destruct (H6 eq_refl) as (E1 & _).
    apply (inert_same pg); cbn; auto.
Qed.

Ltac same_page p :=
  apply (inert_same p); cbn;
  try reflexivity; try assumption;
  try (intros; repeat split; reflexivity);
  try (match goal with H : inert _ |- _ => apply H end).

Lemma inert_dispatch (ev : Event) (pg : Page) : inert pg -> inert (dispatch ev pg).
Proof.
  intros H. pose proof H as (H1 & Hx & Hr & Hd & Hc & H6).
  destruct ev; cbn [dispatch].
  - unfold onDOMContentLoaded. destruct (Host.isTouchDevice (host pg)); [exact H|].
    apply inert_init. unfold startSharedLoop.
    destruct (rafRunning (with_cursor (Cursor.init (Host.env (host pg))) pg)).
    + same_page pg.
    + same_page pg. rewrite count_app, count_one, Hc. reflexivity.
  - unfold frame. apply run_callbacks_inv; [|exact H].
    intros id cb p Hp _. pose proof Hp as (_ & _ & _ & _ & Hpc & _).
    assert (Hp1 : inert (with_host (Host.cancelAnimationFrame id) p)).
    { clear H. same_page p. now apply count_remove_zero. }
    destruct cb; cbn [invoke].
    + pose proof Hp1 as (_ & _ & _ & _ & Hc1 & _). clear H Hp.
      same_page (with_host (Host.cancelAnimationFrame id) p).
      rewrite count_app, count_one. cbn in Hc1. now rewrite Hc1.
    + now rewrite inert_loop.
    + exact Hp1.
  - match goal with |- inert (Nat.iter ?n _ ?p) => assert (Hn : inert p) end.
    { same_page pg. }
    apply iter_inv; [apply inert_resize | exact Hn].
  - apply iter_inv.
    + intros p Hp. clear H. same_page p.
    + apply iter_inv; [|exact H]. intros p Hp. clear H. same_page p.
  - apply iter_inv; [|exact H]. intros p Hp. clear H. same_page p.
  - apply iter_inv; [|exact H]. intros p Hp. clear H. same_page p.
  - apply iter_inv; [|exact H]. intros p Hp. clear H. same_page p.
  - same_page pg.
  - apply iter_inv; [|exact H]. intros p Hp.
    destruct hidden; [now apply inert_stop | now apply inert_start].
  - same_page pg. rewrite count_app, count_one, Hc. reflexivity.
  - unfold startSharedLoop. destruct (rafRunning pg); [exact H|].
    same_page pg. rewrite count_app, count_one, Hc. reflexivity.
  - now apply inert_start.
  - now apply inert_stop.
Qed.

Lemma inert_run (evs : list Event) (pg : Page) : inert pg -> inert (run evs pg).
Proof.
  revert pg. induction evs as [|ev tl IH]; intros pg H; cbn; [exact H|].
  apply IH. now apply inert_dispatch.
Qed.

Lemma inert_initial (e : Host.Env) (wd ht : Z) :
  Host.canvasEl e = None \/ Host.context2d e = false -> inert (initialPage e wd ht).
Proof. intros H. unfold inert. cbn. repeat split; auto. Qed.

(** The environment is the same page-long. *)
Lemma env_dispatch (ev : Event) (pg : Page) :
  Host.env (host (dispatch ev pg)) = Host.env (host pg).
Proof.
  set (I := fun p : Page => Host.env (host p) = Host.env (host pg)).
  change (I (dispatch ev pg)).
  assert (H0 : I pg) by reflexivity.
  assert (Hloop : forall p, I p -> I (call Particles.loop p)).
  { intros p Hp. unfold I.
    destruct (loop_spec (host p) (field p)) as [E | (c & cmds & _ & _ & _ & E)].
    - now rewrite call_unchanged.
    - unfold call. rewrite E. exact Hp. }
  assert (Hstop : forall p, I p -> I (call Particles.stop p)).
  { intros p Hp. unfold I, call, Particles.stop.
    destruct (Particles.raf (field p)) as [rid|]; [destruct (rid =? 0)%nat|]; exact Hp. }
  assert (Hstart : forall p, I p -> I (call Particles.start p)).
  { intros p Hp. rewrite call_start. destruct (Particles.running (field p)); [exact Hp|].
    apply Hloop. exact Hp. }
  assert (Hresize : forall p, I p -> I (call Particles.resize p)).
  { intros p Hp. unfold I, call, Particles.resize.
    destruct (Particles.canvas (field p)); exact Hp. }
  assert (Hspawn : forall n p, I p -> I (call (Particles.spawn n) p)).
  { intros n p Hp. unfold I, call, Particles.spawn.
    destruct (Z.to_nat n); [exact Hp|]. destruct (Particles.canvas (field p)); exact Hp. }
  destruct ev; cbn [dispatch].
  - unfold onDOMContentLoaded. destruct (Host.isTouchDevice (host pg)); [exact H0|].
    match goal with |- I (call Particles.init ?p) =>
      assert (Hp : I p) by (unfold startSharedLoop; cbn; destruct (rafRunning pg); exact H0);
      revert Hp; generalize p end.
    intros p Hp.
    destruct (Host.canvasEl (Host.env (host p))) as [c|] eqn:Ec.
    + destruct (Host.prefersReducedMotion (host p)) eqn:Hm.
      * rewrite init_dead by (now right). exact Hp.
      * rewrite (init_live p c Ec Hm). cbv zeta. apply Hstart, Hspawn.
        match goal with |- I (mkPage (host ?q) _ _ _ _) =>
          assert (Hq : I q) by (apply Hresize; exact Hp); exact Hq end.
    + rewrite init_dead by (now left). exact Hp.
  - unfold frame. apply run_callbacks_inv; [|exact H0].
    intros id cb p Hp _. destruct cb; cbn [invoke]; [exact Hp | now apply Hloop | exact Hp].
  - apply iter_inv; [exact Hresize | exact H0].
  - apply iter_inv; [intros p Hp; exact Hp|]. apply iter_inv; [intros p Hp; exact Hp | exact H0].
  - apply iter_inv; [intros p Hp; exact Hp | exact H0].
  - apply iter_inv; [intros p Hp; exact Hp | exact H0].
  - apply iter_inv; [intros p Hp; exact Hp | exact H0].
  - exact H0.
  - apply iter_inv; [|exact H0]. intros p Hp. destruct hidden; auto.
  - exact H0.
  - unfold startSharedLoop. destruct (rafRunning pg); exact H0.
  - now apply Hstart.
  - now apply Hstop.
Qed.

Lemma env_run (evs : list Event) (pg : Page) :
  Host.env (host (run evs pg)) = Host.env (host pg).
Proof.
  revert pg. induction evs as [|ev tl IH]; intros pg; cbn; [reflexivity|].
  rewrite IH. apply env_dispatch.
Qed.

(** C9, as stated, fails.  With a canvas element whose 2D context cannot be
    obtained, [init] is not a no-op: it sizes the canvas, spawns a particle
    and sets the running flag.  And [spawn] with a positive count on an object
    without canvas reads [this.canvas.width] of null. *)
Lemma missing_surface_not_all_noops :
  length (Particles.particles
            (field (call Particles.init (initialPage env_no_context 150 100)))) = 1%nat
  /\ Particles.running
       (field (call Particles.init (initialPage env_no_context 150 100))) = true
  /\ call Particles.init (initialPage env_no_context 150 100)
     <> initialPage env_no_context 150 100
  /\ throws (Particles.spawn 1 (Host.initial env_no_canvas 150 100, Particles.initial))
     = true.
Proof.
  split; [reflexivity|]. split; [reflexivity|]. split; [|reflexivity].
  intros E. apply (f_equal (fun p => Particles.running (field p))) in E.
  discriminate E.
Qed.

Lemma page_eta (pg : Page) :
  mkPage (host pg) (cursor pg) (field pg) (rafRunning pg) (cursorUpdates pg) = pg.
Proof. now destruct pg. Qed.

Lemma set_canvas_None (s : Particles.t) :
  Particles.canvas s = None -> Particles.set_canvas None s = s.
Proof. destruct s. cbn. now intros ->. Qed.

(** C9, amended: if the canvas element or its 2D context is missing, then
    throughout the page load (after any sequence of events) the field has no
    context, paints nothing and never has a loop callback pending; [loop] is
    a no-op, [start] and [stop] change the running flag and nothing else, and
    [init], [resize], [start], [stop] and [loop] do not throw.  If the canvas
    element is missing, [init] and [resize] are no-ops as well, no handler is
    registered and no particle exists.  ([spawn] is only called by [init]
    once the canvas is there; with a canvas but no context [init] still
    spawns and sets the flag.) *)
Theorem missing_surface_is_inert :
  forall (e : Host.Env) (wd ht : Z) (evs : list Event),
    Host.canvasEl e = None \/ Host.context2d e = false ->
    (Particles.ctx (field (run evs (initialPage e wd ht))) = false
     /\ Host.drawn (host (run evs (initialPage e wd ht))) = []
     /\ Host.pending Host.ParticlesLoop (host (run evs (initialPage e wd ht))) = 0%nat)
    /\ (throws (Particles.init (host (run evs (initialPage e wd ht)),
                                field (run evs (initialPage e wd ht)))) = false
        /\ throws (Particles.resize (host (run evs (initialPage e wd ht)),
                                     field (run evs (initialPage e wd ht)))) = false
        /\ throws (Particles.start (host (run evs (initialPage e wd ht)),
                                    field (run evs (initialPage e wd ht)))) = false
        /\ throws (Particles.stop (host (run evs (initialPage e wd ht)),
                                   field (run evs (initialPage e wd ht)))) = false
        /\ throws (Particles.loop (host (run evs (initialPage e wd ht)),
                                   field (run evs (initialPage e wd ht)))) = false)
    /\ call Particles.loop (run evs (initialPage e wd ht)) = run evs (initialPage e wd ht)
    /\ call Particles.start (run evs (initialPage e wd ht))
       = mkPage (host (run evs (initialPage e wd ht)))
           (cursor (run evs (initialPage e wd ht)))
           (Particles.set_running true (field (run evs (initialPage e wd ht))))
           (rafRunning (run evs (initialPage e wd ht)))
           (cursorUpdates (run evs (initialPage e wd ht)))
    /\ call Particles.stop (run evs (initialPage e wd ht))
       = mkPage (host (run evs (initialPage e wd ht)))
           (cursor (run evs (initialPage e wd ht)))
           (Particles.set_running false (field (run evs (initialPage e wd ht))))
           (rafRunning (run evs (initialPage e wd ht)))
           (cursorUpdates (run evs (initialPage e wd ht)))
    /\ (Host.canvasEl e = None ->
        call Particles.init (run evs (initialPage e wd ht)) = run evs (initialPage e wd ht)
        /\ call Particles.resize (run evs (initialPage e wd ht))
           = run evs (initialPage e wd ht)
        /\ Particles.canvas (field (run evs (initialPage e wd ht))) = None
        /\ Particles.particles (field (run evs (initialPage e wd ht))) = []
        /\ Particles.resizeListeners (field (run evs (initialPage e wd ht))) = 0%nat
        /\ Particles.mouseListeners (field (run evs (initialPage e wd ht))) = 0%nat
        /\ Particles.visibilityListeners (field (run evs (initialPage e wd ht))) = 0%nat).
Proof.
  intros e wd ht evs He.
  pose proof (inert_run evs _ (inert_initial e wd ht He)) as Hin.
  pose proof (env_run evs (initialPage e wd ht)) as Henv. cbn in Henv.
  set (pg := run evs (initialPage e wd ht)) in *.
  pose proof Hin as (H1 & Hx & Hr & Hd & Hc & H6).
  destruct (start_without_context (host pg) (field pg) Hx) as [Es Ts].
  split; [split; [exact Hx | split; [exact Hd | now rewrite pending_count]]|].
  split.
  { split; [apply init_never_throws|]. split; [apply resize_ok|]. split; [exact Ts|].
    split; [now rewrite (stop_without_handle _ _ Hr)|].
    now rewrite loop_without_context. }
  split; [now apply inert_loop|].
  split; [unfold call; now rewrite Es|].
  split; [unfold call; now rewrite (stop_without_handle _ _ Hr)|].
  intros Hn. rewrite <- Henv in Hn. destruct (H6 Hn) as (G1 & G2 & G3 & G4 & G5).
  split.
  { rewrite init_dead by (now left). rewrite Hn, (set_canvas_None _ G1). apply page_eta. }
  split.
  { apply call_unchanged. unfold Particles.resize. now rewrite G1. }
  tauto.
Qed.

Lemma missing_surface_is_inert_witness :
  Particles.ctx
    (field (run [DOMContentLoaded; Frame; Resize 640 480; VisibilityChange true;
                 VisibilityChange false; CallStart; Frame; CallStop]
              (initialPage env_no_context 150 100))) = false
  /\ Host.drawn
       (host (run [DOMContentLoaded; Frame; Resize 640 480; VisibilityChange true;
                   VisibilityChange false; CallStart; Frame; CallStop]
                (initialPage env_no_context 150 100))) = []
  /\ Host.pending Host.ParticlesLoop
       (host (run [DOMContentLoaded; Frame; Resize 640 480; VisibilityChange true;
                   VisibilityChange false; CallStart; Frame; CallStop]
                (initialPage env_no_context 150 100))) = 0%nat.
Proof.
  apply (missing_surface_is_inert env_no_context 150 100
           [DOMContentLoaded; Frame; Resize 640 480; VisibilityChange true;
            VisibilityChange false; CallStart; Frame; CallStop]).
  right. reflexivity.
Defined.

(** ** Spawning *)

Lemma fresh_bounds (c : Host.Canvas) (r : nat -> R) (k : nat) :
  (0 < Host.width c)%Z -> (0 < Host.height c)%Z ->
  (forall i, 0 <= r i < 1) ->
  fresh_in_bounds c (Particles.fresh c r k).
Proof.
  intros Hw Hh Hr. apply IZR_lt in Hw, Hh.
  pose proof (Hr k) as H0. pose proof (Hr (k + 1)%nat) as H1.
  pose proof (Hr (k + 2)%nat) as H2. pose proof (Hr (k + 3)%nat) as H3.
  pose proof (Hr (k + 4)%nat) as H4. pose proof (Hr (k + 5)%nat) as H5.
  unfold fresh_in_bounds, Particles.fresh.
  cbn [JsNum.add JsNum.sub JsNum.mul JsNum.lift2].
  do 6 eexists. split; [reflexivity|].
  repeat split; try lra; try nra.
Qed.

Lemma spawn_loop_spec (c : Host.Canvas) (r : nat -> R) (k n : nat) :
  (0 < Host.width c)%Z -> (0 < Host.height c)%Z ->
  (forall i, 0 <= r i < 1) ->
  length (Particles.spawn_loop c r k n) = n
  /\ Forall (fresh_in_bounds c) (Particles.spawn_loop c r k n).
Proof.
  intros Hw Hh Hr. revert k. induction n as [|n IH]; intros k; cbn [Particles.spawn_loop].
  - split; [reflexivity | constructor].
  - destruct (IH (k + 6)%nat) as [E F]. split; [cbn; now rewrite E|].
    constructor; [now apply fresh_bounds | exact F].
Qed.

(** When [init] asks for at least one particle the canvas has an area. *)
Lemma adaptive_count_positive (touch : bool) (wd ht : Z) :
  (0 <= wd)%Z -> (0 <= ht)%Z ->
  (0 < Particles.adaptive_count touch (wd * ht))%Z -> (0 < wd)%Z /\ (0 < ht)%Z.
Proof.
  intros Hw Hh Hc.
  assert (Hne : (wd * ht <> 0)%Z).
  { intros E. rewrite E in Hc. unfold Particles.adaptive_count in Hc.
    destruct touch; cbn in Hc; lia. }
  split; nia.
Qed.

(** C10: on a canvas with an area, and with [Math.random] in [0, 1),
    [spawn(count)] for a non-negative count does not throw and replaces the
    collection, whatever it held, by exactly [count] particles built from the
    next [6 * count] random numbers; each has its position in
    [0, width) x [0, height), its radius in [0.4, 2.2), its alpha in
    [0.08, 0.43) and both velocity components in [-0.125, 0.125). *)
Theorem spawn_count_and_bounds :
  forall (h : Host.t) (s : Particles.t) (c : Host.Canvas) (count : Z),
    Particles.canvas s = Some c ->
    (0 < Host.width c)%Z -> (0 < Host.height c)%Z ->
    (0 <= count)%Z ->
    (forall i, 0 <= Host.random (Host.env h) i < 1) ->
    throws (Particles.spawn count (h, s)) = false
    /\ Particles.particles (snd (state_of (Particles.spawn count (h, s))))
       = Particles.spawn_loop c (Host.random (Host.env h)) (Host.randomPos h)
           (Z.to_nat count)
    /\ Z.of_nat (length (Particles.particles
                           (snd (state_of (Particles.spawn count (h, s)))))) = count
    /\ Forall (fresh_in_bounds c)
         (Particles.particles (snd (state_of (Particles.spawn count (h, s)))))
    /\ Host.randomPos (fst (state_of (Particles.spawn count (h, s))))
       = (Host.randomPos h + 6 * Z.to_nat count)%nat.
Proof.
  intros h s c count Hc Hw Hh Hcount Hr.
  destruct (spawn_loop_spec c (Host.random (Host.env h)) (Host.randomPos h)
              (Z.to_nat count) Hw Hh Hr) as [El Hf].
  assert (E : Particles.particles (snd (state_of (Particles.spawn count (h, s))))
              = Particles.spawn_loop c (Host.random (Host.env h)) (Host.randomPos h)
                  (Z.to_nat count)).
  { unfold Particles.spawn. rewrite Hc. destruct (Z.to_nat count); reflexivity. }
  split; [apply spawn_ok; congruence|].
  split; [exact E|]. rewrite E, El.
  split; [lia|]. split; [exact Hf|].
  unfold Particles.spawn. rewrite Hc. destruct (Z.to_nat count); cbn; lia.
Qed.

Lemma spawn_count_and_bounds_witness :
  Forall (fresh_in_bounds (Host.mkCanvas 150 100))
    (Particles.particles
       (snd (state_of (Particles.spawn 3 (Host.initial small_window_env 150 100, sized_field))))).
Proof.
  apply (spawn_count_and_bounds (Host.initial small_window_env 150 100) sized_field
           (Host.mkCanvas 150 100) 3).
  - reflexivity.
  - cbn. lia.
  - cbn. lia.
  - lia.
  - intros i. cbn. lra.
Defined.

(** * Further properties of the particle step *)

Lemma norm2_sqr (u v : R) : norm2 u v * norm2 u v = u * u + v * v.
Proof. unfold norm2. apply sqrt_sqrt. nra. Qed.

Lemma component_le_norm (u v : R) : - norm2 u v <= u <= norm2 u v.
Proof.
  pose proof (norm2_nonneg u v) as H0. pose proof (norm2_sqr u v) as H1.
  split; nra.
Qed.

Lemma norm2_comm (u v : R) : norm2 u v = norm2 v u.
Proof. unfold norm2. f_equal. ring. Qed.


Lemma ratio_bounds (u n : R) : 0 < n -> - n <= u <= n -> -1 <= u / n <= 1.
Proof.
  intros Hn Hu. unfold Rdiv.
  assert (Hq : 0 < / n) by now apply Rinv_0_lt_compat.
  assert (E : n * / n = 1) by (apply Rinv_r; lra).
  split; nra.
Qed.

(** The impulse of the repulsion: within the radius and off the pointer the
    velocity gains [k] times the offset from the pointer, with [k > 0], and the
    impulse has magnitude [0.12 * (120 - dist) / 120]. *)
Lemma repel_near_impulse (mx my a b c d : R) (r al : num) :
  let dx := a - mx in let dy := b - my in
  let dist := norm2 dx dy in
  dx * dx + dy * dy < 14400 ->
  ~ (a = mx /\ b = my) ->
  0 < dist < 120 /\
  exists k : R,
    0 < k /\ k * dist = 0.12 * ((120 - dist) / 120) /\
    Step.repel false (Point.mk mx my) (Particle.mk a b c d r al) =
    Particle.mk a b (Num (c + k * dx)) (Num (d + k * dy)) r al.
Proof.
  intros dx dy dist Hlt Hne.
  assert (Hsq : 0 <= dx * dx + dy * dy) by nra.
  assert (Hd0 : 0 <= dist) by apply norm2_nonneg.
  assert (Hdd : dist * dist = dx * dx + dy * dy) by apply norm2_sqr.
  assert (Hpos : 0 < dist).
  { destruct (Req_dec dist 0) as [E | E]; [|lra].
    exfalso. assert (Hz : dx * dx + dy * dy = 0) by (rewrite <- Hdd, E; ring).
    apply sum_sq_zero in Hz. apply Hne. unfold dx, dy in Hz. split; lra. }
  assert (H120 : dist < 120) by nra.
  split; [lra|].
  exists ((120 - dist) / 120 * 0.12 / dist).
  assert (Hq : 0 < / dist) by now apply Rinv_0_lt_compat.
  assert (E : dist * / dist = 1) by (apply Rinv_r; lra).
  split; [unfold Rdiv; apply Rmult_lt_0_compat; [lra | exact Hq]|].
  split.
  - unfold Rdiv. rewrite Rmult_assoc, (Rmult_comm (/ dist)), E. lra.
  - rewrite (repel_near mx my a b c d r al Hlt Hne). fold dx dy.
    change (sqrt (dx * dx + dy * dy)) with dist.
    unfold Rdiv. f_equal; f_equal; ring.
Qed.

(** In every case the repulsion changes a velocity component by at most
    [0.12]. *)
Lemma repel_bounded (touch : bool) (m : Point.t) (a b c d : R) (r al : num) :
  touch = true \/ clear_of m (Particle.mk a b c d r al) ->
  exists c' d',
    Step.repel touch m (Particle.mk a b c d r al) = Particle.mk a b (Num c') (Num d') r al
    /\ -0.12 <= c' - c <= 0.12 /\ -0.12 <= d' - d <= 0.12.
Proof.
  intros H. destruct touch.
  - exists c, d. split; [reflexivity | lra].
  - destruct H as [H | H]; [discriminate|].
    destruct m as [[mx|] [my|]]; try (exists c, d; split; [reflexivity | lra]).
    destruct (Rlt_dec ((a - mx) * (a - mx) + (b - my) * (b - my)) 14400) as [Hlt | Hge].
    + assert (Hne : ~ (a = mx /\ b = my)).
      { intros [-> ->]. apply H. split; reflexivity. }
      destruct (repel_near_impulse mx my a b c d r al Hlt Hne) as (Hd & k & Hk & Hkd & E).
      eexists; eexists. split; [exact E|].
      pose proof (component_le_norm (a - mx) (b - my)) as Hx.
      pose proof (component_le_norm (b - my) (a - mx)) as Hy.
      rewrite (norm2_comm (b - my)) in Hy.
      set (n := norm2 (a - mx) (b - my)) in *.
      assert (Hkn : 0 < k * n <= 0.12) by (rewrite Hkd; lra).
      split; nra.
    + exists c, d. split; [apply repel_far; lra | lra].
Qed.

Lemma step_slow (touch : bool) (m : Point.t) (wd ht r1 r2 B : R) (p : Particle.t) :
  8.2 <= B -> 0 <= r1 < 1 -> 0 <= r2 < 1 ->
  finite_particle p -> touch = true \/ clear_of m p ->
  slow B p -> slow B (Step.step touch m wd ht r1 r2 p).
Proof.
  intros HB Hr1 Hr2 Hf Hc (u & v & Eu & Ev & Hu & Hv). destruct_finite p.
  cbn in Eu, Ev. injection Eu as ->. injection Ev as ->.
  destruct (repel_bounded touch m _ _ u v prad palpha Hc) as (c' & d' & E & Hc' & Hd').
  unfold Step.step. rewrite E, tail_Num. unfold slow. cbn [Particle.vx Particle.vy].
  eexists; eexists. split; [reflexivity|]. split; [reflexivity|]. lra.
Qed.

Lemma step_all_slow (touch : bool) (m : Point.t) (wd ht B : R) (r : nat -> R)
    (k : nat) (ps : list Particle.t) :
  8.2 <= B -> (forall i, 0 <= r i < 1) ->
  Forall finite_particle ps ->
  touch = true \/ Forall (clear_of m) ps ->
  Forall (slow B) ps ->
  Forall (slow B) (Particles.step_all touch m wd ht r k ps).
Proof.
  intros HB Hr Hf. revert k. induction Hf as [|p tl Hp Htl IH]; intros k Hc Hs; cbn.
  - constructor.
  - inversion Hs as [|? ? Hs1 Hs2]; subst. constructor.
    + apply step_slow; auto.
      destruct Hc as [Hc | Hc]; [now left | right; now inversion Hc].
    + apply IH; [|exact Hs2].
      destruct Hc as [Hc | Hc]; [now left | right; now inversion Hc].
Qed.

(** X1: damping bounds the velocity.  If every velocity component is within
    [-B, B] for some [B >= 8.2] before a live run of [loop], it is so after it,
    whatever the pointer and the drift do (particles holding finite numbers,
    none exactly on the pointer where it repels). *)
Theorem velocity_stays_bounded :
  forall (h : Host.t) (s : Particles.t) (c : Host.Canvas) (B : R),
    Particles.running s = true -> Particles.ctx s = true ->
    Particles.canvas s = Some c ->
    8.2 <= B ->
    (forall i, 0 <= Host.random (Host.env h) i < 1) ->
    Forall finite_particle (Particles.particles s) ->
    Host.isTouchDevice h = true
      \/ Forall (clear_of (Particles.mouse s)) (Particles.particles s) ->
    Forall (slow B) (Particles.particles s) ->
    Forall (slow B) (Particles.particles (snd (state_of (Particles.loop (h, s))))).
Proof.
  intros h s c B Hr Hx Hc HB Hrand Hf Hclear Hs.
  rewrite (loop_particles h s c Hr Hx Hc). now apply step_all_slow.
Qed.

Lemma velocity_stays_bounded_witness :
  Forall (slow 8.2)
    (Particles.particles
       (snd (state_of (Particles.loop (Host.initial desktop_env 800 600, live_field))))).
Proof.
  apply (velocity_stays_bounded (Host.initial desktop_env 800 600) live_field
           (Host.mkCanvas 800 600) 8.2).
  - reflexivity.
  - reflexivity.
  - reflexivity.
  - lra.
  - intros i. cbn. lra.
  - repeat constructor.
  - right. repeat constructor. intros [H _]. cbn in H. injection H as H. lra.
  - repeat constructor. exists (-1), 0. cbn. repeat split; try lra; f_equal; lra.
Defined.

(** X2: the repulsion pushes away and never pulls.  On a desktop, for a
    particle nearer than 120 to the pointer and not on it, the velocity gains
    [k] times the offset from the pointer with [k > 0]; the gain has length
    [0.12 * (120 - dist) / 120], below [0.12]; position, radius and alpha are
    untouched. *)
Theorem repulsion_pushes_away :
  forall (mx my a b c d : R) (r al : num),
    (a - mx) * (a - mx) + (b - my) * (b - my) < 14400 ->
    ~ (a = mx /\ b = my) ->
    exists k : R,
      0 < k
      /\ Step.repel false (Point.mk mx my) (Particle.mk a b c d r al)
         = Particle.mk a b (Num (c + k * (a - mx))) (Num (d + k * (b - my))) r al
      /\ norm2 (k * (a - mx)) (k * (b - my))
         = 0.12 * ((120 - norm2 (a - mx) (b - my)) / 120)
      /\ norm2 (k * (a - mx)) (k * (b - my)) < 0.12.
Proof.
  intros mx my a b c d r al Hlt Hne.
  destruct (repel_near_impulse mx my a b c d r al Hlt Hne) as (Hd & k & Hk & Hkd & E).
  exists k. split; [exact Hk|]. split; [exact E|].
  rewrite norm2_scale by lra. rewrite Hkd. split; [reflexivity | lra].
Qed.

Lemma repulsion_pushes_away_witness :
  exists k : R,
    0 < k
    /\ Step.repel false (Point.mk 100 100) (Particle.mk 110 100 0 0 1 0.2)
       = Particle.mk 110 100 (Num (0 + k * (110 - 100))) (Num (0 + k * (100 - 100))) 1 0.2
    /\ norm2 (k * (110 - 100)) (k * (100 - 100))
       = 0.12 * ((120 - norm2 (110 - 100) (100 - 100)) / 120)
    /\ norm2 (k * (110 - 100)) (k * (100 - 100)) < 0.12.
Proof.
  apply (repulsion_pushes_away 100 100 110 100 0 0 1 0.2).
  - lra.
  - lra.
Defined.



(** * Further properties of the page *)

Lemma spawn_loop_length (c : Host.Canvas) (r : nat -> R) (k n : nat) :
  length (Particles.spawn_loop c r k n) = n.
Proof.
  revert k. induction n as [|n IH]; intros k; cbn; [reflexivity | now rewrite IH].
Qed.

Lemma adaptive_count_cap (touch : bool) (area : Z) :
  (Z.to_nat (Particles.adaptive_count touch area) <= 70)%nat.
Proof. unfold Particles.adaptive_count. destruct touch; lia. Qed.

Lemma spawn_length (n : Z) (pg : Page) :
  Particles.canvas (field pg) <> None ->
  length (Particles.particles (field (call (Particles.spawn n) pg))) = Z.to_nat n.
Proof.
  intros Hc. unfold call, Particles.spawn. destruct (Z.to_nat n) eqn:E; [reflexivity|].
  destruct (Particles.canvas (field pg)); [|contradiction].
  cbn. now rewrite spawn_loop_length.
Qed.

Lemma load_length (pg : Page) :
  (length (Particles.particles (field pg)) <= 70)%nat ->
  (length (Particles.particles (field (dispatch DOMContentLoaded pg))) <= 70)%nat.
Proof.
  intros H. cbn [dispatch]. unfold onDOMContentLoaded.
  destruct (Host.isTouchDevice (host pg)); [exact H|].
  set (p := startSharedLoop (with_cursor (Cursor.init (Host.env (host pg))) pg)).
  assert (Hp : Particles.particles (field p) = Particles.particles (field pg)).
  { unfold p, startSharedLoop. destruct (rafRunning _); reflexivity. }
  destruct (Host.canvasEl (Host.env (host p))) as [c|] eqn:Ec.
  - destruct (Host.prefersReducedMotion (host p)) eqn:Hm.
    + rewrite init_dead by (now right). cbn. now rewrite Hp.
    + rewrite (init_live p c Ec Hm). cbv zeta.
      rewrite start_length, spawn_length by (cbn; discriminate).
      apply adaptive_count_cap.
  - rewrite init_dead by (now left). cbn. now rewrite Hp.
Qed.

Lemma run_length_cap (evs : list Event) (pg : Page) :
  (length (Particles.particles (field pg)) <= 70)%nat ->
  (length (Particles.particles (field (run evs pg))) <= 70)%nat.
Proof.
  revert pg. induction evs as [|ev tl IH]; intros pg H; cbn; [exact H|].
  apply IH. destruct (is_load ev) eqn:E.
  - destruct ev; try discriminate. now apply load_length.
  - now rewrite dispatch_length.
Qed.

(** X4: the adaptive count keeps the pair loop affordable.  Whatever the
    window size and whatever happens on the page, the field never holds more
    than 70 particles, so the threshold of the connection pass is never
    reached and on a desktop the pass always visits every pair. *)
Theorem particle_count_capped :
  forall (e : Host.Env) (wd ht : Z) (evs : list Event) (cd : num),
    (length (Particles.particles (field (run evs (initialPage e wd ht)))) <= 70)%nat
    /\ Particles.connections false cd
         (Particles.particles (field (run evs (initialPage e wd ht))))
       = flat_map
           (fun ij =>
              Particles.connect cd
                (nth (fst ij) (Particles.particles (field (run evs (initialPage e wd ht))))
                   Particles.nowhere)
                (nth (snd ij) (Particles.particles (field (run evs (initialPage e wd ht))))
                   Particles.nowhere))
           (Particles.pair_indices
              (length (Particles.particles (field (run evs (initialPage e wd ht)))))).
Proof.
  intros e wd ht evs cd.
  assert (H : (length (Particles.particles (field (run evs (initialPage e wd ht)))) <= 70)%nat).
  { apply run_length_cap. cbn. lia. }
  split; [exact H|].
  unfold Particles.connections.
  replace (length (Particles.particles (field (run evs (initialPage e wd ht)))) <? 80)%nat
    with true; [reflexivity|].
  symmetry. apply Nat.ltb_lt. lia.
Qed.




(** ** A hidden tab *)

Lemma paused_loop (ps : list Particle.t) (d : list Host.DrawCmd) (pg : Page) :
  paused ps d pg -> call Particles.loop pg = pg.
Proof.
  intros (Hr & _). apply call_unchanged. unfold Particles.loop. now rewrite Hr.
Qed.

Lemma paused_stop (ps : list Particle.t) (d : list Host.DrawCmd) (pg : Page) :
  paused ps d pg -> paused ps d (call Particles.stop pg).
Proof.
  intros (Hr & Hc & Hp & Hd). unfold paused, call, Particles.stop.
  destruct (Particles.raf (field pg)) as [rid|]; [destruct (rid =? 0)%nat|]; cbn;
    repeat split; auto.
  now apply count_remove_zero.
Qed.

Lemma paused_dispatch (ps : list Particle.t) (d : list Host.DrawCmd)
    (ev : Event) (pg : Page) :
  is_waking ev = false -> paused ps d pg -> paused ps d (dispatch ev pg).
Proof.
  intros Hev H. pose proof H as (Hr & Hc & Hp & Hd).
  destruct ev; try discriminate; cbn [dispatch].
  - unfold frame. apply run_callbacks_inv; [|exact H].
    intros id cb p (Hr' & Hc' & Hp' & Hd') Hl.
    assert (H1 : paused ps d (with_host (Host.cancelAnimationFrame id) p)).
    { unfold paused. cbn. repeat split; auto. now apply count_remove_zero. }
    destruct cb; cbn [invoke].
    + destruct H1 as (G1 & G2 & G3 & G4). unfold paused, tick. cbn.
      repeat split; auto. cbn in G2.
      fold (remove id (Host.rafQueue (host p))) in *.
      rewrite count_app, count_one, G2. reflexivity.
    + now rewrite (paused_loop ps d).
    + exact H1.
  - apply iter_inv; [|unfold paused; cbn; repeat split; auto].
    intros p (G1 & G2 & G3 & G4). unfold paused, call, Particles.resize.
    destruct (Particles.canvas (field p)); cbn; repeat split; auto.
  - apply iter_inv; [intros p Hq; exact Hq|].
    apply iter_inv; [intros p Hq; exact Hq | exact H].
  - apply iter_inv; [intros p Hq; exact Hq | exact H].
  - apply iter_inv; [intros p Hq; exact Hq | exact H].
  - apply iter_inv; [intros p Hq; exact Hq | exact H].
  - exact H.
  - destruct hidden; [|discriminate].
    apply iter_inv; [apply paused_stop | exact H].
  - unfold paused. cbn. repeat split; auto. rewrite count_app, count_one, Hc. reflexivity.
  - unfold startSharedLoop. destruct (rafRunning pg); [exact H|].
    unfold paused. cbn. repeat split; auto. rewrite count_app, count_one, Hc. reflexivity.
  - now apply paused_stop.
Qed.

Lemma paused_run (ps : list Particle.t) (d : list Host.DrawCmd)
    (evs : list Event) (pg : Page) :
  forallb (fun ev => negb (is_waking ev)) evs = true ->
  paused ps d pg -> paused ps d (run evs pg).
Proof.
  revert pg. induction evs as [|ev tl IH]; intros pg H Hp; cbn; [exact Hp|].
  cbn in H. apply andb_true_iff in H. destruct H as [H1 H2].
  apply IH; [exact H2|]. apply paused_dispatch; [|exact Hp].
  now apply negb_true_iff in H1.
Qed.

Lemma stop_drawn (pg : Page) :
  Host.drawn (host (call Particles.stop pg)) = Host.drawn (host pg).
Proof.
  unfold call, Particles.stop.
  destruct (Particles.raf (field pg)) as [rid|]; [destruct (rid =? 0)%nat|]; reflexivity.
Qed.

Lemma stop_pauses (pg : Page) :
  wf pg ->
  paused (Particles.particles (field pg)) (Host.drawn (host pg)) (call Particles.stop pg).
Proof.
  intros Hwf. destruct (stop_particles pg) as (Ep & Er & _).
  unfold paused. rewrite Ep, Er, stop_drawn. repeat split.
  apply count_zero. intros id Hin.
  destruct (wf_stop pg Hwf) as (_ & _ & (F1 & _)).
  destruct (F1 id Hin) as [Hrun _]. congruence.
Qed.

(** X6: a hidden tab is really paused.  Once [init] has registered the
    visibility handler, hiding the tab stops the field, and until the tab is
    shown again (or [start] is called, or the page loads anew) no frame, resize,
    pointer or scroll event moves a particle, paints anything or queues a loop
    callback. *)
Theorem hidden_tab_pauses :
  forall (e : Host.Env) (wd ht : Z) (before during : list Event),
    (1 <= Particles.visibilityListeners (field (run before (initialPage e wd ht))))%nat ->
    forallb (fun ev => negb (is_waking ev)) during = true ->
    Particles.particles
      (field (run during (dispatch (VisibilityChange true)
                            (run before (initialPage e wd ht)))))
      = Particles.particles (field (run before (initialPage e wd ht)))
    /\ Host.drawn
         (host (run during (dispatch (VisibilityChange true)
                              (run before (initialPage e wd ht)))))
       = Host.drawn (host (run before (initialPage e wd ht)))
    /\ Particles.running
         (field (run during (dispatch (VisibilityChange true)
                               (run before (initialPage e wd ht))))) = false
    /\ Host.pending Host.ParticlesLoop
         (host (run during (dispatch (VisibilityChange true)
                              (run before (initialPage e wd ht))))) = 0%nat.
Proof.
  intros e wd ht before during Hl Hev.
  set (pg := run before (initialPage e wd ht)) in *.
  assert (Hwf : wf pg) by (apply wf_run, wf_initial).
  assert (H1 : paused (Particles.particles (field pg)) (Host.drawn (host pg))
                 (dispatch (VisibilityChange true) pg)).
  { cbn [dispatch Particles.on_visibilitychange].
    destruct (Particles.visibilityListeners (field pg)) as [|n]; [lia|].
    change (Nat.iter (S n) (call Particles.stop) pg)
      with (call Particles.stop (Nat.iter n (call Particles.stop) pg)).
    assert (Hq : wf (Nat.iter n (call Particles.stop) pg)
                 /\ Particles.particles (field (Nat.iter n (call Particles.stop) pg))
                    = Particles.particles (field pg)
                 /\ Host.drawn (host (Nat.iter n (call Particles.stop) pg))
                    = Host.drawn (host pg)).
    { apply (iter_inv (fun p => wf p
                        /\ Particles.particles (field p) = Particles.particles (field pg)
                        /\ Host.drawn (host p) = Host.drawn (host pg))).
      - intros p (W & Ep & Ed). split; [now apply wf_stop|].
        destruct (stop_particles p) as (Ep' & _). now rewrite Ep', stop_drawn.
      - auto. }
    destruct Hq as (W & Ep & Ed). rewrite <- Ep, <- Ed. now apply stop_pauses. }
  destruct (paused_run _ _ during _ Hev H1) as (G1 & G2 & G3 & G4).
  rewrite pending_count. auto.
Qed.

Lemma hidden_tab_pauses_witness :
  Particles.particles
    (field (run [Frame; MouseMove 10 10; Frame; Resize 640 480; Scroll; Frame]
              (dispatch (VisibilityChange true)
                 (run [DOMContentLoaded; Frame] (initialPage small_window_env 150 100)))))
  = Particles.particles (field (run [DOMContentLoaded; Frame]
                                  (initialPage small_window_env 150 100))).
Proof.
  apply (hidden_tab_pauses small_window_env 150 100 [DOMContentLoaded; Frame]
           [Frame; MouseMove 10 10; Frame; Resize 640 480; Scroll; Frame]).
  - apply le_n.
  - reflexivity.
Defined.

(** ** Hover state and scrolling *)

Lemma update_keeps_flags (c : Cursor.t) :
  Cursor.hovering (Cursor.update c) = Cursor.hovering c
  /\ Cursor.scrolling (Cursor.update c) = Cursor.scrolling c
  /\ Cursor.scrollTimer (Cursor.update c) = Cursor.scrollTimer c
  /\ Cursor.mouse (Cursor.update c) = Cursor.mouse c
  /\ Cursor.hasMoved (Cursor.update c) = Cursor.hasMoved c
  /\ Cursor.listeners (Cursor.update c) = Cursor.listeners c.
Proof.
  unfold Cursor.update.
  destruct (negb (Cursor.el c) || negb (Cursor.hasMoved c)); [repeat split|].
  destruct (Cursor.glow c); repeat split.
Qed.

Lemma mid_scroll_dispatch (hv : bool) (ev : Event) (pg : Page) :
  is_scroll_quiet ev = false ->
  mid_scroll hv (cursor pg) -> mid_scroll hv (cursor (dispatch ev pg)).
Proof.
  intros Hev H. pose proof H as (H1 & H2 & H3).
  assert (Hiter : forall n f p,
            (forall c, mid_scroll hv c -> mid_scroll hv (f c)) ->
            mid_scroll hv (cursor p) ->
            mid_scroll hv (cursor (Nat.iter n (with_cursor f) p))).
  { intros n f p Hf Hp. rewrite cursor_iter_with.
    induction n as [|n IH]; cbn; auto. }
  destruct ev; try discriminate; cbn [dispatch].
  - unfold onDOMContentLoaded. destruct (Host.isTouchDevice (host pg)); [exact H|].
    change (mid_scroll hv
              (cursor (startSharedLoop (with_cursor (Cursor.init (Host.env (host pg))) pg)))).
    assert (E : forall p, cursor (startSharedLoop p) = cursor p).
    { intros p. unfold startSharedLoop. destruct (rafRunning p); reflexivity. }
    rewrite E. cbn. unfold Cursor.init.
    destruct (Host.touch _); [exact H|]. cbn.
    destruct (Host.cursorEl _); cbn; exact H.
  - unfold frame.
    apply (run_callbacks_inv (fun p => mid_scroll hv (cursor p))); [|exact H].
    intros id cb p (G1 & G2 & G3) _. destruct cb; cbn [invoke]; try (split; [|split]; assumption).
    unfold tick. cbn.
    destruct (update_keeps_flags (cursor p)) as (E1 & E2 & E3 & _).
    unfold mid_scroll. now rewrite E1, E2, E3.
  - rewrite cursor_iter_call. exact H.
  - rewrite cursor_iter_call. apply Hiter; [|exact H].
    intros c (G1 & G2 & G3). unfold mid_scroll, Cursor.on_mousemove.
    destruct (negb (Cursor.hasMoved c)); cbn; auto.
  - apply Hiter; [|exact H].
    intros c (G1 & G2 & G3). unfold Cursor.on_mouseover. rewrite G1. now split.
  - apply Hiter; [|exact H].
    intros c (G1 & G2 & G3). unfold Cursor.on_mouseout. rewrite G1. now split.
  - apply Hiter; [|exact H].
    intros c (G1 & G2 & G3). unfold mid_scroll, Cursor.on_scroll. cbn. auto.
  - rewrite cursor_iter_call. exact H.
  - exact H.
  - unfold startSharedLoop. destruct (rafRunning pg); exact H.
  - exact H.
  - exact H.
Qed.

Lemma mid_scroll_run (hv : bool) (evs : list Event) (pg : Page) :
  forallb (fun ev => negb (is_scroll_quiet ev)) evs = true ->
  mid_scroll hv (cursor pg) -> mid_scroll hv (cursor (run evs pg)).
Proof.
  revert pg. induction evs as [|ev tl IH]; intros pg H Hp; cbn; [exact Hp|].
  cbn in H. apply andb_true_iff in H. destruct H as [H1 H2].
  apply IH; [exact H2|]. apply mid_scroll_dispatch; [|exact Hp].
  now apply negb_true_iff in H1.
Qed.

Lemma scroll_begins (pg : Page) :
  (1 <= Cursor.listeners (cursor pg))%nat ->
  mid_scroll (Cursor.hovering (cursor pg)) (cursor (dispatch Scroll pg)).
Proof.
  intros Hl. cbn [dispatch]. rewrite cursor_iter_with.
  destruct (Cursor.listeners (cursor pg)) as [|n]; [lia|]. clear Hl.
  induction n as [|n IH].
  - cbn. repeat split.
  - change (Nat.iter (S (S n)) Cursor.on_scroll (cursor pg))
      with (Cursor.on_scroll (Nat.iter (S n) Cursor.on_scroll (cursor pg))).
    destruct IH as (G1 & G2 & G3). unfold mid_scroll, Cursor.on_scroll. cbn. auto.
Qed.

(** X7: no hover flicker while the page scrolls.  After a scroll event and
    until the quiet-period timeout fires, no pointer event (over, out, move),
    frame or further scroll changes the hovering flag. *)
Theorem scroll_suppresses_hover :
  forall (pg : Page) (evs : list Event),
    (1 <= Cursor.listeners (cursor pg))%nat ->
    forallb (fun ev => negb (is_scroll_quiet ev)) evs = true ->
    Cursor.hovering (cursor (run evs (dispatch Scroll pg))) = Cursor.hovering (cursor pg)
    /\ Cursor.scrolling (cursor (run evs (dispatch Scroll pg))) = true.
Proof.
  intros pg evs Hl Hev.
  destruct (mid_scroll_run _ evs _ Hev (scroll_begins pg Hl)) as (G1 & G2 & G3).
  now split.
Qed.

Lemma scroll_suppresses_hover_witness :
  Cursor.hovering
    (cursor (run [MouseOver true; Frame; MouseOut true; Scroll; MouseOver true; MouseMove 5 5]
               (dispatch Scroll (dispatch DOMContentLoaded (initialPage desktop_env 800 600)))))
  = false.
Proof.
  apply (scroll_suppresses_hover (dispatch DOMContentLoaded (initialPage desktop_env 800 600))
           [MouseOver true; Frame; MouseOut true; Scroll; MouseOver true; MouseMove 5 5]).
  - apply le_n.
  - reflexivity.
Defined.

(** Handlers are only ever added. *)
Lemma listeners_dispatch (ev : Event) (q : Page) :
  (Cursor.listeners (cursor q) <= Cursor.listeners (cursor (dispatch ev q)))%nat.
Proof.
  assert (Hit : forall n f r,
            (forall c, Cursor.listeners (f c) = Cursor.listeners c) ->
            Cursor.listeners (cursor (Nat.iter n (with_cursor f) r))
            = Cursor.listeners (cursor r)).
  { intros n f r Hf. rewrite cursor_iter_with.
    induction n as [|n IH]; cbn; [reflexivity | now rewrite Hf]. }
  destruct ev; cbn [dispatch].
  - unfold onDOMContentLoaded. destruct (Host.isTouchDevice (host q)); [lia|].
    change (Cursor.listeners (cursor q)
            <= Cursor.listeners
                 (cursor (startSharedLoop
                            (with_cursor (Cursor.init (Host.env (host q))) q))))%nat.
    unfold startSharedLoop. destruct (rafRunning _); cbn; unfold Cursor.init;
      destruct (Host.touch _); cbn; try lia; destruct (Host.cursorEl _); cbn; lia.
  - unfold frame.
    apply (run_callbacks_inv
             (fun r => (Cursor.listeners (cursor q) <= Cursor.listeners (cursor r))%nat));
      [|lia].
    intros id cb r Hr _. destruct cb; cbn [invoke]; try exact Hr.
    unfold tick. cbn. destruct (update_keeps_flags (cursor r)) as (_ & _ & _ & _ & _ & E).
    now rewrite E.
  - rewrite cursor_iter_call. cbn. lia.
  - rewrite cursor_iter_call, Hit; [lia|].
    intros c. unfold Cursor.on_mousemove. destruct (negb (Cursor.hasMoved c)); reflexivity.
  - rewrite Hit; [lia|]. intros c. unfold Cursor.on_mouseover.
    destruct (Cursor.scrolling c), interactive; reflexivity.
  - rewrite Hit; [lia|]. intros c. unfold Cursor.on_mouseout.
    destruct (Cursor.scrolling c), interactive; reflexivity.
  - rewrite Hit; [lia|]. reflexivity.
  - cbn. unfold Cursor.on_scroll_quiet. destruct (Cursor.scrollTimer (cursor q)); cbn; lia.
  - rewrite cursor_iter_call. lia.
  - cbn. lia.
  - unfold startSharedLoop. destruct (rafRunning q); cbn; lia.
  - cbn. lia.
  - cbn. lia.
Qed.

Lemma listeners_run (evs : list Event) (q : Page) :
  (Cursor.listeners (cursor q) <= Cursor.listeners (cursor (run evs q)))%nat.
Proof.
  revert q. induction evs as [|ev tl IH]; intros q; [cbn; lia|].
  change (run (ev :: tl) q) with (run tl (dispatch ev q)).
  specialize (IH (dispatch ev q)). pose proof (listeners_dispatch ev q). lia.
Qed.

Lemma hover_iter (n : nat) (c : Cursor.t) :
  Cursor.scrolling c = false ->
  Cursor.hovering (Nat.iter (S n) (Cursor.on_mouseover true) c) = true
  /\ Cursor.hovering (Nat.iter (S n) (Cursor.on_mouseout true) c) = false.
Proof.
  intros Hs.
  assert (H : forall k,
            (Cursor.hovering (Nat.iter (S k) (Cursor.on_mouseover true) c) = true
             /\ Cursor.scrolling (Nat.iter (S k) (Cursor.on_mouseover true) c) = false)
            /\ (Cursor.hovering (Nat.iter (S k) (Cursor.on_mouseout true) c) = false
                /\ Cursor.scrolling (Nat.iter (S k) (Cursor.on_mouseout true) c) = false)).
  { induction k as [|k [[I1 I2] [I3 I4]]].
    - cbn [Nat.iter nat_rect]. unfold Cursor.on_mouseover, Cursor.on_mouseout.
      rewrite Hs. cbn. auto.
    - change (Nat.iter (S (S k)) (Cursor.on_mouseover true) c)
        with (Cursor.on_mouseover true (Nat.iter (S k) (Cursor.on_mouseover true) c)).
      change (Nat.iter (S (S k)) (Cursor.on_mouseout true) c)
        with (Cursor.on_mouseout true (Nat.iter (S k) (Cursor.on_mouseout true) c)).
      unfold Cursor.on_mouseover at 1 3. unfold Cursor.on_mouseout at 1 3.
      rewrite I2, I4. cbn [Cursor.hovering Cursor.scrolling Cursor.set_hover]. auto. }
  destruct (H n) as [[H1 _] [H2 _]]. now split.
Qed.

(** X8: when the scrolling ends the hover state is recomputed once.  However
    the pointer moved over elements during the scroll, when the timeout fires
    the hovering flag becomes exactly whether the element under the pointer is
    interactive, the scrolling flag is cleared, and pointer-over and
    pointer-out events count again. *)
Theorem scroll_end_recomputes_hover :
  forall (pg : Page) (evs : list Event) (hit : bool),
    (1 <= Cursor.listeners (cursor pg))%nat ->
    forallb (fun ev => negb (is_scroll_quiet ev)) evs = true ->
    Cursor.hovering
      (cursor (dispatch (ScrollQuiet hit) (run evs (dispatch Scroll pg)))) = hit
    /\ Cursor.scrolling
         (cursor (dispatch (ScrollQuiet hit) (run evs (dispatch Scroll pg)))) = false
    /\ Cursor.hovering
         (cursor (dispatch (MouseOver true)
                    (dispatch (ScrollQuiet hit) (run evs (dispatch Scroll pg))))) = true
    /\ Cursor.hovering
         (cursor (dispatch (MouseOut true)
                    (dispatch (ScrollQuiet hit) (run evs (dispatch Scroll pg))))) = false.
Proof.
  intros pg evs hit Hl Hev.
  destruct (mid_scroll_run _ evs _ Hev (scroll_begins pg Hl)) as (G1 & G2 & G3).
  set (p := run evs (dispatch Scroll pg)) in *.
  assert (Hn : (1 <= Cursor.listeners (cursor p))%nat).
  { unfold p. pose proof (listeners_run evs (dispatch Scroll pg)) as H1.
    pose proof (listeners_dispatch Scroll pg) as H2. lia. }
  assert (Eq : cursor (dispatch (ScrollQuiet hit) p)
               = Cursor.set_hover hit false false (cursor p)).
  { cbn. unfold Cursor.on_scroll_quiet. now rewrite G2. }
  assert (Hl' : Cursor.listeners (cursor (dispatch (ScrollQuiet hit) p))
                = Cursor.listeners (cursor p)) by now rewrite Eq.
  split; [now rewrite Eq|]. split; [now rewrite Eq|].
  assert (Eover : forall q, cursor (dispatch (MouseOver true) q)
                  = Nat.iter (Cursor.listeners (cursor q)) (Cursor.on_mouseover true) (cursor q))
    by (intros q; apply cursor_iter_with).
  assert (Eout : forall q, cursor (dispatch (MouseOut true) q)
                 = Nat.iter (Cursor.listeners (cursor q)) (Cursor.on_mouseout true) (cursor q))
    by (intros q; apply cursor_iter_with).
  rewrite Eover, Eout, Hl'.
  assert (Hs : Cursor.scrolling (cursor (dispatch (ScrollQuiet hit) p)) = false)
    by now rewrite Eq.
  destruct (Cursor.listeners (cursor p)) as [|n]; [lia|].
  split; [now apply hover_iter | now apply hover_iter].
Qed.

Lemma scroll_end_recomputes_hover_witness :
  Cursor.hovering
    (cursor (dispatch (ScrollQuiet true)
               (run [MouseOver true; MouseOut true; Scroll; Frame]
                  (dispatch Scroll
                     (dispatch DOMContentLoaded (initialPage desktop_env 800 600))))))
  = true.
Proof.
  assert (Hl : (1 <= Cursor.listeners
                      (cursor (dispatch DOMContentLoaded (initialPage desktop_env 800 600))))%nat)
    by apply le_n.
  exact (proj1 (scroll_end_recomputes_hover
                  (dispatch DOMContentLoaded (initialPage desktop_env 800 600))
                  [MouseOver true; MouseOut true; Scroll; Frame] true Hl eq_refl)).
Defined.

(** ** Pointer samples after the first *)

Lemma mousemove_later (n : nat) (cx cy : num) (c : Cursor.t) :
  Cursor.hasMoved c = true ->
  let c' := Nat.iter n (Cursor.on_mousemove cx cy) c in
  Cursor.pos c' = Cursor.pos c /\ Cursor.glowPos c' = Cursor.glowPos c
  /\ Cursor.hasMoved c' = true
  /\ Cursor.elTransform c' = Cursor.elTransform c
  /\ Cursor.glowTransform c' = Cursor.glowTransform c
  /\ ((1 <= n)%nat -> Cursor.mouse c' = Point.mk cx cy).
Proof.
  intros Hm. cbv zeta. induction n as [|n IH].
  - cbn. repeat split; auto. lia.
  - change (Nat.iter (S n) (Cursor.on_mousemove cx cy) c)
      with (Cursor.on_mousemove cx cy (Nat.iter n (Cursor.on_mousemove cx cy) c)).
    set (d := Nat.iter n (Cursor.on_mousemove cx cy) c) in *.
    destruct IH as (E1 & E2 & E3 & E4 & E5 & _).
    unfold Cursor.on_mousemove. rewrite E3. cbn. repeat split; auto.
Qed.

Lemma field_mousemove_iter (n : nat) (cx cy : num) (pg : Page) :
  let p := Nat.iter n (call (Particles.on_mousemove cx cy)) pg in
  cursor p = cursor pg /\ host p = host pg
  /\ Particles.particles (field p) = Particles.particles (field pg)
  /\ ((1 <= n)%nat -> Particles.mouse (field p) = Point.mk cx cy).
Proof.
  cbv zeta. induction n as [|n IH].
  - cbn. repeat split; auto. lia.
  - change (Nat.iter (S n) (call (Particles.on_mousemove cx cy)) pg)
      with (call (Particles.on_mousemove cx cy)
              (Nat.iter n (call (Particles.on_mousemove cx cy)) pg)).
    destruct IH as (E1 & E2 & E3 & _). cbn. repeat split; auto.
Qed.

(** X9: after the first sample a pointer move only retargets.  Once the
    follower has moved, a [mousemove] leaves both lagged positions, both
    written transforms and every particle where they are; it sets the
    follower's target, and the field's pointer where the field listens. *)
Theorem later_samples_only_retarget :
  forall (pg : Page) (clientX clientY : R),
    Cursor.hasMoved (cursor pg) = true ->
    (1 <= Cursor.listeners (cursor pg))%nat ->
    Cursor.mouse (cursor (dispatch (MouseMove clientX clientY) pg))
      = Point.mk clientX clientY
    /\ Cursor.pos (cursor (dispatch (MouseMove clientX clientY) pg)) = Cursor.pos (cursor pg)
    /\ Cursor.glowPos (cursor (dispatch (MouseMove clientX clientY) pg))
       = Cursor.glowPos (cursor pg)
    /\ Cursor.elTransform (cursor (dispatch (MouseMove clientX clientY) pg))
       = Cursor.elTransform (cursor pg)
    /\ Cursor.glowTransform (cursor (dispatch (MouseMove clientX clientY) pg))
       = Cursor.glowTransform (cursor pg)
    /\ Particles.particles (field (dispatch (MouseMove clientX clientY) pg))
       = Particles.particles (field pg)
    /\ ((1 <= Particles.mouseListeners (field pg))%nat ->
        Particles.mouse (field (dispatch (MouseMove clientX clientY) pg))
        = Point.mk clientX clientY).
Proof.
  intros pg cx cy Hm Hl. cbn [dispatch].
  set (q := Nat.iter (Cursor.listeners (cursor pg))
              (with_cursor (Cursor.on_mousemove cx cy)) pg).
  assert (Ef : forall n, field (Nat.iter n (with_cursor (Cursor.on_mousemove cx cy)) pg)
                         = field pg).
  { induction n as [|n IH]; [reflexivity | exact IH]. }
  specialize (Ef (Cursor.listeners (cursor pg))). fold q in Ef.
  assert (Ec : cursor q = Nat.iter (Cursor.listeners (cursor pg))
                            (Cursor.on_mousemove cx cy) (cursor pg))
    by apply cursor_iter_with.
  destruct (field_mousemove_iter (Particles.mouseListeners (field pg)) cx cy q)
    as (G1 & _ & G3 & G4).
  destruct (mousemove_later (Cursor.listeners (cursor pg)) cx cy (cursor pg) Hm)
    as (E1 & E2 & _ & E4 & E5 & E6).
  rewrite G1, Ec, G3, Ef. repeat split; auto.
Qed.

Lemma later_samples_only_retarget_witness :
  Cursor.mouse
    (cursor (dispatch (MouseMove 30 40)
               (run [DOMContentLoaded; MouseMove 10 10; Frame]
                  (initialPage desktop_env 800 600))))
  = Point.mk 30 40.
Proof.
  assert (Hl : (1 <= Cursor.listeners
                      (cursor (run [DOMContentLoaded; MouseMove 10 10; Frame]
                                 (initialPage desktop_env 800 600))))%nat)
    by apply le_n.
  exact (proj1 (later_samples_only_retarget
                  (run [DOMContentLoaded; MouseMove 10 10; Frame]
                     (initialPage desktop_env 800 600)) 30 40 eq_refl Hl)).
Defined.

(** ** Interpolation and clamping *)



(** X11: [lerp] starts at [a], ends at [b], and for [t] in [0, 1] stays
    between the two; it is affine in [t]. *)
Theorem lerp_between :
  forall a b t : R,
    lerp (Num a) (Num b) (Num 0) = Num a
    /\ (exists e, lerp (Num a) (Num b) (Num 1) = Num e /\ e = b)
    /\ (0 <= t <= 1 ->
        exists v, lerp (Num a) (Num b) (Num t) = Num v /\ Rmin a b <= v <= Rmax a b)
    /\ (forall s : R,
          exists v w z,
            lerp (Num a) (Num b) (Num t) = Num v /\ lerp (Num a) (Num b) (Num s) = Num w
            /\ lerp (Num a) (Num b) (Num ((t + s) / 2)) = Num z /\ z = (v + w) / 2).
Proof.
  intros a b t. rewrite !lerp_Num. split; [f_equal; lra|].
  split; [eexists; split; [reflexivity | lra]|].
  split.
  - intros Ht. eexists. split; [reflexivity|].
    unfold Rmin, Rmax. destruct (Rle_dec a b); split; nra.
  - intros s. rewrite !lerp_Num. do 3 eexists. repeat split. lra.
Qed.

Lemma lerp_between_witness :
  exists v, lerp (Num 10) (Num 20) (Num 0.25) = Num v /\ Rmin 10 20 <= v <= Rmax 10 20.
Proof.
  apply (lerp_between 10 20 0.25). lra.
Defined.

(** X12: [clamp] puts a value into [min, max].  For finite arguments with
    [min <= max] the result lies in the range, is the value itself when that
    is in range, and clamping twice changes nothing; with [min > max] the
    result is [max]; with a [NaN] argument it is [NaN]. *)
Theorem clamp_range :
  forall v lo hi : R,
    (lo <= hi ->
     exists c, clamp (Num v) (Num lo) (Num hi) = Num c
               /\ lo <= c <= hi
               /\ (lo <= v <= hi -> c = v)
               /\ (v < lo -> c = lo) /\ (hi < v -> c = hi)
               /\ clamp (Num c) (Num lo) (Num hi) = Num c)
    /\ (hi < lo -> clamp (Num v) (Num lo) (Num hi) = Num hi)
    /\ clamp NaN (Num lo) (Num hi) = NaN
    /\ clamp (Num v) NaN (Num hi) = NaN
    /\ clamp (Num v) (Num lo) NaN = NaN.
Proof.
  intros v lo hi. unfold clamp, js_min, js_max.
  split; [|split; [|repeat split]].
  - intros H. eexists. split; [reflexivity|].
    unfold Rmin, Rmax.
    repeat match goal with
           | |- context [Rle_dec ?u ?w] => is_var u; is_var w; destruct (Rle_dec u w)
           end; repeat split; intros; try lra; f_equal; lra.
  - intros H. f_equal. unfold Rmin, Rmax.
    repeat match goal with
           | |- context [Rle_dec ?u ?w] => is_var u; is_var w; destruct (Rle_dec u w)
           end; lra.
Qed.

Lemma clamp_range_witness :
  exists c, clamp (Num 7) (Num 0) (Num 5) = Num c
            /\ 0 <= c <= 5
            /\ (0 <= 7 <= 5 -> c = 7)
            /\ (7 < 0 -> c = 0) /\ (5 < 7 -> c = 5)
            /\ clamp (Num c) (Num 0) (Num 5) = Num c.
Proof.
  apply (clamp_range 7 0 5). lra.
Defined.

(** ** A touch device *)

Lemma untouched_dispatch (ev : Event) (pg : Page) :
  is_direct_call ev = false -> untouched pg -> untouched (dispatch ev pg).
Proof.
  intros Hev H. pose proof H as (Hc & Hf & Hr & Hu & Hd & Hs & Hp & Ht).
  assert (Hl : Cursor.listeners (cursor pg) = 0%nat) by now rewrite Hc.
  assert (Hl1 : Particles.resizeListeners (field pg) = 0%nat) by now rewrite Hf.
  assert (Hl2 : Particles.mouseListeners (field pg) = 0%nat) by now rewrite Hf.
  assert (Hl3 : Particles.visibilityListeners (field pg) = 0%nat) by now rewrite Hf.
  destruct ev; try discriminate Hev; cbn [dispatch].
  - unfold onDOMContentLoaded. now rewrite Ht.
  - unfold frame. apply run_callbacks_inv; [|exact H].
    intros id cb p (Pc & Pf & Pr & Pu & Pd & Ps & Pp & Pt) Hlk.
    apply lookup_In in Hlk.
    destruct cb.
    + exfalso. exact (proj1 (count_zero _ _) Ps id Hlk).
    + exfalso. exact (proj1 (count_zero _ _) Pp id Hlk).
    + cbn [invoke]. unfold untouched. cbn.
      repeat split; auto; now apply count_remove_zero.
  - rewrite Hl1. cbn. unfold untouched. cbn. repeat split; auto.
  - rewrite Hl2, Hl. exact H.
  - rewrite Hl. exact H.
  - rewrite Hl. exact H.
  - rewrite Hl. exact H.
  - unfold untouched. cbn. rewrite Hc. cbn. repeat split; auto.
  - rewrite Hl3. exact H.
  - unfold untouched. cbn. rewrite !count_app, !count_one, Hs, Hp. cbn.
    repeat split; auto.
Qed.

Lemma untouched_run (evs : list Event) (pg : Page) :
  forallb (fun ev => negb (is_direct_call ev)) evs = true ->
  untouched pg -> untouched (run evs pg).
Proof.
  revert pg. induction evs as [|ev tl IH]; intros pg Hev H; [exact H|].
  cbn in Hev. apply andb_prop in Hev as [Hev Htl].
  change (run (ev :: tl) pg) with (run tl (dispatch ev pg)).
  apply IH; [exact Htl|]. apply untouched_dispatch; [|exact H].
  now destruct (is_direct_call ev).
Qed.

(** X13: on a touch device the heavy effects never start.  Whatever the
    browser delivers after the page is created (load, frames, resizes,
    pointer, scroll and visibility events, frame requests of other effects),
    the follower and the particle field stay in their initial state, no
    listener of theirs is registered, neither the shared tick nor the
    particle loop is ever queued, [Cursor.update] is never called and
    nothing is painted.  The touch branches inside [Particles.init] are
    therefore not reached from the page's own start-up. *)
Theorem touch_page_skips_heavy_effects :
  forall (e : Host.Env) (wd ht : Z) (evs : list Event),
    Host.touch e = true ->
    forallb (fun ev => negb (is_direct_call ev)) evs = true ->
    cursor (run evs (initialPage e wd ht)) = Cursor.initial
    /\ field (run evs (initialPage e wd ht)) = Particles.initial
    /\ rafRunning (run evs (initialPage e wd ht)) = false
    /\ cursorUpdates (run evs (initialPage e wd ht)) = 0%nat
    /\ Host.drawn (host (run evs (initialPage e wd ht))) = []
    /\ count Host.SharedTick (Host.rafQueue (host (run evs (initialPage e wd ht)))) = 0%nat
    /\ count Host.ParticlesLoop (Host.rafQueue (host (run evs (initialPage e wd ht)))) = 0%nat.
Proof.
  intros e wd ht evs Ht Hev.
  assert (H : untouched (run evs (initialPage e wd ht))).
  { apply untouched_run; [exact Hev|]. unfold untouched. cbn. repeat split; auto. }
  destruct H as (H1 & H2 & H3 & H4 & H5 & H6 & H7 & _). repeat split; assumption.
Qed.

Lemma touch_page_skips_heavy_effects_witness :
  cursor (run [DOMContentLoaded; MouseMove 10 10; Frame; Scroll; Resize 400 300;
               VisibilityChange true; VisibilityChange false; ForeignRequest; Frame]
            (initialPage touch_env 300 150)) = Cursor.initial.
Proof.
  exact (proj1 (touch_page_skips_heavy_effects touch_env 300 150
                  [DOMContentLoaded; MouseMove 10 10; Frame; Scroll; Resize 400 300;
                   VisibilityChange true; VisibilityChange false; ForeignRequest; Frame]
                  eq_refl eq_refl)).
Defined.

(** * The header *)

Lemma last_cons {A : Type} (a d : A) (l : list A) : last (a :: l) d = last l a.
Proof.
  revert a d. induction l as [|b tl IH]; intros a d; [reflexivity|].
  change (last (a :: b :: tl) d) with (last (b :: tl) d).
  now rewrite !IH.
Qed.

Lemma gt_Num (u v : R) : JsNum.gt (Num u) (Num v) = true <-> v < u.
Proof. unfold JsNum.gt. apply lt_Num. Qed.

Lemma onScroll_Num (y l : R) (e : Header.El) (n : nat) :
  Header.onScroll (Num y) (Header.mk (Some e) (Num l) n) =
  if Rlt_dec (Rabs (y - l)) 5
  then Ok tt (Header.mk (Some (Header.mkEl (JsNum.gt (Num y) (Num 80)) (Header.headerHidden e)))
                (Num l) n)
  else Ok tt (Header.mk
                (Some (Header.mkEl (JsNum.gt (Num y) (Num 80))
                         (JsNum.gt (Num y) (Num l) && JsNum.gt (Num y) (Num 80))))
                (Num y) n).
Proof.
  unfold Header.onScroll.
  cbn [Header.el Header.lastScroll Header.listeners js_abs JsNum.sub JsNum.lift2
       Header.delta Header.scrollThreshold JsNum.lt Header.scrolled].
  destruct (Rlt_dec (Rabs (y - l)) 5); reflexivity.
Qed.

Lemma header_after (y l : R) (e : Header.El) :
  (Header.headerHidden e = true -> 80 < l) ->
  header_tracks y (state_of (Header.onScroll (Num y) (Header.mk (Some e) (Num l) 1))).
Proof.
  intros Hh. rewrite onScroll_Num.
  destruct (Rlt_dec (Rabs (y - l)) 5) as [Hd | Hd]; cbn [state_of].
  - eexists; exists l. cbn. split; [reflexivity|]. repeat split; auto; apply gt_Num.
  - eexists; exists y. cbn. split; [reflexivity|]. repeat split; auto.
    + apply gt_Num.
    + apply gt_Num.
    + rewrite Rminus_diag, Rabs_R0. lra.
    + intros H. apply andb_prop in H as [_ H]. now apply gt_Num.
Qed.

Lemma header_step (y y' : R) (s : Header.t) :
  header_tracks y s -> header_tracks y' (Header.scroll s y').
Proof.
  intros (e & l & Ee & El & En & _ & _ & Hh).
  unfold Header.scroll. rewrite En.
  change (header_tracks y' (state_of (Header.onScroll (Num y') s))).
  destruct s as [se sl sn]. cbn in Ee, El, En. subst se sl sn.
  now apply header_after.
Qed.

Lemma header_init (e : Header.El) (y0 : R) :
  Header.headerHidden e = false ->
  header_tracks y0 (state_of (Header.init (Some e) (Num y0) Header.initial)).
Proof.
  intros Hh. unfold Header.init. cbn [Header.lastScroll Header.listeners Header.initial].
  apply header_after. rewrite Hh. discriminate.
Qed.

Lemma header_run (ys : list R) (y : R) (s : Header.t) :
  header_tracks y s -> header_tracks (last ys y) (fold_left Header.scroll ys s).
Proof.
  revert y s. induction ys as [|y' tl IH]; intros y s H; [exact H|].
  rewrite last_cons. cbn [fold_left]. apply IH. now apply (header_step y).
Qed.

(** X14: the header hides only past the threshold.  Loaded at any position
    and scrolled through any positions, with a header element that does not
    start hidden: the shrink class is on exactly when the current position is
    above 80; the remembered position is less than 5 away from the current
    one; and when the header is hidden the remembered position is above 80,
    so the current one is above 75.  Hidden without the shrink class is
    possible only between 75 and 80. *)
Theorem header_hidden_only_past_threshold :
  forall (e : Header.El) (y0 : R) (ys : list R),
    Header.headerHidden e = false ->
    exists (e' : Header.El) (l : R),
      Header.el (Header.run (Some e) y0 ys) = Some e'
      /\ Header.lastScroll (Header.run (Some e) y0 ys) = Num l
      /\ (Header.scrolled e' = true <-> 80 < last ys y0)
      /\ Rabs (last ys y0 - l) < 5
      /\ (Header.headerHidden e' = true -> 80 < l /\ 75 < last ys y0)
      /\ (Header.headerHidden e' = true -> Header.scrolled e' = false ->
          75 < last ys y0 <= 80).
Proof.
  intros e y0 ys Hh.
  destruct (header_run ys y0 _ (header_init e y0 Hh)) as (e' & l & Ee & El & _ & Hs & Hd & Hl).
  set (y := last ys y0) in *. apply Rabs_def2 in Hd as Hd'.
  exists e', l. unfold Header.run.
  split; [exact Ee|]. split; [exact El|]. split; [exact Hs|]. split; [exact Hd|].
  split.
  - intros H. specialize (Hl H). lra.
  - intros H Hn. specialize (Hl H). split; [lra|].
    destruct (Rle_dec y 80) as [Hle | Hgt]; [exact Hle|].
    assert (Hc : Header.scrolled e' = true) by (apply Hs; lra). congruence.
Qed.

Lemma header_hidden_only_past_threshold_witness :
  exists (e' : Header.El) (l : R),
    Header.el (Header.run (Some plain_header) 0 [40; 90; 100; 97; 78]) = Some e'
    /\ Header.lastScroll (Header.run (Some plain_header) 0 [40; 90; 100; 97; 78]) = Num l
    /\ (Header.scrolled e' = true <-> 80 < last [40; 90; 100; 97; 78] 0)
    /\ Rabs (last [40; 90; 100; 97; 78] 0 - l) < 5
    /\ (Header.headerHidden e' = true -> 80 < l /\ 75 < last [40; 90; 100; 97; 78] 0)
    /\ (Header.headerHidden e' = true -> Header.scrolled e' = false ->
        75 < last [40; 90; 100; 97; 78] 0 <= 80).
Proof.
  exact (header_hidden_only_past_threshold plain_header 0 [40; 90; 100; 97; 78] eq_refl).
Defined.

(** * The counters *)



















(** * Magnetic elements and tilt cards *)

Lemma magnetic_onMove_Num (x y l t w h : R) :
  Magnetic.onMove (Num x) (Num y) (finite_rect l t w h) =
  let dx := x - (l + w / 2) in
  let dy := y - (t + h / 2) in
  let d := norm2 dx dy in
  if Rlt_dec d 150
  then Some (Num (dx * (1 - d / 150) * 0.35), Num (dy * (1 - d / 150) * 0.35))
  else None.
Proof.
  unfold Magnetic.onMove, finite_rect, Magnetic.radius, norm2.
  cbn [Rect.left Rect.top Rect.width Rect.height JsNum.div JsNum.add JsNum.sub JsNum.mul
       JsNum.lift2].
  destruct (Req_dec_T 2 0) as [E | _]; [lra|].
  cbn [JsNum.add JsNum.sub JsNum.mul JsNum.lift2 JsNum.sqrt].
  set (dx := x - (l + w / 2)). set (dy := y - (t + h / 2)).
  destruct (Rlt_dec (dx * dx + dy * dy) 0) as [Hn | _]; [nra|].
  cbn [JsNum.lt JsNum.div].
  destruct (Rlt_dec (sqrt (dx * dx + dy * dy)) 150); [|reflexivity].
  destruct (Req_dec_T 150 0) as [E | _]; [lra|]. reflexivity.
Qed.

Lemma magnetic_onMove_within (x y : num) (rect : Rect.t) (m : num * num) :
  Magnetic.onMove x y rect = Some m -> within 13.125 m.
Proof.
  destruct x as [x|], y as [y|], rect as [[l|] [t|] [w|] [h|]];
    try (unfold Magnetic.onMove, Magnetic.radius;
         cbn [Rect.left Rect.top Rect.width Rect.height JsNum.div JsNum.add JsNum.sub
              JsNum.mul JsNum.lift2 JsNum.sqrt JsNum.lt];
         try destruct (Req_dec_T 2 0);
         cbn [JsNum.div JsNum.add JsNum.sub JsNum.mul JsNum.lift2 JsNum.sqrt JsNum.lt];
         discriminate).
  change (Rect.mk (Num l) (Num t) (Num w) (Num h)) with (finite_rect l t w h).
  rewrite magnetic_onMove_Num. cbv zeta.
  set (dx := x - (l + w / 2)). set (dy := y - (t + h / 2)). set (d := norm2 dx dy).
  destruct (Rlt_dec d 150) as [Hd | _]; [|discriminate].
  intros E. injection E as <-.
  pose proof (norm2_nonneg dx dy) as H0. pose proof (norm2_sqr dx dy) as Hsq. fold d in H0, Hsq.
  eexists; eexists. split; [reflexivity|].
  set (k := 1 - d / 150).
  assert (Hk0 : 0 <= k) by (unfold k; lra).
  assert (Hk : 0 <= d * k <= 37.5).
  { split; [now apply Rmult_le_pos|].
    assert (Ek : d * k = 37.5 - (d - 75) * (d - 75) / 150) by (unfold k; lra).
    pose proof (Rle_0_sqr (d - 75)) as Hs. unfold Rsqr in Hs. lra. }
  assert (E : dx * k * 0.35 * (dx * k * 0.35) + dy * k * 0.35 * (dy * k * 0.35)
              = (0.35 * (d * k)) * (0.35 * (d * k))).
  { transitivity (0.35 * 0.35 * (k * k) * (dx * dx + dy * dy)); [ring|].
    rewrite <- Hsq. ring. }
  rewrite E.
  assert (Hm : 0 <= 0.35 * (d * k) <= 13.125) by lra.
  nra.
Qed.

(** X17: the magnetic pull is bounded and points at the pointer.  A move
    within 150 px of the element's centre translates the element by [k]
    times the offset of the pointer from the centre, with [0 < k <= 0.35],
    by no more than 13.125 px in all, and by nothing at the centre; a move
    farther away writes nothing.  Over any series of moves and leaves, with
    any rectangles, the translation stays finite and within 13.125 px. *)
Theorem magnetic_pull_bounded :
  forall (x y l t w h : R) (evs : list (Rect.t * option (R * R))),
    (norm2 (x - (l + w / 2)) (y - (t + h / 2)) < 150 ->
     exists k : R,
       0 < k <= 0.35
       /\ Magnetic.onMove (Num x) (Num y) (finite_rect l t w h)
          = Some (Num (k * (x - (l + w / 2))), Num (k * (y - (t + h / 2))))
       /\ within 13.125 (Num (k * (x - (l + w / 2))), Num (k * (y - (t + h / 2)))))
    /\ (150 <= norm2 (x - (l + w / 2)) (y - (t + h / 2)) ->
        Magnetic.onMove (Num x) (Num y) (finite_rect l t w h) = None)
    /\ within 13.125 (magnetic_run evs).
Proof.
  intros x y l t w h evs. split; [|split].
  - intros Hd. pose proof (magnetic_onMove_Num x y l t w h) as E. cbv zeta in E.
    set (dx := x - (l + w / 2)) in *. set (dy := y - (t + h / 2)) in *.
    pose proof (norm2_nonneg dx dy) as H0.
    destruct (Rlt_dec (norm2 dx dy) 150) as [_ | Hn]; [|contradiction].
    exists ((1 - norm2 dx dy / 150) * 0.35).
    assert (Em : Magnetic.onMove (Num x) (Num y) (finite_rect l t w h)
                 = Some (Num ((1 - norm2 dx dy / 150) * 0.35 * dx),
                         Num ((1 - norm2 dx dy / 150) * 0.35 * dy))).
    { rewrite E. f_equal. f_equal; f_equal; ring. }
    split; [lra|]. split; [exact Em|].
    exact (magnetic_onMove_within _ _ _ _ Em).
  - intros Hd. rewrite magnetic_onMove_Num. cbv zeta.
    destruct (Rlt_dec _ 150); [lra | reflexivity].
  - unfold magnetic_run.
    assert (H0 : within 13.125 (Num 0, Num 0)).
    { exists 0, 0. split; [reflexivity | lra]. }
    revert H0. generalize (Num 0, Num 0). induction evs as [|[rect ev] tl IH]; intros tr Htr.
    + exact Htr.
    + cbn [fold_left]. apply IH. cbn [fst snd]. unfold Magnetic.handle.
      destruct ev as [[px py]|].
      * destruct (Magnetic.onMove (Num px) (Num py) rect) as [m|] eqn:Em; [|exact Htr].
        exact (magnetic_onMove_within _ _ _ _ Em).
      * exists 0, 0. split; [reflexivity | lra].
Qed.

Lemma magnetic_pull_bounded_witness :
  exists k : R,
    0 < k <= 0.35
    /\ Magnetic.onMove (Num 130) (Num 60) (finite_rect 0 0 200 40)
       = Some (Num (k * (130 - (0 + 200 / 2))), Num (k * (60 - (0 + 40 / 2))))
    /\ within 13.125 (Num (k * (130 - (0 + 200 / 2))), Num (k * (60 - (0 + 40 / 2)))).
Proof.
  apply (magnetic_pull_bounded 130 60 0 0 200 40 []).
  replace (130 - (0 + 200 / 2)) with 30 by lra.
  replace (60 - (0 + 40 / 2)) with 40 by lra.
  unfold norm2. replace (30 * 30 + 40 * 40) with (50 * 50) by lra.
  rewrite sqrt_square; lra.
Defined.

(** X18: the tilt is at most the maximal rotation.  For a card of positive
    size and a pointer inside its rectangle both rotations lie in [-8, 8]
    degrees and the shine position in [0, 100] per cent; the rotations are
    linear in the offset from the centre, [16 * offset / size], and vanish
    there. *)
Theorem tilt_bounded :
  forall x y l t w h : R,
    0 < w -> 0 < h -> l <= x <= l + w -> t <= y <= t + h ->
    exists rx ry sx sy : R,
      TiltCards.onMove (Num x) (Num y) (finite_rect l t w h)
      = TiltCards.mkTilt (Num rx) (Num ry) (Num sx) (Num sy)
      /\ -8 <= rx <= 8 /\ -8 <= ry <= 8
      /\ 0 <= sx <= 100 /\ 0 <= sy <= 100
      /\ ry = 16 * (x - (l + w / 2)) / w
      /\ rx = 16 * (t + h / 2 - y) / h.
Proof.
  intros x y l t w h Hw Hh Hx Hy.
  unfold TiltCards.onMove, finite_rect, TiltCards.maxRotation.
  cbn [Rect.left Rect.top Rect.width Rect.height JsNum.div JsNum.add JsNum.sub JsNum.mul
       JsNum.lift2].
  destruct (Req_dec_T w 0) as [E | _]; [lra|].
  destruct (Req_dec_T h 0) as [E | _]; [lra|].
  cbn [JsNum.add JsNum.sub JsNum.mul JsNum.lift2].
  do 4 eexists. split; [reflexivity|].
  assert (Hiw : 0 < / w) by now apply Rinv_0_lt_compat.
  assert (Hih : 0 < / h) by now apply Rinv_0_lt_compat.
  assert (Ew : w * / w = 1) by (apply Rinv_r; lra).
  assert (Eh : h * / h = 1) by (apply Rinv_r; lra).
  unfold Rdiv.
  set (q := (x - l) * / w). set (r := (y - t) * / h).
  assert (Hq : 0 <= q <= 1) by (unfold q; split; nra).
  assert (Hr : 0 <= r <= 1) by (unfold r; split; nra).
  assert (Eq' : 16 * (x - (l + w * / 2)) * / w = 16 * q - 8 * (w * / w)) by (unfold q; lra).
  assert (Er' : 16 * (t + h * / 2 - y) * / h = 8 * (h * / h) - 16 * r) by (unfold r; lra).
  rewrite Eq', Er', Ew, Eh.
  repeat split; lra.
Qed.

Lemma tilt_bounded_witness :
  exists rx ry sx sy : R,
    TiltCards.onMove (Num 150) (Num 40) (finite_rect 100 20 200 80)
    = TiltCards.mkTilt (Num rx) (Num ry) (Num sx) (Num sy)
    /\ -8 <= rx <= 8 /\ -8 <= ry <= 8
    /\ 0 <= sx <= 100 /\ 0 <= sy <= 100
    /\ ry = 16 * (150 - (100 + 200 / 2)) / 200
    /\ rx = 16 * (20 + 80 / 2 - 40) / 80.
Proof.
  apply (tilt_bounded 150 40 100 20 200 80); lra.
Defined.

(** * Parallax *)

Lemma parallax_scrolls (n : nat) (s : Parallax.t) :
  (1 <= n)%nat ->
  Nat.iter n Parallax.on_scroll s =
  if Parallax.ticking s then s
  else Parallax.mk (Parallax.elements s) true (S (Parallax.queued s)) (Parallax.updates s)
         (Parallax.listeners s).
Proof.
  induction n as [|n IH]; intros Hn; [lia|].
  change (Nat.iter (S n) Parallax.on_scroll s)
    with (Parallax.on_scroll (Nat.iter n Parallax.on_scroll s)).
  destruct n as [|n].
  - cbn [Nat.iter nat_rect]. unfold Parallax.on_scroll.
    destruct (Parallax.ticking s); [destruct s|]; reflexivity.
  - rewrite IH by lia. unfold Parallax.on_scroll.
    destruct (Parallax.ticking s) eqn:E; [rewrite E|]; reflexivity.
Qed.

Lemma throttled_scroll (s : Parallax.t) :
  throttled s ->
  throttled (Parallax.dispatch s Parallax.Scroll)
  /\ Parallax.ticking (Parallax.dispatch s Parallax.Scroll) = true
  /\ Parallax.updates (Parallax.dispatch s Parallax.Scroll) = Parallax.updates s.
Proof.
  intros H. pose proof H as (Hl & Hq & Ht).
  cbn [Parallax.dispatch]. rewrite Hl, parallax_scrolls by lia.
  case_eq (Parallax.ticking s); intros E.
  - split; [exact H|]. split; [exact E | reflexivity].
  - unfold throttled. cbn.
    assert (Hq0 : Parallax.queued s = 0%nat).
    { destruct (Parallax.queued s) as [|[|k]]; [reflexivity| |lia].
      rewrite (proj2 Ht eq_refl) in E. discriminate. }
    rewrite Hq0. repeat split; auto.
Qed.

Lemma throttled_frame (s : Parallax.t) :
  throttled s ->
  throttled (Parallax.dispatch s Parallax.Frame)
  /\ Parallax.ticking (Parallax.dispatch s Parallax.Frame) = false
  /\ Parallax.updates (Parallax.dispatch s Parallax.Frame)
     = (Parallax.updates s + Parallax.queued s)%nat.
Proof.
  intros (Hl & Hq & Ht). cbn [Parallax.dispatch].
  destruct (Parallax.queued s) as [|[|k]] eqn:E; [| |lia].
  - assert (Hf : Parallax.ticking s = false).
    { case_eq (Parallax.ticking s); intros Et; [|reflexivity].
      discriminate (proj1 Ht Et). }
    unfold throttled. cbn. rewrite Hf. repeat split; auto; try discriminate; lia.
  - unfold throttled. cbn. repeat split; auto; try discriminate; lia.
Qed.

Lemma throttled_dispatch (s : Parallax.t) (ev : Parallax.Event) :
  throttled s ->
  throttled (Parallax.dispatch s ev)
  /\ (Parallax.updates s <= Parallax.updates (Parallax.dispatch s ev)
      <= Parallax.updates s + (if Parallax.is_frame ev then 1 else 0))%nat.
Proof.
  intros H. pose proof H as (_ & Hq & _). destruct ev.
  - destruct (throttled_scroll s H) as (H1 & _ & H3). split; [exact H1|].
    rewrite H3. cbn. lia.
  - destruct (throttled_frame s H) as (H1 & _ & H3). split; [exact H1|].
    rewrite H3. cbn. lia.
Qed.

Lemma throttled_run (evs : list Parallax.Event) (s : Parallax.t) :
  throttled s ->
  throttled (Parallax.run evs s)
  /\ (Parallax.updates s <= Parallax.updates (Parallax.run evs s)
      <= Parallax.updates s + length (filter Parallax.is_frame evs))%nat.
Proof.
  revert s. induction evs as [|ev tl IH]; intros s H.
  - cbn. split; [exact H | lia].
  - change (Parallax.run (ev :: tl) s) with (Parallax.run tl (Parallax.dispatch s ev)).
    destruct (throttled_dispatch s ev H) as (H1 & H2).
    destruct (IH _ H1) as (H3 & H4). split; [exact H3|].
    cbn [filter]. destruct (Parallax.is_frame ev); cbn [length]; lia.
Qed.

Lemma parallax_run_app (e1 e2 : list Parallax.Event) (s : Parallax.t) :
  Parallax.run (e1 ++ e2) s = Parallax.run e2 (Parallax.run e1 s).
Proof. unfold Parallax.run. apply fold_left_app. Qed.

Lemma throttled_burst (n : nat) (s : Parallax.t) :
  throttled s -> (1 <= n)%nat ->
  throttled (Parallax.run (repeat Parallax.Scroll n) s)
  /\ Parallax.ticking (Parallax.run (repeat Parallax.Scroll n) s) = true
  /\ Parallax.updates (Parallax.run (repeat Parallax.Scroll n) s) = Parallax.updates s.
Proof.
  intros H Hn. revert s H. induction n as [|n IH]; intros s H; [lia|].
  cbn [repeat].
  change (Parallax.run (Parallax.Scroll :: repeat Parallax.Scroll n) s)
    with (Parallax.run (repeat Parallax.Scroll n) (Parallax.dispatch s Parallax.Scroll)).
  destruct (throttled_scroll s H) as (H1 & H2 & H3).
  destruct n as [|n].
  - cbn [repeat Parallax.run fold_left]. auto.
  - destruct (IH ltac:(lia) _ H1) as (G1 & G2 & G3). rewrite G3, H3. auto.
Qed.

(** X19: scroll events are throttled to one parallax update per frame.  With
    parallax elements present and motion allowed, after any series of scroll
    events and frames at most one update is queued, the flag is up exactly
    when one is, and [update] has run at most once per frame past the initial
    call; a burst of one or more scroll events followed by a frame runs
    [update] exactly once. *)
Theorem parallax_one_update_per_frame :
  forall (found : nat) (evs : list Parallax.Event) (n : nat),
    (1 <= found)%nat -> (1 <= n)%nat ->
    (Parallax.queued (Parallax.run evs (Parallax.init found false Parallax.initial)) <= 1)%nat
    /\ (Parallax.ticking (Parallax.run evs (Parallax.init found false Parallax.initial)) = true
        <-> Parallax.queued (Parallax.run evs (Parallax.init found false Parallax.initial))
            = 1%nat)
    /\ (Parallax.updates (Parallax.run evs (Parallax.init found false Parallax.initial))
        <= 1 + length (filter Parallax.is_frame evs))%nat
    /\ Parallax.updates
         (Parallax.run (evs ++ repeat Parallax.Scroll n ++ [Parallax.Frame])
            (Parallax.init found false Parallax.initial))
       = S (Parallax.updates (Parallax.run evs (Parallax.init found false Parallax.initial))).
Proof.
  intros found evs n Hf Hn.
  assert (H0 : throttled (Parallax.init found false Parallax.initial)
               /\ Parallax.updates (Parallax.init found false Parallax.initial) = 1%nat).
  { unfold Parallax.init. destruct found as [|k]; [lia|]. cbn.
    unfold throttled. cbn. repeat split; auto; discriminate. }
  destruct H0 as (H0 & U0).
  destruct (throttled_run evs _ H0) as (H1 & H2). rewrite U0 in H2.
  pose proof H1 as (_ & Hq & Ht).
  split; [exact Hq|]. split; [exact Ht|]. split; [lia|].
  rewrite !parallax_run_app.
  destruct (throttled_burst n _ H1 Hn) as (G1 & G2 & G3).
  change (Parallax.run [Parallax.Frame] ?s) with (Parallax.dispatch s Parallax.Frame).
  destruct (throttled_frame _ G1) as (_ & _ & F3). rewrite F3, G3.
  destruct G1 as (_ & _ & Gt). rewrite (proj1 Gt G2). lia.
Qed.

Lemma parallax_one_update_per_frame_witness :
  (Parallax.queued
     (Parallax.run [Parallax.Scroll; Parallax.Scroll; Parallax.Frame; Parallax.Scroll]
        (Parallax.init 3 false Parallax.initial)) <= 1)%nat.
Proof.
  refine (proj1 (parallax_one_update_per_frame 3
                   [Parallax.Scroll; Parallax.Scroll; Parallax.Frame; Parallax.Scroll] 2
                   _ _)); repeat constructor.
Defined.


(** * Split text *)

Lemma spans_content (i : nat) (text : list N) :
  map SplitText.textContent (SplitText.spans_from i text)
  = map (fun c => if N.eqb c SplitText.space then SplitText.nbsp else c) text.
Proof.
  revert i. induction text as [|c tl IH]; intros i; cbn; [reflexivity|]. now rewrite IH.
Qed.

Lemma spans_delay (i k : nat) (text : list N) (d : SplitText.Span) :
  (k < length text)%nat ->
  SplitText.transitionDelay (nth k (SplitText.spans_from i text) d)
  = Num (INR (i + k) * 0.03).
Proof.
  revert i k. induction text as [|c tl IH]; intros i k Hk; cbn in Hk; [lia|].
  destruct k as [|k]; cbn [SplitText.spans_from nth SplitText.transitionDelay].
  - rewrite Nat.add_0_r. reflexivity.
  - rewrite IH by lia. do 2 f_equal. f_equal. lia.
Qed.

(** X21: splitting a text keeps it readable.  The element gets one span per
    code point and the original text as its label; no span holds a plain
    space; span [k] is delayed by [k * 0.03] s; the element's text is left
    unchanged by a second split; and turning no-break spaces back into
    spaces recovers the original exactly when it held no no-break space. *)
Theorem split_text_round_trip :
  forall text : list N,
    length (SplitText.children (SplitText.split text)) = length text
    /\ SplitText.ariaLabel (SplitText.split text) = Some text
    /\ ~ In SplitText.space (SplitText.content (SplitText.split text))
    /\ (forall (k : nat) (d : SplitText.Span),
          (k < length text)%nat ->
          SplitText.transitionDelay (nth k (SplitText.children (SplitText.split text)) d)
          = Num (INR k * 0.03))
    /\ SplitText.content (SplitText.split (SplitText.content (SplitText.split text)))
       = SplitText.content (SplitText.split text)
    /\ (map restore (SplitText.content (SplitText.split text)) = text
        <-> ~ In SplitText.nbsp text).
Proof.
  intros text. unfold SplitText.content, SplitText.split. cbn [SplitText.children SplitText.ariaLabel].
  rewrite !spans_content.
  split; [|split; [reflexivity|split; [|split; [|split]]]].
  - rewrite <- (length_map SplitText.textContent), spans_content. apply length_map.
  - intros H. apply in_map_iff in H as (c & E & _).
    destruct (N.eqb_spec c SplitText.space) as [Ec | Hne]; [|contradiction].
    unfold SplitText.nbsp, SplitText.space in E. discriminate E.
  - intros k d Hk. now rewrite spans_delay.
  - rewrite map_map. apply map_ext. intros c.
    destruct (N.eqb_spec c SplitText.space) as [-> | Hne]; [reflexivity|].
    destruct (N.eqb_spec c SplitText.space); [contradiction | reflexivity].
  - rewrite map_map. induction text as [|c tl IH]; cbn [map In].
    + split; auto.
    + split.
      * intros H. injection H as Hc Htl. apply IH in Htl. intros [E | Hin]; [|contradiction].
        subst c. cbn in Hc. discriminate.
      * intros H. f_equal.
        -- unfold restore. destruct (N.eqb_spec c SplitText.space) as [-> | Hne]; [reflexivity|].
           destruct (N.eqb_spec c SplitText.nbsp) as [-> | Hnb]; [|reflexivity].
           exfalso. apply H. now left.
        -- apply IH. intros Hin. apply H. now right.
Qed.

Lemma split_text_round_trip_witness :
  map restore (SplitText.content (SplitText.split [72; 105; 32; 74; 85]%N))
  = [72; 105; 32; 74; 85]%N.
Proof.
  apply (split_text_round_trip [72; 105; 32; 74; 85]%N).
  cbn. intros [H | [H | [H | [H | [H | []]]]]]; discriminate.
Defined.
